(** * Carosync: the file-based coordination between the Telegram ingester
      and the platform syncers

    A shallow embedding of the classes [TelegramChannelSync] and
    [EitaaSync] of [src/index.ts] and of the class [BaleSync] of
    [src/bale-sync.ts].

    Modelling conventions.
    - An optional JSON field is an [option]; JavaScript truthiness is
      written out where the source relies on it ([truthy_flag],
      [truthy_text], [truthy_num]).
    - The storage directory is a list of directory entries in [readdir]
      order; a syncer process owns an in-memory ledger [mem] and its
      on-disk copy [disk].
    - A syncer method is a computation in the monad [M]: it reads and
      updates the process state, may raise a JavaScript exception
      ([Throw]) or leave through [process.exit] ([Halt]), and emits the
      list of the effects it performed, in order.
    - The replies of the downstream platform are an input: the list
      [replies] is consumed one reply per HTTP call.
    - Timed waits ([setTimeout] used for rate limiting) change no state.
      [watchCycle] is one firing of the watch callback run to its end;
      the timer does not wait for it, and the process model of the
      section on the life of a syncer process also has runs of the
      callback that give way to one another at their waits.
    - Writes of the ledger file succeed.  Log lines are left out, except
      the one line of the watch loops that can raise ([logNewPost]). *)

From Stdlib Require Import ZArith List String Ascii Lia Sorted Permutation.
From stdpp Require Import base option gmap strings list pretty.

Open Scope Z_scope.

(** ** Post records *)

(** [id: string | number] *)
Inductive PostId :=
| NumId (n : Z)
| StrId (s : string).

#[global] Instance PostId_eq_dec : EqDecision PostId.
Proof. solve_decision. Defined.

(** [id.toString()], also the rendering of [${id}] in a template *)
Definition toString (i : PostId) : string :=
  match i with
  | NumId n => pretty n
  | StrId s => s
  end.

(** [interface PostData] *)
Record PostData := mkPostData {
  id : PostId;
  date : option Z;
  editDate : option Z;
  text : option string;
  media : list string;
  childMessages : option (list Z);
  replyToMsgId : option Z;
  replyToTopId : option Z;
  deleted : option bool;
  pinned : option bool;
  pinnedDate : option Z
}.

#[global] Instance PostData_eq_dec : EqDecision PostData.
Proof. solve_decision. Defined.

(** JavaScript truthiness of an optional boolean, string and number *)
Definition truthy_flag (b : option bool) : bool :=
  match b with Some true => true | _ => false end.

Definition truthy_text (s : option string) : bool :=
  match s with Some EmptyString => false | Some _ => true | None => false end.

Definition truthy_num (n : option Z) : bool :=
  match n with Some k => negb (k =? 0) | None => false end.

(** ** The shared storage directory *)

(** What [JSON.parse(readFile(f))] gives for a post file *)
Inductive FileBody :=
| Garbage
| Json (p : PostData).

(** [telegram_sync_status.json] *)
Inductive StatusFile :=
| NoStatusFile
| BadStatusFile
| StatusJson (status : string) (counts : option (Z * Z * Z)).

Record FS := mkFS {
  status_file : StatusFile;
  entries : list (string * FileBody);
  media_files : list string
}.

Definition set_status (s : StatusFile) (d : FS) : FS :=
  mkFS s (entries d) (media_files d).
Definition set_entries (e : list (string * FileBody)) (d : FS) : FS :=
  mkFS (status_file d) e (media_files d).
Definition set_media_files (m : list string) (d : FS) : FS :=
  mkFS (status_file d) (entries d) m.

Definition lookup_entry (name : string) (e : list (string * FileBody))
  : option FileBody :=
  snd <$> List.find (fun x => String.eqb (fst x) name) e.

(** [fs.unlink] of a file of the directory; a missing file changes nothing *)
Definition unlink_entry (name : string) (e : list (string * FileBody))
  : list (string * FileBody) :=
  List.filter (fun x => negb (String.eqb (fst x) name)) e.

(** [fs.writeFile]: an existing file is overwritten in place, a new one
    is added to the directory *)
Fixpoint write_entry (name : string) (b : FileBody)
  (e : list (string * FileBody)) : list (string * FileBody) :=
  match e with
  | [] => [(name, b)]
  | x :: e' =>
      if String.eqb (fst x) name then (name, b) :: e'
      else x :: write_entry name b e'
  end.

(** [post_${id}.json] *)
Definition post_file (i : PostId) : string :=
  "post_" +:+ toString i +:+ ".json".

Definition endsWith (suffix s : string) : bool :=
  String.eqb
    (String.substring (String.length s - String.length suffix)
       (String.length suffix) s)
    suffix
  && (String.length suffix <=? String.length s)%nat.

(** [file.startsWith('post_') && file.endsWith('.json')] *)
Definition is_post_file (f : string) : bool :=
  String.prefix "post_" f && endsWith ".json" f.

(** ** Stable sort with a numeric comparator

    [Array.prototype.sort((a, b) => key(a) - key(b))]: the sort is stable,
    so its result is the one of insertion sort on the key. *)
Section Sort.
Context {A : Type} (key : A -> Z).

Fixpoint insert_sorted (x : A) (l : list A) : list A :=
  match l with
  | [] => [x]
  | y :: l' =>
      if key x <=? key y then x :: y :: l' else y :: insert_sorted x l'
  end.

Fixpoint sort_by (l : list A) : list A :=
  match l with
  | [] => []
  | x :: l' => insert_sorted x (sort_by l')
  end.

Definition key_le (a b : A) : Prop := key a <= key b.
Definition key_lt (a b : A) : Prop := key a < key b.
End Sort.

(** [a.date || 0] *)
Definition dateKey (p : PostData) : Z :=
  match date p with
  | Some d => d
  | None => 0
  end.

(** ** Node's [path.extname] and [String.prototype.toLowerCase]

    [path.extname] (POSIX) scans the path from its end: it skips trailing
    separators, stops at the separator that opens the last component, and
    remembers the last dot of that component ([startDot]) and whether a
    character other than a dot precedes it ([preDotState]).  A string is a
    list of bytes; [/] and [.] are single bytes, so the scan cuts the path
    where the scan of the UTF-16 string does. *)
Module Path.

Record Scan := mkScan {
  startDot : Z;
  startPart : Z;
  end_ : Z;
  matchedSlash : bool;
  preDotState : Z
}.

(** the body of the loop at index [i]; the flag is [break] *)
Definition scan_step (i : Z) (code : ascii) (s : Scan) : Scan * bool :=
  if Ascii.eqb code "/" then
    if negb (matchedSlash s)
    then (mkScan (startDot s) (i + 1) (end_ s) (matchedSlash s) (preDotState s),
          true)
    else (s, false)
  else
    let s1 :=
      if end_ s =? -1
      then mkScan (startDot s) (startPart s) (i + 1) false (preDotState s)
      else s in
    if Ascii.eqb code "." then
      if startDot s1 =? -1
      then (mkScan i (startPart s1) (end_ s1) (matchedSlash s1) (preDotState s1),
            false)
      else if negb (preDotState s1 =? 1)
      then (mkScan (startDot s1) (startPart s1) (end_ s1) (matchedSlash s1) 1,
            false)
      else (s1, false)
    else if negb (startDot s1 =? -1)
    then (mkScan (startDot s1) (startPart s1) (end_ s1) (matchedSlash s1) (-1),
          false)
    else (s1, false).

(** [for (let i = path.length - 1; i >= 0; --i)]: [codes] are the
    characters at the indices [i], [i - 1], ..., [0] *)
Fixpoint scan_loop (codes : list ascii) (i : Z) (s : Scan) : Scan :=
  match codes with
  | [] => s
  | code :: rest =>
      let '(s1, stop) := scan_step i code s in
      if stop then s1 else scan_loop rest (i - 1) s1
  end.

Definition extname (path : string) : string :=
  let codes := list_ascii_of_string path in
  let s := scan_loop (List.rev codes) (Z.of_nat (length codes) - 1)
             (mkScan (-1) 0 (-1) true 0) in
  if (startDot s =? -1) || (end_ s =? -1) || (preDotState s =? 0)
     || ((preDotState s =? 1) && (startDot s =? end_ s - 1)
         && (startDot s =? startPart s + 1))
  then ""
  else String.substring (Z.to_nat (startDot s))
         (Z.to_nat (end_ s - startDot s)) path.

End Path.

(** [toLowerCase] on the letters of ASCII; the other bytes stay (the model
    is exact for strings of ASCII characters) *)
Definition lower (c : ascii) : ascii :=
  let n := nat_of_ascii c in
  if (65 <=? n)%nat && (n <=? 90)%nat then ascii_of_nat (n + 32) else c.

Fixpoint toLowerCase (s : string) : string :=
  match s with
  | EmptyString => EmptyString
  | String c s' => String (lower c) (toLowerCase s')
  end.

(** ** Effects of a syncer process *)

(** [interface BaleResponse] / [interface EitaaResponse]: the parsed JSON
    body of a reply; [result.message_id] is what the Bale syncer keeps *)
Record ApiResult := mkApiResult { message_id : option Z }.
Record ApiResponse := mkApiResponse { ok : bool; result : option ApiResult }.

(** What one HTTP call comes back with: [fetch] or [response.json()]
    throws, or a JSON body is parsed *)
Inductive Reply :=
| NetFail
| Body (r : ApiResponse).

(** The outcome of one adapter call: the local media file is missing
    ([fs.access] throws before any request is made), or the request is made
    and answered *)
Inductive Outcome :=
| FileMissing
| Got (r : Reply).

(** The call raised an exception: [if (!result.ok) throw ...] *)
Definition raises (o : Outcome) : bool :=
  match o with
  | FileMissing => true
  | Got NetFail => true
  | Got (Body r) => negb (ok r)
  end.

(** [ESyncPost p] is the first line of [syncPost(p)], which logs the post
    it is about to deliver.  The first argument of the four adapter calls
    is the id of the post on whose behalf the call is made; the source does
    not pass it, it is kept in the trace to tell the calls of different
    posts apart. *)
Inductive Event :=
| EReadStatus
| EReadDir
| EReadPost (file : string)
| ESyncPost (p : PostData)
| ESendFile (pid path : string) (caption : option string) (pin : bool)
    (o : Outcome)
| ESendMessage (pid text : string) (pin : bool) (o : Outcome)
| EEditMessage (pid : string) (messageId : Z) (newText : string)
    (o : Outcome)
| EDeleteMessage (pid : string) (messageId : Z) (o : Outcome)
| ESaveLedger
| EUnlinkMedia (path : string)
| EUnlinkPost (file : string)
| EClearInterval
| EExit (code : Z).

Definition is_send (e : Event) : bool :=
  match e with
  | ESendFile _ _ _ _ _ | ESendMessage _ _ _ _ => true
  | _ => false
  end.

Definition is_edit (e : Event) : bool :=
  match e with EEditMessage _ _ _ _ => true | _ => false end.

Definition is_delete (e : Event) : bool :=
  match e with EDeleteMessage _ _ _ => true | _ => false end.

Definition is_post_read (e : Event) : bool :=
  match e with EReadPost _ => true | _ => false end.

(** The post an adapter call is made for *)
Definition call_of (e : Event) : option string :=
  match e with
  | ESendFile pid _ _ _ _ | ESendMessage pid _ _ _
  | EEditMessage pid _ _ _ | EDeleteMessage pid _ _ => Some pid
  | _ => None
  end.

Definition send_of (pid : string) (e : Event) : bool :=
  match e with
  | ESyncPost p => bool_decide (toString (id p) = pid)
  | _ => is_send e && bool_decide (call_of e = Some pid)
  end.

Definition delete_of (pid : string) (e : Event) : bool :=
  is_delete e && bool_decide (call_of e = Some pid).

(** An adapter call that raised *)
Definition raised (e : Event) : bool :=
  match e with
  | ESendFile _ _ _ _ o | ESendMessage _ _ _ o
  | EEditMessage _ _ _ o | EDeleteMessage _ _ o => raises o
  | _ => false
  end.

(** The state of one syncer process; [L] is the type of its ledger *)
Record Proc (L : Type) := mkProc {
  dir : FS;
  disk : option L;
  mem : L;
  replies : list Reply
}.
Arguments mkProc {L} _ _ _ _.
Arguments dir {L} _.
Arguments disk {L} _.
Arguments mem {L} _.
Arguments replies {L} _.

Inductive Res (A : Type) :=
| Ret (a : A)
| Throw
| Halt (code : Z).
Arguments Ret {A} _.
Arguments Throw {A}.
Arguments Halt {A} _.

Definition M (L A : Type) : Type := Proc L -> Res A * Proc L * list Event.

Section Monad.
Context {L : Type}.

Definition ret {A} (a : A) : M L A := fun w => (Ret a, w, []).

Definition bind {A B} (m : M L A) (k : A -> M L B) : M L B :=
  fun w =>
    match m w with
    | (Ret a, w1, t1) =>
        match k a w1 with (r, w2, t2) => (r, w2, t1 ++ t2) end
    | (Throw, w1, t1) => (Throw, w1, t1)
    | (Halt c, w1, t1) => (Halt c, w1, t1)
    end.

Definition throw {A} : M L A := fun w => (Throw, w, []).

(** [process.exit(code)] *)
Definition exit {A} (code : Z) : M L A := fun w => (Halt code, w, [EExit code]).

(** [try { m } catch (error) { h }] *)
Definition try_catch {A} (m h : M L A) : M L A :=
  fun w =>
    match m w with
    | (Throw, w1, t1) =>
        match h w1 with (r, w2, t2) => (r, w2, t1 ++ t2) end
    | other => other
    end.

Definition gets {A} (f : Proc L -> A) : M L A := fun w => (Ret (f w), w, []).
Definition modify (g : Proc L -> Proc L) : M L unit := fun w => (Ret tt, g w, []).
Definition emit (e : Event) : M L unit := fun w => (Ret tt, w, [e]).
End Monad.

Notation "x <- m ;; k" := (bind m (fun x => k))
  (at level 100, m at next level, right associativity).
Notation "m ;;; k" := (bind m (fun _ => k))
  (at level 100, right associativity).

Section Loops.
Context {L : Type}.

(** [for (const x of l) { f(x) }] *)
Fixpoint forM_ {A} (l : list A) (f : A -> M L unit) : M L unit :=
  match l with
  | [] => ret tt
  | x :: l' => f x ;;; forM_ l' f
  end.

(** a [for ... of] loop that updates one local variable *)
Fixpoint foldM {A B} (f : B -> A -> M L B) (b : B) (l : list A) : M L B :=
  match l with
  | [] => ret b
  | x :: l' => b' <- f b x ;; foldM f b' l'
  end.
End Loops.

Definition run_of {L A} (x : Res A * Proc L * list Event) : Res A := fst (fst x).
Definition proc_of {L A} (x : Res A * Proc L * list Event) : Proc L := snd (fst x).
Definition trace_of {L A} (x : Res A * Proc L * list Event) : list Event := snd x.

(** ** Code shared by the two syncers

    [isTelegramSyncInProgress], [loadPostData], [loadAndSortPosts] and
    [deletePostAndMedia] have the same text in [EitaaSync] and [BaleSync]. *)
Section Syncer.
Context {L : Type}.

Definition set_dir (g : FS -> FS) (w : Proc L) : Proc L :=
  mkProc (g (dir w)) (disk w) (mem w) (replies w).
Definition set_mem (g : L -> L) (w : Proc L) : Proc L :=
  mkProc (dir w) (disk w) (g (mem w)) (replies w).

(** a read error (missing file, malformed content) gives [false] *)
Definition isTelegramSyncInProgress : M L bool :=
  emit EReadStatus ;;;
  s <- gets (fun w => status_file (dir w)) ;;
  ret (match s with
       | StatusJson st _ => String.eqb st "in_progress"
       | _ => false
       end).

(** [fs.readdir(this.storagePath)] *)
Definition readdir : M L (list string) :=
  emit EReadDir ;;;
  gets (fun w => List.map fst (entries (dir w))).

Definition loadPostData (file : string) : M L (option PostData) :=
  emit (EReadPost file) ;;;
  b <- gets (fun w => lookup_entry file (entries (dir w))) ;;
  ret (match b with
       | Some (Json p) => Some p
       | _ => None
       end).

Definition loadAndSortPosts (postFiles : list string) : M L (list PostData) :=
  posts <- foldM (fun posts file =>
                    postData <- loadPostData file ;;
                    ret (match postData with
                         | Some p => posts ++ [p]
                         | None => posts
                         end))
                 [] postFiles ;;
  ret (sort_by dateKey posts).

(** one HTTP round trip; no reply at all counts as a network failure *)
Definition fetch : M L Reply :=
  fun w =>
    (Ret (List.hd NetFail (replies w)),
     mkProc (dir w) (disk w) (mem w) (List.tl (replies w)), []).

(** the tail of [sendMessage], [sendFile], [editMessage] and
    [deleteMessage]: [if (!result.ok) throw ...; return result] *)
Definition checked (r : Reply) : M L ApiResponse :=
  match r with
  | NetFail => throw
  | Body b => if ok b then ret b else throw
  end.

Definition unlink_post (p : PostData) : M L unit :=
  emit (EUnlinkPost (post_file (id p))) ;;;
  modify (set_dir (fun d => set_entries (unlink_entry (post_file (id p)) (entries d)) d)).

Definition unlink_media (mediaPath : string) : M L unit :=
  emit (EUnlinkMedia mediaPath) ;;;
  modify (set_dir (fun d =>
    set_media_files (List.filter (fun f => negb (String.eqb f mediaPath)) (media_files d)) d)).

(** every [unlink] failure is caught and logged *)
Definition deletePostAndMedia (p : PostData) : M L unit :=
  forM_ (media p) unlink_media ;;;
  unlink_post p.

(** The log line that opens a delivery in the watch loops,
    [`New post detected: ... ${new Date(postData.date! * 1000).toISOString()}`]:
    [toISOString] throws a [RangeError] when [date] is missing (the time
    value is [NaN]) and when the time value lies outside the range of
    [Date], 8.64e15 ms on either side of the epoch. *)
Definition maxTime : Z := 8640000000000000.

Definition logNewPost (postData : PostData) : M L unit :=
  match date postData with
  | Some d => if Z.abs (d * 1000) <=? maxTime then ret tt else throw
  | None => throw
  end.

(** [testConnection]: a request that fails and a body that does not parse
    are caught; nothing is sent, the [getMe] request only takes a reply *)
Definition testConnection : M L bool :=
  try_catch
    (r <- fetch ;;
     match r with
     | NetFail => throw
     | Body result => ret (ok result)
     end)
    (ret false).

End Syncer.

(** ** [class BaleSync] *)
Module BaleSync.

(** [interface ProcessedPostMetadata] *)
Record ProcessedPostMetadata := mkMeta {
  meta_date : option Z;
  meta_editDate : option Z;
  meta_deleted : option bool;
  baleMessageId : option Z
}.

(** [processedPosts: Map<string, ProcessedPostMetadata>] *)
Abbreviation Ledger := (gmap string ProcessedPostMetadata).

(** absence of [bale_processed.json] is not an error *)
Definition loadProcessedPosts : M Ledger unit :=
  d <- gets disk ;;
  match d with
  | Some processed => modify (set_mem (fun _ => processed))
  | None => ret tt
  end.

Definition saveProcessedPosts : M Ledger unit :=
  emit ESaveLedger ;;;
  modify (fun w => mkProc (dir w) (Some (mem w)) (mem w) (replies w)).

Definition sendMessage (pid text : string) (pin : option bool)
  : M Ledger ApiResponse :=
  r <- fetch ;;
  emit (ESendMessage pid text (truthy_flag pin) (Got r)) ;;;
  checked r.

Definition sendFile (pid filePath : string) (caption : option string)
  (pin : option bool) : M Ledger ApiResponse :=
  present <- gets (fun w => existsb (String.eqb filePath) (media_files (dir w))) ;;
  let sent_caption := if truthy_text caption then caption else None in
  if present then
    r <- fetch ;;
    emit (ESendFile pid filePath sent_caption (truthy_flag pin) (Got r)) ;;;
    checked r
  else
    emit (ESendFile pid filePath sent_caption (truthy_flag pin) FileMissing) ;;;
    throw.

Definition editMessage (pid : string) (messageId : option Z)
  (newText : option string) : M Ledger (option ApiResponse) :=
  match messageId, newText with
  | Some mid, Some txt =>
      if negb (truthy_num messageId) || negb (truthy_text newText)
      then ret None
      else
        r <- fetch ;;
        emit (EEditMessage pid mid txt (Got r)) ;;;
        b <- checked r ;;
        ret (Some b)
  | _, _ => ret None
  end.

Definition deleteMessage (pid : string) (messageId : option Z)
  : M Ledger (option ApiResponse) :=
  match messageId with
  | Some mid =>
      if negb (truthy_num messageId) then ret None
      else
        r <- fetch ;;
        emit (EDeleteMessage pid mid (Got r)) ;;;
        b <- checked r ;;
        ret (Some b)
  | None => ret None
  end.

(** keeps the media files *)
Definition deletePostData (p : PostData) : M Ledger unit :=
  unlink_post p.

(** [if (result.ok && result.result) baleMessageId = result.result.message_id] *)
Definition keep_id (current : option Z) (r : ApiResponse) : option Z :=
  match result r with
  | Some res => if ok r then message_id res else current
  | None => current
  end.

(** the sends of [syncPost]; the value is its local [baleMessageId] *)
Definition sendPost (postData : PostData) : M Ledger (option Z) :=
  let pid := toString (id postData) in
  if (0 <? length (media postData))%nat then
    foldM (fun baleMessageId mediaPath =>
             r <- sendFile pid mediaPath (text postData) (pinned postData) ;;
             ret (keep_id baleMessageId r))
          None (media postData)
  else
    match text postData with
    | Some txt =>
        if truthy_text (text postData) then
          r <- sendMessage pid txt (pinned postData) ;;
          ret (keep_id None r)
        else ret None
    | None => ret None
    end.

Definition syncPost (postData : PostData) : M Ledger unit :=
  let pid := toString (id postData) in
  emit (ESyncPost postData) ;;;
  baleMessageId <- sendPost postData ;;
  modify (set_mem (fun m =>
    <[pid := mkMeta (date postData) (editDate postData) (deleted postData)
               baleMessageId]> m)) ;;;
  saveProcessedPosts ;;;
  deletePostAndMedia postData.

(** the body of the [for] loop of [syncExistingPosts] *)
Definition syncIfNew (postData : PostData) : M Ledger unit :=
  processed <- gets (fun w =>
    match mem w !! toString (id postData) with
    | Some _ => true
    | None => false
    end) ;;
  if negb (truthy_flag (deleted postData)) && negb processed
  then syncPost postData
  else ret tt.

Definition syncExistingPosts : M Ledger unit :=
  files <- readdir ;;
  let postFiles := List.filter is_post_file files in
  postsToSync <- loadAndSortPosts postFiles ;;
  forM_ postsToSync syncIfNew.

(** the body of the [for] loop of the watch callback *)
Definition watchPost (postData : PostData) : M Ledger unit :=
  let postId := toString (id postData) in
  cachedMetadata <- gets (fun w => mem w !! postId) ;;
  match cachedMetadata with
  | None =>
      if negb (truthy_flag (deleted postData)) then
        logNewPost postData ;;;
        syncPost postData
      else
        modify (set_mem (fun m =>
          <[postId := mkMeta (date postData) (editDate postData)
                        (deleted postData) None]> m)) ;;;
        saveProcessedPosts ;;;
        deletePostData postData
  | Some cached =>
      let hasChanges :=
        negb (bool_decide (meta_editDate cached = editDate postData))
        || negb (bool_decide (meta_deleted cached = deleted postData)) in
      if hasChanges then
        if truthy_flag (deleted postData)
           && negb (truthy_flag (meta_deleted cached))
        then
          deleteMessage postId (baleMessageId cached) ;;;
          modify (set_mem (fun m =>
            <[postId := mkMeta (date postData) (editDate postData)
                          (deleted postData) (baleMessageId cached)]> m)) ;;;
          saveProcessedPosts ;;;
          deletePostData postData
        else if negb (bool_decide (editDate postData = meta_editDate cached))
                && negb (truthy_flag (deleted postData))
        then
          (* the call of editMessage is commented out in the source *)
          modify (set_mem (fun m =>
            <[postId := mkMeta (date postData) (editDate postData)
                          (deleted postData) (baleMessageId cached)]> m)) ;;;
          saveProcessedPosts ;;;
          deletePostData postData
        else ret tt
      else deletePostData postData
  end.

(** one firing of the [setInterval] callback of [startWatching], run to
    its end *)
Definition watchCycle : M Ledger unit :=
  try_catch
    (isTelegramSyncing <- isTelegramSyncInProgress ;;
     if isTelegramSyncing then ret tt
     else
       files <- readdir ;;
       let postFiles := List.filter is_post_file files in
       newPosts <- loadAndSortPosts postFiles ;;
       forM_ newPosts watchPost)
    (emit EClearInterval ;;;
     saveProcessedPosts ;;;
     exit 1).

(** The callback in three parts.  [watchScan] is the callback up to its
    loop; its value is the list of the records the loop visits, empty when
    the callback returns at the status check.  [watchVisit] is one turn of
    the loop; its value tells whether the turn ends in the wait of one
    second that follows a delivery.  [watchRescue] is the [catch] block. *)
Definition watchScan : M Ledger (list PostData) :=
  isTelegramSyncing <- isTelegramSyncInProgress ;;
  if isTelegramSyncing then ret []
  else
    files <- readdir ;;
    let postFiles := List.filter is_post_file files in
    loadAndSortPosts postFiles.

Definition watchVisit (postData : PostData) : M Ledger bool :=
  delivers <- gets (fun w =>
    match mem w !! toString (id postData) with
    | Some _ => false
    | None => negb (truthy_flag (deleted postData))
    end) ;;
  watchPost postData ;;;
  ret delivers.

Definition watchRescue : M Ledger unit :=
  emit EClearInterval ;;;
  saveProcessedPosts ;;;
  exit 1.

(** [start()] up to the call of [startWatching], inside the [try]/[catch]
    of the main script, which answers a rejected [start()] with
    [process.exit(1)].  The bounded wait for the producer only polls the
    status file and is left out. *)
Definition start : M Ledger unit :=
  try_catch (loadProcessedPosts ;;; syncExistingPosts) (exit 1).

(** ['photo' | 'video' | 'audio' | 'document'] *)
Inductive FileType := photo | video | audio | document.

Definition imageFormats : list string :=
  [".jpg"; ".jpeg"; ".png"; ".gif"; ".bmp"; ".webp"].
Definition videoFormats : list string :=
  [".mp4"; ".avi"; ".mov"; ".mkv"; ".webm"; ".flv"; ".wmv"; ".m4v"].
Definition audioFormats : list string :=
  [".mp3"; ".m4a"; ".wav"; ".flac"; ".aac"; ".ogg"; ".wma"].

(** [formats.includes(ext)] *)
Definition includes (formats : list string) (ext : string) : bool :=
  existsb (String.eqb ext) formats.

Definition getFileType (filePath : string) : FileType :=
  let ext := toLowerCase (Path.extname filePath) in
  if includes imageFormats ext then photo
  else if includes videoFormats ext then video
  else if includes audioFormats ext then audio
  else document.

(** the [switch] of [sendFile]: the API method and the name of the form
    field that carries the file *)
Definition route (fileType : FileType) : string * string :=
  match fileType with
  | photo => ("/sendPhoto", "photo")
  | video => ("/sendVideo", "video")
  | audio => ("/sendAudio", "audio")
  | document => ("/sendDocument", "document")
  end.

End BaleSync.

(** ** [class EitaaSync] *)
Module EitaaSync.

(** [processedPosts: Set<string>] *)
Abbreviation Ledger := (gset string).

Definition loadProcessedPosts : M Ledger unit :=
  d <- gets disk ;;
  match d with
  | Some processed => modify (set_mem (fun _ => processed))
  | None => ret tt
  end.

Definition saveProcessedPosts : M Ledger unit :=
  emit ESaveLedger ;;;
  modify (fun w => mkProc (dir w) (Some (mem w)) (mem w) (replies w)).

Definition sendMessage (pid text : string) (pin : option bool)
  : M Ledger ApiResponse :=
  r <- fetch ;;
  emit (ESendMessage pid text (truthy_flag pin) (Got r)) ;;;
  checked r.

Definition sendFile (pid filePath : string) (caption : option string)
  (pin : option bool) : M Ledger ApiResponse :=
  present <- gets (fun w => existsb (String.eqb filePath) (media_files (dir w))) ;;
  let sent_caption := if truthy_text caption then caption else None in
  if present then
    r <- fetch ;;
    emit (ESendFile pid filePath sent_caption (truthy_flag pin) (Got r)) ;;;
    checked r
  else
    emit (ESendFile pid filePath sent_caption (truthy_flag pin) FileMissing) ;;;
    throw.

(** the sends of [syncPost] *)
Definition sendPost (postData : PostData) : M Ledger unit :=
  let pid := toString (id postData) in
  if (0 <? length (media postData))%nat then
    forM_ (media postData) (fun mediaPath =>
      sendFile pid mediaPath (text postData) (pinned postData) ;;; ret tt)
  else
    match text postData with
    | Some txt =>
        if truthy_text (text postData) then
          sendMessage pid txt (pinned postData) ;;; ret tt
        else ret tt
    | None => ret tt
    end.

Definition syncPost (postData : PostData) : M Ledger unit :=
  let pid := toString (id postData) in
  emit (ESyncPost postData) ;;;
  sendPost postData ;;;
  modify (set_mem (fun s => {[pid]} ∪ s)) ;;;
  saveProcessedPosts ;;;
  deletePostAndMedia postData.

(** [postData && !postData.deleted && !this.processedPosts.has(id)] *)
Definition unprocessed (processedPosts : Ledger) (postData : PostData) : bool :=
  negb (truthy_flag (deleted postData))
  && negb (bool_decide (toString (id postData) ∈ processedPosts)).

(** the body of the [for] loop of [syncExistingPosts] *)
Definition syncIfNew (postData : PostData) : M Ledger unit :=
  processedPosts <- gets mem ;;
  if unprocessed processedPosts postData then syncPost postData
  else ret tt.

Definition syncExistingPosts : M Ledger unit :=
  files <- readdir ;;
  let postFiles := List.filter is_post_file files in
  postsToSync <- loadAndSortPosts postFiles ;;
  forM_ postsToSync syncIfNew.

(** the body of the [for] loop of the watch callback *)
Definition watchPost (postData : PostData) : M Ledger unit :=
  logNewPost postData ;;;
  syncPost postData.

(** one firing of the [setInterval] callback of [startWatching], run to
    its end *)
Definition watchCycle : M Ledger unit :=
  try_catch
    (isTelegramSyncing <- isTelegramSyncInProgress ;;
     if isTelegramSyncing then ret tt
     else
       files <- readdir ;;
       let postFiles := List.filter is_post_file files in
       newPosts <- loadAndSortPosts postFiles ;;
       processedPosts <- gets mem ;;
       let unprocessedPosts := List.filter (unprocessed processedPosts) newPosts in
       forM_ unprocessedPosts watchPost)
    (emit EClearInterval ;;;
     saveProcessedPosts ;;;
     exit 1).

(** The callback in three parts, as in [BaleSync]: the list of
    [watchScan] is [unprocessedPosts], computed once, before the loop; every
    turn of the loop ends in the wait of one second. *)
Definition watchScan : M Ledger (list PostData) :=
  isTelegramSyncing <- isTelegramSyncInProgress ;;
  if isTelegramSyncing then ret []
  else
    files <- readdir ;;
    let postFiles := List.filter is_post_file files in
    newPosts <- loadAndSortPosts postFiles ;;
    processedPosts <- gets mem ;;
    ret (List.filter (unprocessed processedPosts) newPosts).

Definition watchVisit (postData : PostData) : M Ledger bool :=
  watchPost postData ;;;
  ret true.

Definition watchRescue : M Ledger unit :=
  emit EClearInterval ;;;
  saveProcessedPosts ;;;
  exit 1.

(** [start()] up to the call of [startWatching], inside the [try]/[catch]
    of the main script, which answers a rejected [start()] with
    [process.exit(1)].  The bounded wait for the producer only polls the
    status file and is left out. *)
Definition start : M Ledger unit :=
  try_catch (loadProcessedPosts ;;; syncExistingPosts) (exit 1).

End EitaaSync.

(** ** The source feed: the fields of [Api.Message] the ingester reads *)
Module Api.

(** [message.replyTo] *)
Inductive ReplyTo :=
| MessageReplyHeader (replyToMsgId replyToTopId : option Z)
| OtherReplyTo.

Inductive DocumentAttribute :=
| DocumentAttributeFilename (fileName : string)
| DocumentAttributeVideo
| DocumentAttributeAudio (voice : bool)
| DocumentAttributeAnimated
| DocumentAttributeSticker
| DocumentAttributeOther.

Record Document := mkDocument {
  doc_id : Z;
  attributes : list DocumentAttribute
}.

(** [message.media]; a photo that is absent or a [PhotoEmpty] is [None],
    and so is a document that is not an [Api.Document] *)
Inductive MessageMedia :=
| MessageMediaPhoto (photo : option Z)
| MessageMediaDocument (document : option Document)
| MessageMediaWebPage (photo : option Z)
| MessageMediaOther.

Record Message := mkMessage {
  id : Z;
  date : Z;
  editDate : option Z;
  text : string;
  groupedId : option Z;
  replyTo : option ReplyTo;
  media : option MessageMedia
}.

#[global] Instance ReplyTo_eq_dec : EqDecision ReplyTo.
Proof. solve_decision. Defined.
#[global] Instance DocumentAttribute_eq_dec : EqDecision DocumentAttribute.
Proof. solve_decision. Defined.
#[global] Instance Document_eq_dec : EqDecision Document.
Proof. solve_decision. Defined.
#[global] Instance MessageMedia_eq_dec : EqDecision MessageMedia.
Proof. solve_decision. Defined.
#[global] Instance Message_eq_dec : EqDecision Message.
Proof. solve_decision. Defined.

End Api.

(** ** [class TelegramChannelSync]

    File names are relative to [storagePath].  A media download and a file
    write succeed; the modification time of a media file, which only
    decides whether its bytes are fetched again, is not kept. *)
Module TelegramChannelSync.

Definition getDocumentFilename (document : Api.Document) : string :=
  match List.find (fun a => match a with
                            | Api.DocumentAttributeFilename _ => true
                            | _ => false
                            end) (Api.attributes document) with
  | Some (Api.DocumentAttributeFilename fileName) => fileName
  | _ =>
      let generated a :=
        match a with
        | Api.DocumentAttributeVideo =>
            Some ("video_" +:+ pretty (Api.doc_id document) +:+ ".mp4")
        | Api.DocumentAttributeAudio voice =>
            Some (if voice
                  then "voice_" +:+ pretty (Api.doc_id document) +:+ ".ogg"
                  else "audio_" +:+ pretty (Api.doc_id document) +:+ ".mp3")
        | Api.DocumentAttributeAnimated =>
            Some ("animation_" +:+ pretty (Api.doc_id document) +:+ ".mp4")
        | Api.DocumentAttributeSticker =>
            Some ("sticker_" +:+ pretty (Api.doc_id document) +:+ ".webp")
        | _ => None
        end in
      match omap generated (Api.attributes document) with
      | name :: _ => name
      | [] => "document_" +:+ pretty (Api.doc_id document) +:+ ".bin"
      end
  end.

(** [path.join(this.storagePath, 'media', message.id.toString())] *)
Definition mediaDir (messageId : Z) : string :=
  "media/" +:+ pretty messageId.

(** the name of the file [downloadMedia] stores the media in, if any *)
Definition media_file_name (m : Api.MessageMedia) : option string :=
  match m with
  | Api.MessageMediaPhoto (Some photo) =>
      Some ("photo_" +:+ pretty photo +:+ ".jpg")
  | Api.MessageMediaDocument (Some document) =>
      Some (getDocumentFilename document)
  | Api.MessageMediaWebPage (Some photo) =>
      Some ("webpage_photo_" +:+ pretty photo +:+ ".jpg")
  | _ => None
  end.

Definition add_media_file (filePath : string) (d : FS) : FS :=
  if existsb (String.eqb filePath) (media_files d) then d
  else set_media_files (media_files d ++ [filePath]) d.

Definition downloadMedia (message : Api.Message) (d : FS) : list string * FS :=
  match Api.media message with
  | Some m =>
      match media_file_name m with
      | Some name =>
          let filePath := mediaDir (Api.id message) +:+ "/" +:+ name in
          ([filePath], add_media_file filePath d)
      | None => ([], d)
      end
  | None => ([], d)
  end.

Definition savePostData (data : PostData) (d : FS) : FS :=
  set_entries (write_entry (post_file (id data)) (Json data) (entries d)) d.

Definition getExistingPostData (postId : PostId) (d : FS) : option PostData :=
  match lookup_entry (post_file postId) (entries d) with
  | Some (Json p) => Some p
  | _ => None
  end.

(** the reply fields that [processMessage], [processMediaGroup] and
    [syncLatestPosts] copy from [message.replyTo] *)
Definition reply_msg (message : Api.Message) : option Z :=
  match Api.replyTo message with
  | Some (Api.MessageReplyHeader replyToMsgId _) => replyToMsgId
  | _ => None
  end.

Definition reply_top (message : Api.Message) : option Z :=
  match Api.replyTo message with
  | Some (Api.MessageReplyHeader _ replyToTopId) =>
      if truthy_num replyToTopId then replyToTopId else None
  | _ => None
  end.

Definition processMessage (message : Api.Message) (d : FS) : FS :=
  let '(mediaFiles, d1) :=
    match Api.media message with
    | Some _ => downloadMedia message d
    | None => ([], d)
    end in
  savePostData
    (mkPostData (NumId (Api.id message)) (Some (Api.date message))
       (Api.editDate message) (Some (Api.text message)) mediaFiles None
       (reply_msg message) (reply_top message) None None None)
    d1.

(** [group_${mainMessage.groupedId}] *)
Definition group_id (groupedId : option Z) : PostId :=
  StrId ("group_" +:+ match groupedId with
                      | Some g => pretty g
                      | None => "undefined"
                      end).

Definition download_all (messages : list Api.Message) (d : FS)
  : list string * FS :=
  fold_left (fun '(files, d0) message =>
               match Api.media message with
               | Some _ =>
                   let '(mediaFiles, d1) := downloadMedia message d0 in
                   (files ++ mediaFiles, d1)
               | None => (files, d0)
               end)
            messages ([], d).

Definition processMediaGroup (messages : list Api.Message) (d : FS) : FS :=
  let sorted := sort_by Api.id messages in
  match sorted with
  | [] => d
  | mainMessage :: _ =>
      let '(mediaFiles, d1) := download_all sorted d in
      savePostData
        (mkPostData (group_id (Api.groupedId mainMessage))
           (Some (Api.date mainMessage)) (Api.editDate mainMessage)
           (Some (Api.text mainMessage)) mediaFiles
           (Some (List.map Api.id sorted))
           (reply_msg mainMessage) (reply_top mainMessage) None None None)
        d1
  end.

(** [fs.rm(mediaDir, { recursive: true, force: true })] *)
Definition rm_dir (dirPath : string) (d : FS) : FS :=
  set_media_files
    (List.filter (fun f => negb (String.prefix (dirPath +:+ "/") f))
       (media_files d)) d.

Definition mark_deleted (p : PostData) : PostData :=
  mkPostData (id p) (date p) (editDate p) (text p) (media p)
    (childMessages p) (replyToMsgId p) (replyToTopId p) (Some true)
    (pinned p) (pinnedDate p).

Definition handleDeletedMessage (messageId : Z) (d : FS) : FS :=
  let d1 :=
    match getExistingPostData (NumId messageId) d with
    | Some existingPost => savePostData (mark_deleted existingPost) d
    | None => d
    end in
  rm_dir (mediaDir messageId) d1.

Definition mark_pinned (now : Z) (p : PostData) : PostData :=
  mkPostData (id p) (date p) (editDate p) (text p) (media p)
    (childMessages p) (replyToMsgId p) (replyToTopId p) (deleted p)
    (Some true) (Some now).

(** [now] is [Math.floor(Date.now() / 1000)]; [fetched] is what
    [client.getMessages(peer, { ids: [messageId] })] returns first *)
Definition handlePinnedMessageById (messageId : Z) (peerIsChannel : bool)
  (now : Z) (fetched : option Api.Message) (d : FS) : FS :=
  if negb peerIsChannel then d
  else
    match getExistingPostData (NumId messageId) d with
    | Some existingPost => savePostData (mark_pinned now existingPost) d
    | None =>
        match fetched with
        | Some message =>
            let d1 := processMessage message d in
            match getExistingPostData (NumId messageId) d1 with
            | Some postData => savePostData (mark_pinned now postData) d1
            | None => d1
            end
        | None => d
        end
    end.

Definition hasPostChanged (existing current : PostData) : bool :=
  negb (bool_decide (editDate existing = editDate current)).

Record Counters := mkCounters {
  newPosts : Z;
  updatedPosts : Z;
  skippedPosts : Z
}.

(** [m.groupedId?.toString() === message.groupedId?.toString()] *)
Definition same_group (message m : Api.Message) : bool :=
  bool_decide (Api.groupedId m = Api.groupedId message).

(** the body of the [for] loop of [syncLatestPosts] *)
Definition syncMessage (messages : list Api.Message) (message : Api.Message)
  (acc : FS * Counters) : FS * Counters :=
  let '(d, c) := acc in
  match Api.groupedId message with
  | Some _ =>
      let groupId := group_id (Api.groupedId message) in
      match getExistingPostData groupId d with
      | None =>
          let groupMessages := List.filter (same_group message) messages in
          if (0 <? length groupMessages)%nat then
            (processMediaGroup groupMessages d,
             mkCounters (newPosts c + 1) (updatedPosts c) (skippedPosts c))
          else (d, c)
      | Some existingGroup =>
          let currentGroupData :=
            mkPostData groupId (Some (Api.date message))
              (Api.editDate message) (Some (Api.text message)) []
              (Some [Api.id message]) (reply_msg message)
              (reply_top message) None None None in
          if hasPostChanged existingGroup currentGroupData then
            let groupMessages := List.filter (same_group message) messages in
            (processMediaGroup groupMessages d,
             mkCounters (newPosts c) (updatedPosts c + 1) (skippedPosts c))
          else
            (d, mkCounters (newPosts c) (updatedPosts c) (skippedPosts c + 1))
      end
  | None =>
      match getExistingPostData (NumId (Api.id message)) d with
      | None =>
          (processMessage message d,
           mkCounters (newPosts c + 1) (updatedPosts c) (skippedPosts c))
      | Some existingPost =>
          let currentPostData :=
            mkPostData (NumId (Api.id message)) (Some (Api.date message))
              (Api.editDate message) (Some (Api.text message)) [] None
              (reply_msg message) (reply_top message) None None None in
          if hasPostChanged existingPost currentPostData then
            (processMessage message d,
             mkCounters (newPosts c) (updatedPosts c + 1) (skippedPosts c))
          else
            (d, mkCounters (newPosts c) (updatedPosts c) (skippedPosts c + 1))
      end
  end.

(** [messages] is what [client.getMessages(channel, { limit })] returns *)
Definition syncLatestPosts (messages : list Api.Message) (d : FS)
  : FS * Counters :=
  let d0 := set_status (StatusJson "in_progress" None) d in
  let '(d1, c) :=
    fold_left (fun acc message => syncMessage messages message acc)
      messages (d0, mkCounters 0 0 0) in
  (set_status
     (StatusJson "completed"
        (Some (newPosts c, updatedPosts c, skippedPosts c))) d1,
   c).

(** *** Media groups

    [handleMediaGroup] suspends once, at its 500 ms wait.  What it does
    before the wait is [arrive], what it does after is [wake]. *)
Record State := mkState {
  store : FS;
  mediaGroups : gmap string (list Api.Message)
}.

Definition group_key (message : Api.Message) : string :=
  match Api.groupedId message with
  | Some g => pretty g
  | None => "undefined"
  end.

Definition arrive (message : Api.Message) (st : State) : State :=
  let groupId := group_key message in
  let group := default [] (mediaGroups st !! groupId) in
  mkState (store st) (<[groupId := group ++ [message]]> (mediaGroups st)).

Definition wake (message : Api.Message) (st : State) : State :=
  let groupId := group_key message in
  let currentGroup := default [] (mediaGroups st !! groupId) in
  if (1 <? length currentGroup)%nat
     && bool_decide (List.last (List.map Some currentGroup) None = Some message)
  then mkState (processMediaGroup currentGroup (store st))
         (delete groupId (mediaGroups st))
  else st.

(** the wait of [handleMediaGroup], in milliseconds *)
Definition quiescence : Z := 500.

Inductive Task :=
| Arrive (message : Api.Message)
| Wake (message : Api.Message).

Definition exec_task (task : Task) (st : State) : State :=
  match task with
  | Arrive m => arrive m st
  | Wake m => wake m st
  end.

(** The event loop runs the two halves of every handler in the order of
    their times: a message that arrives at [t] runs [arrive] at [t] and
    [wake] at [t + quiescence]. *)
Definition timeline (arrivals : list (Z * Api.Message)) : list (Z * Task) :=
  sort_by fst
    (List.map (fun a => (fst a, Arrive (snd a))) arrivals
     ++ List.map (fun a => (fst a + quiescence, Wake (snd a))) arrivals).

Definition run_timeline (arrivals : list (Z * Api.Message)) (st : State)
  : State :=
  fold_left (fun s task => exec_task (snd task) s) (timeline arrivals) st.

(** *** The handler of delete events registered by [monitorChannel]

    [deletedIds] is [event.deletedIds]; [None] and [[]] return at once *)
Definition deleteHandler (deletedIds : option (list Z)) (d : FS) : FS :=
  match deletedIds with
  | Some ids =>
      fold_left (fun d0 deletedId => handleDeletedMessage deletedId d0) ids d
  | None => d
  end.

End TelegramChannelSync.

(** ** The life of a syncer process

    [setInterval] does not wait for the callback it starts: the callback is
    an [async] function, and the timer fires again every five seconds
    whether the run before has reached its end or not.  A run of the
    callback gives way at its [await]s.  The model lets it give way at the
    waits it asks for itself, the second of rate limiting that follows
    every delivery of the watch loop: a run that delivers five records or
    more is still in its loop when the timer fires next.  What a run does
    between two such waits is taken as one piece (its file operations and
    its HTTP calls end before another run goes on).

    [Start]: the process is launched, with a new and empty
    [processedPosts] and no run of the callback.  [Tick]: the timer fires
    and the run it starts reaches its end before any other run goes on.
    [Fire]: the timer fires; the run it starts goes to its first wait and
    is suspended there.  [Resume n]: the [n]-th suspended run goes on, to
    its next wait or to its end.  [Env d rs]: the ingester and the other
    users of the directory have brought it to [d], and the platform will
    answer the next calls with [rs]; the ledger file belongs to the syncer
    and is not touched. *)
Inductive Step :=
| Start
| Tick
| Env (d : FS) (rs : list Reply)
| Fire
| Resume (n : nat).

(** [suspended]: for every run of the callback that is at a wait of its
    loop, the records the loop has still to visit *)
Record Process (L : Type) := Process_of {
  proc : Proc L;
  watching : bool;
  suspended : list (list PostData)
}.
Arguments Process_of {L} _ _ _.
Arguments proc {L} _.
Arguments watching {L} _.
Arguments suspended {L} _.

(** a process none of whose runs is suspended *)
Definition mkProcess {L} (w : Proc L) (alive : bool) : Process L :=
  Process_of w alive [].

(** the three parts of a watch callback *)
Record Callback (L : Type) := mkCallback {
  scanned : M L (list PostData);
  visit : PostData -> M L bool;
  rescue : M L unit
}.
Arguments mkCallback {L} _ _ _.
Arguments scanned {L} _.
Arguments visit {L} _.
Arguments rescue {L} _.

Section Lifecycle.
Context {L : Type} (fresh : L) (start cycle : M L unit) (cb : Callback L).

(** the loop from the records [l] to its next wait; the value is the list
    of the records left to visit *)
Fixpoint segment (l : list PostData) : M L (list PostData) :=
  match l with
  | [] => ret []
  | postData :: rest =>
      waits <- visit cb postData ;;
      if waits then ret rest else segment rest
  end.

(** a piece of a run inside the [try] of the callback *)
Definition guarded (m : M L (list PostData)) : M L (list PostData) :=
  try_catch m (rescue cb ;;; ret []).

(** the callback run to its end *)
Definition whole : M L unit :=
  try_catch
    (l <- scanned cb ;; forM_ l (fun postData => visit cb postData ;;; ret tt))
    (rescue cb).

Definition step (s : Step) (p : Process L) : Process L * list Event :=
  match s with
  | Start =>
      match start (set_mem (fun _ => fresh) (proc p)) with
      | (r, w, t) =>
          (mkProcess w match r with Ret _ => true | _ => false end, t)
      end
  | Tick =>
      if watching p then
        match cycle (proc p) with
        | (Halt _, w, t) => (mkProcess w false, t)
        | (_, w, t) => (Process_of w true (suspended p), t)
        end
      else (p, [])
  | Env d rs =>
      (Process_of (mkProc d (disk (proc p)) (mem (proc p)) rs) (watching p)
         (suspended p), [])
  | Fire =>
      if watching p then
        match guarded (l <- scanned cb ;; segment l) (proc p) with
        | (Ret rest, w, t) => (Process_of w true (suspended p ++ [rest]), t)
        | (Throw, w, t) => (Process_of w true (suspended p), t)
        | (Halt _, w, t) => (mkProcess w false, t)
        end
      else (p, [])
  | Resume n =>
      if watching p then
        match suspended p !! n with
        | Some l =>
            match guarded (segment l) (proc p) with
            | (Ret rest, w, t) =>
                (Process_of w true (<[n := rest]> (suspended p)), t)
            | (Throw, w, t) => (Process_of w true (suspended p), t)
            | (Halt _, w, t) => (mkProcess w false, t)
            end
        | None => (p, [])
        end
      else (p, [])
  end.

Fixpoint run (steps : list Step) (p : Process L) : Process L * list Event :=
  match steps with
  | [] => (p, [])
  | s :: rest =>
      match step s p with
      | (p1, t1) =>
          match run rest p1 with
          | (p2, t2) => (p2, t1 ++ t2)
          end
      end
  end.
End Lifecycle.

Definition bale_callback : Callback BaleSync.Ledger :=
  mkCallback BaleSync.watchScan BaleSync.watchVisit BaleSync.watchRescue.
Definition eitaa_callback : Callback EitaaSync.Ledger :=
  mkCallback EitaaSync.watchScan EitaaSync.watchVisit EitaaSync.watchRescue.

Definition bale_run :=
  run (∅ : BaleSync.Ledger) BaleSync.start BaleSync.watchCycle bale_callback.
Definition eitaa_run :=
  run (∅ : EitaaSync.Ledger) EitaaSync.start EitaaSync.watchCycle eitaa_callback.

(** ** The main scripts of the two bridges

    [bale-main.ts] and [main.ts]: the environment is validated, the
    connection is tested, the service is started.  [API_ID] is
    [parseInt(process.env.API_ID || '0')], with [None] for [NaN]; the other
    fields are [process.env.X || '']. *)
Record Config := mkConfig {
  API_ID : option Z;
  API_HASH : string;
  PHONE : string;
  CHANNEL : string;
  TOKEN : string;
  CHAT_ID : string
}.

(** the operands of the two [if (!... || !...)] of the scripts *)
Definition telegram_configured (c : Config) : bool :=
  truthy_num (API_ID c) && truthy_text (Some (API_HASH c))
  && truthy_text (Some (PHONE c)) && truthy_text (Some (CHANNEL c)).

Definition platform_configured (c : Config) : bool :=
  truthy_text (Some (TOKEN c)) && truthy_text (Some (CHAT_ID c)).

Section Main.
Context {L : Type} (start : M L unit).

Definition main (c : Config) : M L unit :=
  if negb (telegram_configured c) then exit 1
  else if negb (platform_configured c) then exit 1
  else
    connectionTest <- testConnection ;;
    if negb connectionTest then exit 1
    else start.
End Main.

Definition bale_main := main BaleSync.start.
Definition eitaa_main := main EitaaSync.start.

Import TelegramChannelSync.

(** ** Vocabulary of the statements *)

(** the status file reads [in_progress] *)
Definition in_progress (d : FS) : bool :=
  match status_file d with
  | StatusJson st _ => String.eqb st "in_progress"
  | _ => false
  end.

Definition post_files (d : FS) : list string :=
  List.filter is_post_file (List.map fst (entries d)).

Definition parsed (d : FS) (file : string) : option PostData :=
  match lookup_entry file (entries d) with
  | Some (Json p) => Some p
  | _ => None
  end.

(** The records a syncer loads from the directory: the files named
    [post_*.json] that parse, in [readdir] order *)
Definition loaded (d : FS) : list PostData :=
  omap (parsed d) (post_files d).

(** the reads that open a watch cycle *)
Definition scan (d : FS) : list Event :=
  EReadStatus :: EReadDir :: List.map EReadPost (post_files d).

(** the state after [saveProcessedPosts] *)
Definition saved {L} (w : Proc L) : Proc L :=
  mkProc (dir w) (Some (mem w)) (mem w) (replies w).

(** The posts [syncPost] was called with, in call order *)
Definition delivered (t : list Event) : list PostData :=
  omap (fun e => match e with ESyncPost p => Some p | _ => None end) t.

(** the effects of [syncPost(p)] after its first line *)
Definition sync_effect (p : PostData) (e : Event) : Prop :=
  match e with
  | ESendFile pid _ _ _ _ | ESendMessage pid _ _ _ => pid = toString (id p)
  | ESaveLedger | EUnlinkMedia _ | EUnlinkPost _ => True
  | _ => False
  end.

(** a send made for [p] *)
Definition send_effect (p : PostData) (e : Event) : Prop :=
  is_send e = true /\ call_of e = Some (toString (id p)).

(** the directory and the ledger are as they were *)
Definition same_ledger {L} (w w' : Proc L) : Prop :=
  dir w' = dir w /\ disk w' = disk w /\ mem w' = mem w.

(** the directory after the [unlink] of the media files [paths], and after
    the [unlink] of the record file of [p] *)
Definition drop_files (paths : list string) (d : FS) : FS :=
  fold_left (fun d0 path =>
    set_media_files
      (List.filter (fun f => negb (String.eqb f path)) (media_files d0)) d0)
    paths d.

Definition drop_post (p : PostData) (d : FS) : FS :=
  set_entries (unlink_entry (post_file (id p)) (entries d)) d.

(** the Bale process after [processedPosts.set] and [saveProcessedPosts] *)
Definition bale_record (p : PostData) (mid : option Z)
  (w : Proc BaleSync.Ledger) : Proc BaleSync.Ledger :=
  saved (set_mem (fun m => <[toString (id p) :=
     BaleSync.mkMeta (date p) (editDate p) (deleted p) mid]> m) w).

(** the Eitaa process after [processedPosts.add] and [saveProcessedPosts] *)
Definition eitaa_record (p : PostData) (w : Proc EitaaSync.Ledger)
  : Proc EitaaSync.Ledger :=
  saved (set_mem (fun s => {[toString (id p)]} ∪ s) w).

(** the process after one HTTP round trip, and the reply it got *)
Definition popped {L} (w : Proc L) : Proc L :=
  mkProc (dir w) (disk w) (mem w) (List.tl (replies w)).

Definition next_reply {L} (w : Proc L) : Reply :=
  List.hd NetFail (replies w).

(** [tidy x]: no call raised when the computation returns; when it throws,
    either the call that raised is its last effect and the only one that
    raised, or no call raised (a log line threw); the computation does not
    leave the process. *)
Definition tidy {L A} (x : Res A * Proc L * list Event) : Prop :=
  match run_of x with
  | Ret _ => Forall (fun e => raised e = false) (trace_of x)
  | Throw =>
      (exists pre e, trace_of x = pre ++ [e] /\ raised e = true
                     /\ Forall (fun e => raised e = false) pre)
      \/ Forall (fun e => raised e = false) (trace_of x)
  | Halt _ => False
  end.

(** What the handling of one record [p] may change: the ledger is left
    alone, or gets an entry for [p] and is saved; the directory is left
    alone or loses the record file of [p]. *)
Definition bale_advance (p : PostData) (w w' : Proc BaleSync.Ledger) : Prop :=
  ((mem w' = mem w /\ disk w' = disk w)
   \/ (exists meta, mem w' = <[toString (id p) := meta]> (mem w))
      /\ disk w' = Some (mem w'))
  /\ (entries (dir w') = entries (dir w)
      \/ entries (dir w') = unlink_entry (post_file (id p)) (entries (dir w))).

Definition watch_effect (p : PostData) (e : Event) : Prop :=
  match e with
  | ESyncPost q => q = p
  | EDeleteMessage pid _ _ => pid = toString (id p)
  | _ => sync_effect p e
  end.

Definition bale_footprint (p : PostData) (w : Proc BaleSync.Ledger)
  (x : Res unit * Proc BaleSync.Ledger * list Event) : Prop :=
  tidy x /\ Forall (watch_effect p) (trace_of x)
  /\ (delivered (trace_of x) = [] \/ delivered (trace_of x) = [p])
  /\ bale_advance p w (proc_of x)
  /\ (run_of x = Throw -> same_ledger w (proc_of x)).

Definition eitaa_advance (p : PostData) (w w' : Proc EitaaSync.Ledger) : Prop :=
  ((mem w' = mem w /\ disk w' = disk w)
   \/ (mem w' = {[toString (id p)]} ∪ mem w /\ disk w' = Some (mem w')))
  /\ (entries (dir w') = entries (dir w)
      \/ entries (dir w') = unlink_entry (post_file (id p)) (entries (dir w))).

Definition eitaa_footprint (p : PostData) (w : Proc EitaaSync.Ledger)
  (x : Res unit * Proc EitaaSync.Ledger * list Event) : Prop :=
  tidy x /\ Forall (watch_effect p) (trace_of x)
  /\ (delivered (trace_of x) = [] \/ delivered (trace_of x) = [p])
  /\ eitaa_advance p w (proc_of x)
  /\ (run_of x = Throw -> same_ledger w (proc_of x)).

Arguments BaleSync.syncPost : simpl never.
Arguments BaleSync.sendPost : simpl never.
Arguments BaleSync.deleteMessage : simpl never.
Arguments EitaaSync.syncPost : simpl never.
Arguments EitaaSync.watchPost : simpl never.
Arguments EitaaSync.sendPost : simpl never.
Arguments post_file : simpl never.
Arguments toString : simpl never.


(** a call that sent the text of post [pid], and a call that sent the file
    [path], and was accepted *)
Definition sent_text (pid : string) (e : Event) : bool :=
  match e with
  | ESendMessage p _ _ o => String.eqb p pid && negb (raises o)
  | _ => false
  end.

Definition sent_file (path : string) (e : Event) : bool :=
  match e with
  | ESendFile _ f _ _ o => String.eqb f path && negb (raises o)
  | _ => false
  end.

(** an adapter call or the start of a delivery *)
Definition is_outbound (e : Event) : bool :=
  match e with
  | ESyncPost _ => true
  | _ => is_send e || is_edit e || is_delete e
  end.

(** An id is recorded in a ledger: the ledger file holds it, and so does
    the in-memory ledger of a process that is watching. *)
Definition durable {L} (has : L -> Prop) (w : Proc L) : Prop :=
  exists l, disk w = Some l /\ has l.

Definition recorded {L} (has : L -> Prop) (p : Process L) : Prop :=
  durable has (proc p) /\ (watching p = true -> has (mem (proc p))).

(** a step of a process whose runs of the callback do not overlap: the
    timer does not fire while a run is at a wait; a step that changes the
    directory brings it to one that satisfies [env_ok] *)
Definition step_ok (env_ok : FS -> Prop) (s : Step) : Prop :=
  match s with
  | Env d _ => env_ok d
  | Fire | Resume _ => False
  | _ => True
  end.

Definition sequential (s : Step) : Prop := step_ok (fun _ => True) s.

Definition bale_has (pid : string) (l : BaleSync.Ledger) : Prop :=
  is_Some (l !! pid).

Definition eitaa_has (pid : string) (l : EitaaSync.Ledger) : Prop :=
  pid ∈ l.

Definition bale_I (pid : string) (w : Proc BaleSync.Ledger) : Prop :=
  durable (bale_has pid) w /\ bale_has pid (mem w).

Definition eitaa_I (pid : string) (w : Proc EitaaSync.Ledger) : Prop :=
  durable (eitaa_has pid) w /\ eitaa_has pid (mem w).

Arguments BaleSync.syncExistingPosts : simpl never.
Arguments EitaaSync.syncExistingPosts : simpl never.



(** A watch cycle in which an adapter call raised: the call is the last
    effect of the loop, the handler saves the ledger and leaves the process
    with exit code 1, and the process does nothing more until it is
    started again. *)
Definition fatal_stop {L} (fresh : L) (start cycle : M L unit)
  (cb : Callback L) (w : Proc L) : Prop :=
  forall e, In e (trace_of (cycle w)) -> raised e = true ->
    run_of (cycle w) = Halt 1
    /\ (exists pre,
          trace_of (cycle w)
          = scan (dir w) ++ pre ++ [e; EClearInterval; ESaveLedger; EExit 1]
          /\ Forall (fun e' => raised e' = false) pre)
    /\ disk (proc_of (cycle w)) = Some (mem (proc_of (cycle w)))
    /\ (forall later, Forall (fun s => s <> Start) later ->
          snd (run fresh start cycle cb (Tick :: later) (mkProcess w true))
          = trace_of (cycle w)).

Definition post_key (p : PostData) : string := toString (id p).


(** the records a pass of the Bale syncer is to deliver when its ledger is
    [m]: [!postData.deleted && !this.processedPosts.has(id)] *)
Definition bale_due (m : BaleSync.Ledger) (p : PostData) : bool :=
  negb (truthy_flag (deleted p)) && bool_decide (m !! post_key p = None).

(** the ids of the posts the send calls of a trace were made for, in call
    order *)
Definition send_ids (t : list Event) : list string :=
  omap (fun e => if is_send e then call_of e else None) t.

(** the send calls are made post by post, for the posts [sent] in their
    order: [counts] gives the number of calls made for each *)
Definition sent_post_by_post (sent : list PostData) (t : list Event) : Prop :=
  exists counts : list nat,
    length counts = length sent
    /\ send_ids t
       = concat (zip_with (fun p n => replicate n (post_key p)) sent counts).

(** The pass delivers the records that are due when it starts in the order
    of [date || 0]: what it hands to [syncPost] is, in call order, an
    initial segment of the due records sorted by that key, and all of them
    when the pass returns; the order is strict when the dates are pairwise
    distinct; and the send calls of the pass are made for these records,
    record by record in that order. *)
Definition delivers_due {L} (due : L -> PostData -> bool) (pass : M L unit)
  (w : Proc L) : Prop :=
  let sent := delivered (trace_of (pass w)) in
  let todo := List.filter (due (mem w)) (sort_by dateKey (loaded (dir w))) in
  sent `prefix_of` todo
  /\ (run_of (pass w) = Ret tt -> sent = todo)
  /\ StronglySorted (key_le dateKey) sent
  /\ (NoDup (List.map dateKey (loaded (dir w))) ->
      StronglySorted (key_lt dateKey) sent)
  /\ sent_post_by_post sent (trace_of (pass w)).

(** a character that is neither [/] nor [.] *)
Definition plain (c : ascii) : Prop := c <> "/"%char /\ c <> "."%char.

(** the kind of the first attribute of [document] that names a kind *)
Definition generated_kind (document : Api.Document) : BaleSync.FileType :=
  match omap (fun a => match a with
                       | Api.DocumentAttributeVideo => Some BaleSync.video
                       | Api.DocumentAttributeAudio _ => Some BaleSync.audio
                       | Api.DocumentAttributeAnimated => Some BaleSync.video
                       | Api.DocumentAttributeSticker => Some BaleSync.photo
                       | _ => None
                       end) (Api.attributes document) with
  | kind :: _ => kind
  | [] => BaleSync.document
  end.

(** every numbered record is stored in the file of its id *)
Definition filed (d : FS) : Prop :=
  forall n p, getExistingPostData (NumId n) d = Some p ->
    post_file (id p) = post_file (NumId n).

(** the file of the record with key [pid] *)
Definition record_file (pid : string) : string := "post_" +:+ pid +:+ ".json".

(** every record of the directory that carries the id [pid] is marked
    deleted *)
Definition stays_deleted (pid : string) (d : FS) : Prop :=
  forall q, In q (loaded d) -> post_key q = pid ->
    truthy_flag (deleted q) = true.

(** the Bale ledger entry of [pid] says deleted *)
Definition marked_deleted (pid : string) (l : BaleSync.Ledger) : Prop :=
  exists c, l !! pid = Some c /\ truthy_flag (BaleSync.meta_deleted c) = true.

(** what the records other than the one to delete, and the records that
    are already marked deleted in the ledger, leave as it was *)
Definition bale_kept (pid : string) (c : BaleSync.ProcessedPostMetadata)
  (w0 w : Proc BaleSync.Ledger) : Prop :=
  mem w !! pid = Some c
  /\ (forall q, In q (loaded (dir w)) -> In q (loaded (dir w0)))
  /\ (disk w0 = Some (mem w0) -> disk w = Some (mem w))
  /\ (forall name, lookup_entry name (entries (dir w0)) = None ->
                   lookup_entry name (entries (dir w)) = None)
  /\ (truthy_flag (BaleSync.meta_deleted c) = true ->
      durable (marked_deleted pid) w0 -> durable (marked_deleted pid) w).


(** How a computation [x] that should delete the Bale message [mid] of
    the post [pid], whose ledger entry is [c], can end.  [delete_pending]:
    [x] stopped with the result [failed] before the delete call, or on the
    delete call, made with [mid], which raised; the entry is as it was.
    [delete_done]: the call was made once, with [mid], and accepted; the
    entry is marked deleted, the ledger is saved and the record file is
    gone. *)
Definition delete_pending (pid : string) (c : BaleSync.ProcessedPostMetadata)
  (mid : Z) (failed : Res unit)
  (x : Res unit * Proc BaleSync.Ledger * list Event) : Prop :=
  run_of x = failed
  /\ mem (proc_of x) !! pid = Some c
  /\ (List.filter (delete_of pid) (trace_of x) = []
      \/ exists o, raises o = true
                   /\ List.filter (delete_of pid) (trace_of x)
                      = [EDeleteMessage pid mid o]).

Definition delete_done (pid : string) (mid : Z)
  (x : Res unit * Proc BaleSync.Ledger * list Event) : Prop :=
  (exists b, ok b = true
             /\ List.filter (delete_of pid) (trace_of x)
                = [EDeleteMessage pid mid (Got (Body b))])
  /\ (exists c', mem (proc_of x) !! pid = Some c'
                 /\ truthy_flag (BaleSync.meta_deleted c') = true
                 /\ BaleSync.baleMessageId c' = Some mid)
  /\ disk (proc_of x) = Some (mem (proc_of x))
  /\ lookup_entry (record_file pid) (entries (dir (proc_of x))) = None.

(** the process after [n] HTTP round trips *)
Definition answered (rest : list Reply) (w : Proc BaleSync.Ledger)
  : Proc BaleSync.Ledger :=
  mkProc (dir w) (disk w) (mem w) rest.

Definition present (d : FS) (path : string) : Prop :=
  existsb (String.eqb path) (media_files d) = true.

(** every message of the feed has a stored record with its [editDate] *)
Definition settled (messages : list Api.Message) (d : FS) : Prop :=
  Forall (fun m => exists record,
            getExistingPostData (NumId (Api.id m)) d = Some record
            /\ editDate record = Api.editDate m) messages.

(** the tasks of the arrivals and of the wake-ups of a burst *)
Definition arrive_tasks (arrivals : list (Z * Api.Message)) : list (Z * Task) :=
  List.map (fun a => (fst a, Arrive (snd a))) arrivals.

Definition wake_tasks (arrivals : list (Z * Api.Message)) : list (Z * Task) :=
  List.map (fun a => (fst a + quiescence, Wake (snd a))) arrivals.

Definition run_tasks (tasks : list (Z * Task)) (st : State) : State :=
  fold_left (fun s task => exec_task (snd task) s) tasks st.

(** ** Scenarios *)

Definition text_post (n d : Z) (txt : string) : PostData :=
  mkPostData (NumId n) (Some d) None (Some txt) [] None None None None None
    None.

Definition ok_reply (mid : Z) : Reply :=
  Body (mkApiResponse true (Some (mkApiResult (Some mid)))).

(** three text posts whose files were created in the order of the dates
    100, 300, 200 *)
Definition ordering_scenario : Proc BaleSync.Ledger :=
  mkProc
    (mkFS NoStatusFile
       [("post_1.json", Json (text_post 1 100 "a"));
        ("post_2.json", Json (text_post 2 300 "b"));
        ("post_3.json", Json (text_post 3 200 "c"))] [])
    None ∅ [ok_reply 11; ok_reply 12; ok_reply 13].

(** A record that has no [date] and a record dated 200 wait in the
    directory of a syncer that has delivered nothing; the platform accepts
    every call. *)
Definition undated_post : PostData :=
  mkPostData (NumId 1) None None (Some "a") [] None None None None None None.

Definition undated_store : FS :=
  mkFS NoStatusFile
    [("post_1.json", Json undated_post);
     ("post_2.json", Json (text_post 2 200 "b"))] [].

Definition undated_bale : Proc BaleSync.Ledger :=
  mkProc undated_store (Some ∅) ∅ [ok_reply 11; ok_reply 12].

Definition undated_eitaa : Proc EitaaSync.Ledger :=
  mkProc undated_store (Some ∅) ∅ [ok_reply 11; ok_reply 12].

Definition ordering_eitaa : Proc EitaaSync.Ledger :=
  mkProc (dir ordering_scenario) None ∅ [ok_reply 11; ok_reply 12; ok_reply 13].

(** post 7 was delivered as Bale message 42 when its [editDate] was 1000;
    the stored record now has [editDate] 2000 and the same text *)
Definition edit_scenario : Proc BaleSync.Ledger :=
  mkProc
    (mkFS NoStatusFile
       [("post_7.json",
         Json (mkPostData (NumId 7) (Some 900) (Some 2000) (Some "hello") []
                 None None None None None None))] [])
    (Some {[ "7" := BaleSync.mkMeta (Some 900) (Some 1000) None (Some 42) ]})
    {[ "7" := BaleSync.mkMeta (Some 900) (Some 1000) None (Some 42) ]}
    [ok_reply 43].

(** a catch-up pass is running while a record waits in the directory *)
Definition busy_bale : Proc BaleSync.Ledger :=
  mkProc
    (mkFS (StatusJson "in_progress" None)
       [("post_1.json", Json (text_post 1 100 "a"))] [])
    None ∅ [ok_reply 11].

Definition busy_eitaa : Proc EitaaSync.Ledger :=
  mkProc
    (mkFS (StatusJson "in_progress" None)
       [("post_1.json", Json (text_post 1 100 "a"))] [])
    None ∅ [ok_reply 11].

(** the directory and the replies change, the process restarts, the timer
    fires *)
Definition resend_steps : list Step :=
  [Tick;
   Env (mkFS NoStatusFile
          [("post_7.json",
            Json (mkPostData (NumId 7) (Some 900) (Some 1000) (Some "hello")
                    [] None None None None None None))] [])
       [ok_reply 50; ok_reply 51];
   Start; Tick; Tick].

Definition eitaa_known : Proc EitaaSync.Ledger :=
  mkProc
    (mkFS NoStatusFile
       [("post_7.json",
         Json (mkPostData (NumId 7) (Some 900) (Some 1000) (Some "hello") []
                 None None None None None None))] [])
    (Some {[ "7" ]}) {[ "7" ]} [ok_reply 60].

(** Seven text posts wait in the directory of a watching Eitaa syncer that
    has delivered nothing; the platform accepts every call. *)
Definition seven_posts : FS :=
  mkFS NoStatusFile
    [("post_1.json", Json (text_post 1 10 "a"));
     ("post_2.json", Json (text_post 2 20 "b"));
     ("post_3.json", Json (text_post 3 30 "c"));
     ("post_4.json", Json (text_post 4 40 "d"));
     ("post_5.json", Json (text_post 5 50 "e"));
     ("post_6.json", Json (text_post 6 60 "f"));
     ("post_7.json", Json (text_post 7 70 "g"))] [].

Definition overlap_eitaa : Process EitaaSync.Ledger :=
  mkProcess
    (mkProc seven_posts (Some ∅) ∅
       [ok_reply 1; ok_reply 2; ok_reply 3; ok_reply 4; ok_reply 5;
        ok_reply 6; ok_reply 7; ok_reply 8; ok_reply 9])
    true.

(** The timer fires and the run delivers post 1; it delivers one post
    after every wait of a second; when it has delivered five posts, five
    seconds have passed and the timer fires again: the second run delivers
    post 6.  Then the first run goes on, the second, and the first again. *)
Definition overlap_first : list Step :=
  [Fire; Resume 0; Resume 0; Resume 0; Resume 0; Fire].

Definition overlap_rest : list Step :=
  [Resume 0; Resume 1; Resume 0].

(** the second of three sends fails *)
Definition failing_bale : Proc BaleSync.Ledger :=
  mkProc (dir ordering_scenario) None ∅ [ok_reply 11; NetFail; ok_reply 13].

Definition failing_eitaa : Proc EitaaSync.Ledger :=
  mkProc (dir ordering_scenario) None ∅ [ok_reply 11; NetFail; ok_reply 13].


(** post 7 with one photo, as the ingester stored it *)
Definition post_7 : PostData :=
  mkPostData (NumId 7) (Some 900) None (Some "hello")
    ["media/7/photo_1.jpg"] None None None None None None.

Definition stored_7 : FS :=
  mkFS NoStatusFile [("post_7.json", Json post_7)]
    ["media/7/photo_1.jpg"; "media/8/photo_2.jpg"].

(** Bale delivered post 7 as message 42; then the source deleted it *)
Definition delete_scenario : Proc BaleSync.Ledger :=
  mkProc (TelegramChannelSync.handleDeletedMessage 7 stored_7)
    (Some {[ "7" := BaleSync.mkMeta (Some 900) None None (Some 42) ]})
    {[ "7" := BaleSync.mkMeta (Some 900) None None (Some 42) ]}
    [ok_reply 1].

(** as [delete_scenario], while Bale cannot be reached; the process is
    started again twice *)
Definition delete_refused : Process BaleSync.Ledger :=
  mkProcess
    (mkProc (TelegramChannelSync.handleDeletedMessage 7 stored_7)
       (Some {[ "7" := BaleSync.mkMeta (Some 900) None None (Some 42) ]})
       {[ "7" := BaleSync.mkMeta (Some 900) None None (Some 42) ]}
       []) true.

Definition refused_steps : list Step := [Tick; Start; Tick; Start; Tick].

(** post 9 has two media files *)
Definition album_post : PostData :=
  mkPostData (NumId 9) (Some 500) None (Some "cap")
    ["media/9/a.jpg"; "media/9/b.jpg"] None None None None None None.

Definition album_scenario : Proc BaleSync.Ledger :=
  mkProc
    (mkFS NoStatusFile [("post_9.json", Json album_post)]
       ["media/9/a.jpg"; "media/9/b.jpg"])
    None ∅ [ok_reply 101; ok_reply 102].

(** the send of the second file of post 9 fails; the process is started
    again and the platform accepts every call *)
Definition half_sent : Process BaleSync.Ledger :=
  mkProcess
    (mkProc (dir album_scenario) (Some ∅) ∅ [ok_reply 101; NetFail]) true.

Definition retry_steps : list Step :=
  [Tick; Env (dir album_scenario) [ok_reply 103; ok_reply 104]; Start].

(** the edit of message 7 that the source reports *)
Definition edited_7 : Api.Message :=
  Api.mkMessage 7 900 (Some 950) "hello again" None None None.

(** an album of two messages; only the second was edited *)
Definition album_message (i : Z) (edited : option Z) : Api.Message :=
  Api.mkMessage i 1000 edited "cap" (Some 77) None
    (Some (Api.MessageMediaPhoto (Some (900 + i)))).

Definition album_feed : list Api.Message :=
  [album_message 2 (Some 5); album_message 1 None].

Definition empty_store : FS := mkFS NoStatusFile [] [].

(** two messages that belong to no album: an edited text and a photo *)
Definition plain_feed : list Api.Message :=
  [edited_7;
   Api.mkMessage 8 960 None "look" None None
     (Some (Api.MessageMediaPhoto (Some 908)))].

(** four messages of album 77 arrive within 300 ms *)
Definition burst : list (Z * Api.Message) :=
  [(0, album_message 2 None); (100, album_message 1 None);
   (250, album_message 4 None); (300, album_message 3 None)].

Arguments scan : simpl never.
Arguments BaleSync.watchPost : simpl never.
Arguments BaleSync.syncIfNew : simpl never.
Arguments EitaaSync.syncIfNew : simpl never.
Arguments BaleSync.watchCycle : simpl never.
Arguments EitaaSync.watchCycle : simpl never.
Arguments BaleSync.start : simpl never.
Arguments EitaaSync.start : simpl never.


(** * Properties *)

(** ** The stable sort *)
Section SortFacts.
Context {A : Type} (key : A -> Z).

Lemma insert_sorted_perm (x : A) (l : list A) :
  Permutation (insert_sorted key x l) (x :: l).
Proof.
  induction l as [|y l IH]; simpl; [reflexivity|].
  destruct (key x <=? key y); [reflexivity|].
  rewrite IH. apply perm_swap.
Qed.

Lemma sort_by_perm (l : list A) : Permutation (sort_by key l) l.
Proof.
  induction l as [|x l IH]; simpl; [reflexivity|].
  rewrite insert_sorted_perm. by constructor.
Qed.

Lemma insert_sorted_sorted (x : A) (l : list A) :
  StronglySorted (key_le key) l -> StronglySorted (key_le key) (insert_sorted key x l).
Proof.
  induction 1 as [|y l Hl IH Hy]; simpl.
  - repeat constructor.
  - destruct (Z.leb_spec (key x) (key y)) as [Hxy|Hxy].
    + constructor; [by constructor|].
      constructor; [exact Hxy|].
      eapply List.Forall_impl; [|exact Hy].
      unfold key_le. intros; simpl in *; lia.
    + constructor; [exact IH|].
      eapply Permutation_Forall; [symmetry; apply insert_sorted_perm|].
      constructor; [unfold key_le; lia | exact Hy].
Qed.

Lemma sort_by_sorted (l : list A) : StronglySorted (key_le key) (sort_by key l).
Proof.
  induction l; simpl; [constructor | by apply insert_sorted_sorted].
Qed.

(** an input that is already in order is returned as it is *)
Lemma sort_by_sorted_id (l : list A) :
  StronglySorted (key_le key) l -> sort_by key l = l.
Proof.
  induction 1 as [|x l Hl IH Hx]; simpl; [done|].
  rewrite IH. destruct l as [|y l']; simpl; [done|].
  inversion Hx as [|? ? Hxy _]; subst. unfold key_le in Hxy.
  destruct (Z.leb_spec (key x) (key y)); [done | lia].
Qed.

Lemma sorted_le_lt (l : list A) :
  StronglySorted (key_le key) l -> NoDup (List.map key l) -> StronglySorted (key_lt key) l.
Proof.
  induction 1 as [|x l Hl IH Hx]; simpl; intros Hnd; [constructor|].
  apply NoDup_cons in Hnd as [Hnotin Hnd].
  constructor; [by apply IH|].
  apply List.Forall_forall. intros y Hy.
  rewrite List.Forall_forall in Hx. specialize (Hx y Hy).
  unfold key_le, key_lt in *.
  assert (key x <> key y); [|lia].
  intros Heq. apply Hnotin. rewrite Heq.
  apply list_elem_of_In, List.in_map, Hy.
Qed.

Lemma sort_by_strict (l : list A) :
  NoDup (List.map key l) -> StronglySorted (key_lt key) (sort_by key l).
Proof.
  intros Hnd. apply sorted_le_lt; [apply sort_by_sorted|].
  assert (Permutation (List.map key (sort_by key l)) (List.map key l)) as ->;
    [apply Permutation_map, sort_by_perm | exact Hnd].
Qed.

Lemma sublist_sorted (R : A -> A -> Prop) (l1 l2 : list A) :
  sublist l1 l2 -> StronglySorted R l2 -> StronglySorted R l1.
Proof.
  induction 1 as [|x l1 l2 Hs IH|x l1 l2 Hs IH]; intros Hsorted.
  - constructor.
  - inversion Hsorted as [|? ? Hl2 Hx]; subst.
    constructor; [by apply IH|].
    eapply List.Forall_forall. intros y Hy.
    rewrite List.Forall_forall in Hx. apply Hx.
    apply list_elem_of_In. eapply elem_of_sublist; [|exact Hs].
    by apply list_elem_of_In.
  - inversion Hsorted; subst. by apply IH.
Qed.
End SortFacts.

(** ** Running computations *)
Section Running.
Context {L : Type}.
Implicit Types w : Proc L.

Lemma bind_run {A B} (m : M L A) (k : A -> M L B) w :
  bind m k w =
  match run_of (m w) with
  | Ret a =>
      (run_of (k a (proc_of (m w))), proc_of (k a (proc_of (m w))),
       trace_of (m w) ++ trace_of (k a (proc_of (m w))))
  | Throw => (Throw, proc_of (m w), trace_of (m w))
  | Halt c => (Halt c, proc_of (m w), trace_of (m w))
  end.
Proof.
  unfold bind, run_of, proc_of, trace_of.
  destruct (m w) as [[[a| |c] w1] t1]; simpl; try done.
  by destruct (k a w1) as [[r w2] t2].
Qed.

Lemma try_catch_run {A} (m h : M L A) w :
  try_catch m h w =
  match run_of (m w) with
  | Throw =>
      (run_of (h (proc_of (m w))), proc_of (h (proc_of (m w))),
       trace_of (m w) ++ trace_of (h (proc_of (m w))))
  | _ => m w
  end.
Proof.
  unfold try_catch, run_of, proc_of, trace_of.
  destruct (m w) as [[[a| |c] w1] t1]; simpl; try done.
  by destruct (h w1) as [[r w2] t2].
Qed.

Lemma forM_app {A} (f : A -> M L unit) (l1 l2 : list A) w :
  forM_ (l1 ++ l2) f w = (forM_ l1 f ;;; forM_ l2 f) w.
Proof.
  revert w. induction l1 as [|x l1 IH]; intros w; simpl.
  - unfold bind, ret. by destruct (forM_ l2 f w) as [[r w2] t2].
  - unfold bind. destruct (f x w) as [[[a| |c] w1] t1]; try done.
    rewrite IH. unfold bind.
    destruct (forM_ l1 f w1) as [[[a1| |c1] w2] t2]; try done.
    destruct (forM_ l2 f w2) as [[r w3] t3]. by rewrite app_assoc.
Qed.

(** A state invariant [I] and a property [T] of every effect carry over
    from the body of a loop to the loop. *)
Lemma forM_keeps {A} (I : Proc L -> Prop) (T : Event -> Prop)
  (f : A -> M L unit) (l : list A) :
  (forall x w, In x l -> I w ->
     I (proc_of (f x w)) /\ Forall T (trace_of (f x w))) ->
  forall w, I w ->
    I (proc_of (forM_ l f w)) /\ Forall T (trace_of (forM_ l f w)).
Proof.
  induction l as [|x l IH]; intros Hf w Hw; simpl.
  - split; [done | constructor].
  - destruct (Hf x w) as [H1 H2]; [by left | done |].
    rewrite bind_run. destruct (run_of (f x w)); simpl; try done.
    destruct (IH (fun y w' Hy => Hf y w' (or_intror Hy)) _ H1) as [H3 H4].
    split; [done | by apply Forall_app].
Qed.

(** The posts a loop delivers are among the posts it runs over, in order,
    when its body delivers its own post or nothing. *)
Lemma forM_ext {A} (f g : A -> M L unit) (l : list A) :
  (forall x w, f x w = g x w) -> forall w, forM_ l f w = forM_ l g w.
Proof.
  intros Hfg. induction l as [|x l IH]; intros w; [done|].
  cbn [forM_]. unfold bind. rewrite Hfg.
  destruct (g x w) as [[[[]| |c] w1] t1]; try done. by rewrite IH.
Qed.

(** *** Exceptions of adapter calls *)

Lemma tidy_bind {A B} (m : M L A) (k : A -> M L B) w :
  tidy (m w) -> (forall a w', tidy (k a w')) -> tidy (bind m k w).
Proof.
  intros Hm Hk. unfold tidy in *. rewrite bind_run.
  destruct (run_of (m w)) as [a| |c]; simpl; try done.
  specialize (Hk a (proc_of (m w))).
  destruct (run_of (k a (proc_of (m w)))); simpl; try done.
  - by apply Forall_app.
  - destruct Hk as [(pre & e & -> & He & Hpre)|Hq].
    + left. exists (trace_of (m w) ++ pre), e. rewrite app_assoc.
      split; [done|]. split; [done|]. by apply Forall_app.
    + right. by apply Forall_app.
Qed.

Lemma tidy_forM {A} (f : A -> M L unit) (l : list A) :
  (forall x w, tidy (f x w)) -> forall w, tidy (forM_ l f w).
Proof.
  intros Hf. induction l as [|x l IH]; intros w; simpl.
  - unfold tidy; simpl. constructor.
  - apply tidy_bind; [apply Hf | intros _ w'; apply IH].
Qed.

Lemma tidy_foldM {A B} (f : B -> A -> M L B) (l : list A) :
  (forall b x w, tidy (f b x w)) -> forall b w, tidy (foldM f b l w).
Proof.
  intros Hf. induction l as [|x l IH]; intros b w; simpl.
  - unfold tidy; simpl. constructor.
  - apply tidy_bind; [apply Hf | intros b' w'; apply IH].
Qed.

Lemma tidy_quiet {A} (m : M L A) w :
  (exists a, run_of (m w) = Ret a) ->
  Forall (fun e => raised e = false) (trace_of (m w)) -> tidy (m w).
Proof. intros [a Ha] Ht. unfold tidy. by rewrite Ha. Qed.
End Running.

(** ** Loading the directory *)
Section Loading.
Context {L : Type}.
Implicit Types w : Proc L.

Lemma load_loop (files : list string) (acc : list PostData) w :
  foldM (fun posts file =>
           postData <- loadPostData file ;;
           ret (match postData with
                | Some p => posts ++ [p]
                | None => posts
                end)) acc files w
  = (Ret (acc ++ omap (parsed (dir w)) files), w, List.map EReadPost files).
Proof.
  revert acc. induction files as [|file files IH]; intros acc; simpl.
  - by rewrite app_nil_r.
  - unfold bind at 1. unfold loadPostData at 1. cbn.
    rewrite IH. unfold parsed at 2.
    destruct (lookup_entry file (entries (dir w))) as [[|p]|]; simpl; try done.
    by rewrite <- app_assoc.
Qed.

Lemma loadAndSortPosts_run w :
  loadAndSortPosts (post_files (dir w)) w
  = (Ret (sort_by dateKey (loaded (dir w))), w,
     List.map EReadPost (post_files (dir w))).
Proof.
  unfold loadAndSortPosts. unfold bind. rewrite load_loop. cbn.
  by rewrite app_nil_r.
Qed.
End Loading.

(** one watch cycle: the status check, the scan of the directory, the loop
    over the sorted records, and the handler of the [catch] *)
Lemma bale_watchCycle_run (w : Proc BaleSync.Ledger) :
  BaleSync.watchCycle w =
  if in_progress (dir w) then (Ret tt, w, [EReadStatus])
  else
    let x := forM_ (sort_by dateKey (loaded (dir w))) BaleSync.watchPost w in
    match run_of x with
    | Throw =>
        (Halt 1, saved (proc_of x),
         scan (dir w) ++ trace_of x ++ [EClearInterval; ESaveLedger; EExit 1])
    | r => (r, proc_of x, scan (dir w) ++ trace_of x)
    end.
Proof.
  unfold BaleSync.watchCycle. rewrite try_catch_run.
  rewrite bind_run. unfold isTelegramSyncInProgress at 1 2 3. cbn.
  fold (in_progress (dir w)). destruct (in_progress (dir w)); [done|].
  cbn. fold (post_files (dir w)).
  rewrite !bind_run. rewrite loadAndSortPosts_run. cbn.
  destruct (forM_ (sort_by dateKey (loaded (dir w))) BaleSync.watchPost w)
    as [[[[]| |c] w1] t1]; cbn; try done.
  by rewrite <- app_assoc.
Qed.

Lemma eitaa_watchCycle_run (w : Proc EitaaSync.Ledger) :
  EitaaSync.watchCycle w =
  if in_progress (dir w) then (Ret tt, w, [EReadStatus])
  else
    let x := forM_ (List.filter (EitaaSync.unprocessed (mem w))
                      (sort_by dateKey (loaded (dir w))))
               EitaaSync.watchPost w in
    match run_of x with
    | Throw =>
        (Halt 1, saved (proc_of x),
         scan (dir w) ++ trace_of x ++ [EClearInterval; ESaveLedger; EExit 1])
    | r => (r, proc_of x, scan (dir w) ++ trace_of x)
    end.
Proof.
  unfold EitaaSync.watchCycle. rewrite try_catch_run.
  rewrite bind_run. unfold isTelegramSyncInProgress at 1 2 3. cbn.
  fold (in_progress (dir w)). destruct (in_progress (dir w)); [done|].
  cbn. fold (post_files (dir w)).
  rewrite !bind_run. rewrite loadAndSortPosts_run. cbn.
  destruct (forM_ _ EitaaSync.watchPost w) as [[[[]| |c] w1] t1]; cbn; try done.
  by rewrite <- app_assoc.
Qed.

Lemma bale_syncExistingPosts_run (w : Proc BaleSync.Ledger) :
  BaleSync.syncExistingPosts w =
  let x := forM_ (sort_by dateKey (loaded (dir w))) BaleSync.syncIfNew w in
  (run_of x, proc_of x,
   EReadDir :: List.map EReadPost (post_files (dir w)) ++ trace_of x).
Proof.
  unfold BaleSync.syncExistingPosts. rewrite bind_run. cbn.
  fold (post_files (dir w)).
  rewrite !bind_run. rewrite loadAndSortPosts_run. cbn.
  by destruct (forM_ _ BaleSync.syncIfNew w) as [[[[]| |c] w1] t1].
Qed.

Lemma eitaa_syncExistingPosts_run (w : Proc EitaaSync.Ledger) :
  EitaaSync.syncExistingPosts w =
  let x := forM_ (sort_by dateKey (loaded (dir w))) EitaaSync.syncIfNew w in
  (run_of x, proc_of x,
   EReadDir :: List.map EReadPost (post_files (dir w)) ++ trace_of x).
Proof.
  unfold EitaaSync.syncExistingPosts. rewrite bind_run. cbn.
  fold (post_files (dir w)).
  rewrite !bind_run. rewrite loadAndSortPosts_run. cbn.
  by destruct (forM_ _ EitaaSync.syncIfNew w) as [[[[]| |c] w1] t1].
Qed.

(** ** The adapter calls and [syncPost] *)
Section Footprint.
Context {L : Type}.

Lemma same_ledger_trans (w1 w2 w3 : Proc L) :
  same_ledger w1 w2 -> same_ledger w2 w3 -> same_ledger w1 w3.
Proof. unfold same_ledger. by intros (-> & -> & ->) (-> & -> & ->). Qed.

Lemma foldM_sends {A B} (T : Event -> Prop) (f : B -> A -> M L B) (l : list A) :
  (forall b x w, same_ledger w (proc_of (f b x w)) /\ tidy (f b x w)
                 /\ Forall T (trace_of (f b x w))) ->
  forall b w, same_ledger w (proc_of (foldM f b l w)) /\ tidy (foldM f b l w)
              /\ Forall T (trace_of (foldM f b l w)).
Proof.
  intros Hf b w. split; [|split].
  - revert b w. induction l as [|x l IH]; intros b w; simpl; [done|].
    rewrite bind_run. destruct (Hf b x w) as (H1 & _ & _).
    destruct (run_of (f b x w)); simpl; try done.
    eapply same_ledger_trans; [exact H1 | apply IH].
  - apply tidy_foldM. intros. apply Hf.
  - revert b w. induction l as [|x l IH]; intros b w; simpl; [constructor|].
    rewrite bind_run. destruct (Hf b x w) as (_ & _ & H1).
    destruct (run_of (f b x w)); simpl; try done.
    apply Forall_app; split; [done | apply IH].
Qed.

Lemma forM_sends {A} (T : Event -> Prop) (f : A -> M L unit) (l : list A) :
  (forall x w, same_ledger w (proc_of (f x w)) /\ tidy (f x w)
               /\ Forall T (trace_of (f x w))) ->
  forall w, same_ledger w (proc_of (forM_ l f w)) /\ tidy (forM_ l f w)
            /\ Forall T (trace_of (forM_ l f w)).
Proof.
  intros Hf w. split; [|split].
  - revert w. induction l as [|x l IH]; intros w; simpl; [done|].
    rewrite bind_run. destruct (Hf x w) as (H1 & _ & _).
    destruct (run_of (f x w)); simpl; try done.
    eapply same_ledger_trans; [exact H1 | apply IH].
  - apply tidy_forM. intros. apply Hf.
  - revert w. induction l as [|x l IH]; intros w; simpl; [constructor|].
    rewrite bind_run. destruct (Hf x w) as (_ & _ & H1).
    destruct (run_of (f x w)); simpl; try done.
    apply Forall_app; split; [done | apply IH].
Qed.

Lemma unlink_media_loop (paths : list string) (w : Proc L) :
  forM_ paths unlink_media w
  = (Ret tt, set_dir (drop_files paths) w, List.map EUnlinkMedia paths).
Proof.
  revert w. induction paths as [|path paths IH]; intros w; simpl.
  - by destruct w.
  - unfold bind. cbn. by rewrite IH.
Qed.

Lemma deletePostAndMedia_run (p : PostData) (w : Proc L) :
  deletePostAndMedia p w
  = (Ret tt, set_dir (fun d => drop_post p (drop_files (media p) d)) w,
     List.map EUnlinkMedia (media p) ++ [EUnlinkPost (post_file (id p))]).
Proof.
  unfold deletePostAndMedia, bind. by rewrite unlink_media_loop.
Qed.

Lemma drop_files_entries (paths : list string) (d : FS) :
  entries (drop_files paths d) = entries d.
Proof.
  revert d. induction paths as [|path paths IH]; intros d; simpl; [done|].
  by rewrite IH.
Qed.
End Footprint.

Lemma send_effect_sync p e : send_effect p e -> sync_effect p e.
Proof. by destruct e; intros [? ?]; simpl in *; simplify_eq. Qed.

Lemma bale_sendFile_summary pid path cap pin (w : Proc BaleSync.Ledger) :
  let x := BaleSync.sendFile pid path cap pin w in
  same_ledger w (proc_of x) /\ tidy x
  /\ Forall (fun e => is_send e = true /\ call_of e = Some pid) (trace_of x).
Proof.
  unfold BaleSync.sendFile. cbn.
  destruct (existsb _ _); cbn.
  - destruct (hd NetFail (replies w)) as [|[[] res]]; cbn;
      (split; [done|]); (split; [|by repeat constructor]); unfold tidy; cbn.
    + left. by eexists [], _.
    + by repeat constructor.
    + left. by eexists [], _.
  - (split; [done|]); (split; [|by repeat constructor]); unfold tidy; cbn.
    left. by eexists [], _.
Qed.

Lemma bale_sendMessage_summary pid txt pin (w : Proc BaleSync.Ledger) :
  let x := BaleSync.sendMessage pid txt pin w in
  same_ledger w (proc_of x) /\ tidy x
  /\ Forall (fun e => is_send e = true /\ call_of e = Some pid) (trace_of x).
Proof.
  unfold BaleSync.sendMessage. cbn.
  destruct (hd NetFail (replies w)) as [|[[] res]]; cbn;
    (split; [done|]); (split; [|by repeat constructor]); unfold tidy; cbn.
  - left. by eexists [], _.
  - by repeat constructor.
  - left. by eexists [], _.
Qed.

Lemma bale_sendPost_summary p (w : Proc BaleSync.Ledger) :
  let x := BaleSync.sendPost p w in
  same_ledger w (proc_of x) /\ tidy x /\ Forall (send_effect p) (trace_of x).
Proof.
  unfold BaleSync.sendPost.
  destruct (0 <? length (media p))%nat.
  - apply foldM_sends. intros b path w0.
    pose proof (bale_sendFile_summary (toString (id p)) path (text p) (pinned p) w0)
      as (H1 & H2 & H3).
    split; [|split].
    + rewrite bind_run. by destruct (run_of (BaleSync.sendFile _ _ _ _ w0)).
    + apply tidy_bind; [done|]. intros; unfold tidy; cbn; constructor.
    + rewrite bind_run.
      destruct (run_of (BaleSync.sendFile _ _ _ _ w0)); cbn; try done.
      by rewrite app_nil_r.
  - destruct (text p) as [txt|]; [|by repeat split; constructor].
    destruct (truthy_text (Some txt)); [|by repeat split; constructor].
    pose proof (bale_sendMessage_summary (toString (id p)) txt (pinned p) w)
      as (H1 & H2 & H3).
    split; [|split].
    + rewrite bind_run. by destruct (run_of (BaleSync.sendMessage _ _ _ w)).
    + apply tidy_bind; [done|]. intros; unfold tidy; cbn; constructor.
    + rewrite bind_run.
      destruct (run_of (BaleSync.sendMessage _ _ _ w)); cbn; try done.
      by rewrite app_nil_r.
Qed.

Lemma bale_syncPost_run p (w : Proc BaleSync.Ledger) :
  BaleSync.syncPost p w =
  match BaleSync.sendPost p w with
  | (Ret mid, w1, t1) =>
      (Ret tt,
       set_dir (fun d => drop_post p (drop_files (media p) d))
         (bale_record p mid w1),
       ESyncPost p :: t1 ++ ESaveLedger :: List.map EUnlinkMedia (media p)
         ++ [EUnlinkPost (post_file (id p))])
  | (Throw, w1, t1) => (Throw, w1, ESyncPost p :: t1)
  | (Halt c, w1, t1) => (Halt c, w1, ESyncPost p :: t1)
  end.
Proof.
  unfold BaleSync.syncPost. unfold bind at 1. cbn. unfold bind at 1.
  destruct (BaleSync.sendPost p w) as [[[mid| |c] w1] t1]; try done.
  unfold bind, BaleSync.saveProcessedPosts. cbn.
  by rewrite deletePostAndMedia_run.
Qed.

(** ** One record in the loops of the syncers *)
Lemma sync_effect_watch p e : sync_effect p e -> watch_effect p e.
Proof. by destruct e. Qed.

Lemma sync_effect_quiet p t :
  Forall (sync_effect p) t -> delivered t = [].
Proof.
  induction 1 as [|e t He _ IH]; [done|]. by destruct e.
Qed.

Lemma sync_effect_unlinks p (paths : list string) :
  Forall (sync_effect p) (List.map EUnlinkMedia paths).
Proof. induction paths; by constructor. Qed.

Lemma unlinks_raise_free (paths : list string) :
  Forall (fun e => raised e = false) (List.map EUnlinkMedia paths).
Proof. induction paths; by constructor. Qed.

Lemma bale_syncPost_footprint p w : bale_footprint p w (BaleSync.syncPost p w).
Proof.
  unfold bale_footprint. rewrite bale_syncPost_run.
  pose proof (bale_sendPost_summary p w) as ((D1 & D2 & D3) & H2 & H3).
  cbn in D1, D2, D3, H2, H3. unfold tidy in *.
  destruct (BaleSync.sendPost p w) as [[[mid| |c] w1] t1]; cbn in *; [| |done].
  - assert (Forall (sync_effect p)
      (t1 ++ ESaveLedger :: List.map EUnlinkMedia (media p)
          ++ [EUnlinkPost (post_file (id p))])) as Hs.
    { apply Forall_app; split;
        [by eapply List.Forall_impl; [apply send_effect_sync|]|].
      constructor; [done|]. apply Forall_app; split;
        [apply sync_effect_unlinks | by repeat constructor]. }
    split; [|split; [|split; [|split]]].
    + constructor; [done|]. apply Forall_app; split; [done|].
      constructor; [done|]. apply Forall_app; split;
        [apply unlinks_raise_free | by repeat constructor].
    + constructor; [done|].
      by eapply List.Forall_impl; [apply sync_effect_watch|].
    + right. exact (f_equal (cons p) (sync_effect_quiet p _ Hs)).
    + unfold bale_advance; cbn. rewrite D3, drop_files_entries, D1.
      split; [right; split; [by eexists|done] | by right].
    + done.
  - assert (Forall (sync_effect p) t1) as Hs
      by (by eapply List.Forall_impl; [apply send_effect_sync|]).
    split; [|split; [|split; [|split]]].
    + destruct H2 as [(pre & e & -> & He & Hpre)|Hq].
      * left. exists (ESyncPost p :: pre), e. split; [done|]. split; [done|].
        by constructor.
      * right. by constructor.
    + constructor; [done|].
      by eapply List.Forall_impl; [apply sync_effect_watch|].
    + right. exact (f_equal (cons p) (sync_effect_quiet p _ Hs)).
    + unfold bale_advance. rewrite D1, D2, D3. split; by left.
    + done.
Qed.

Lemma bale_deleteMessage_run pid mid (w : Proc BaleSync.Ledger) :
  BaleSync.deleteMessage pid mid w =
  match mid with
  | Some k =>
      if k =? 0 then (Ret None, w, [])
      else
        (match next_reply w with
         | Body b => if ok b then Ret (Some b) else Throw
         | NetFail => Throw
         end, popped w, [EDeleteMessage pid k (Got (next_reply w))])
  | None => (Ret None, w, [])
  end.
Proof.
  unfold BaleSync.deleteMessage. destruct mid as [k|]; [|done]. cbn.
  destruct (k =? 0); [done|]. cbn. unfold next_reply.
  by destruct (hd NetFail (replies w)) as [|[[] res]].
Qed.

(** the log line returns or throws; it has no effect *)
Lemma logNewPost_run {L} (p : PostData) (w : Proc L) :
  logNewPost p w = (Ret tt, w, []) \/ logNewPost p w = (Throw, w, []).
Proof.
  unfold logNewPost. destruct (date p) as [d|]; [|by right].
  destruct (Z.abs (d * 1000) <=? maxTime); [by left | by right].
Qed.

Ltac footprint_done :=
  unfold bale_footprint, tidy, bale_advance, same_ledger; cbn;
  repeat split;
  try (by repeat constructor);
  try (by left);
  try (by right);
  try (by eexists [], _);
  try (left; by eexists [], _);
  try (right; split; [by eexists | done]).

Lemma bale_watchPost_footprint p w : bale_footprint p w (BaleSync.watchPost p w).
Proof.
  unfold BaleSync.watchPost. cbn.
  destruct (mem w !! toString (id p)) as [cached|] eqn:Hc; cbn.
  - destruct (negb _ || negb _); cbn; [|footprint_done].
    destruct (truthy_flag (deleted p) && _); cbn.
    + unfold bind at 1. rewrite bale_deleteMessage_run.
      destruct (BaleSync.baleMessageId cached) as [k|]; cbn; [|footprint_done].
      destruct (k =? 0); cbn; [footprint_done|].
      destruct (next_reply w) as [|[[] res]]; cbn; footprint_done.
    + destruct (negb _ && negb _); cbn; footprint_done.
  - destruct (negb (truthy_flag (deleted p))); cbn; [|footprint_done].
    destruct (logNewPost_run p w) as [Hl|Hl]; unfold bind; rewrite Hl;
      [|footprint_done].
    pose proof (bale_syncPost_footprint p w) as H.
    by destruct (BaleSync.syncPost p w) as [[[[]| |c] w1] t1].
Qed.

Lemma bale_syncIfNew_footprint p w : bale_footprint p w (BaleSync.syncIfNew p w).
Proof.
  unfold BaleSync.syncIfNew. cbn.
  destruct (negb (truthy_flag (deleted p)) && _); cbn; [|footprint_done].
  pose proof (bale_syncPost_footprint p w) as H.
  by destruct (BaleSync.syncPost p w) as [[r w1] t1].
Qed.

(** a record whose id is in the ledger is not sent *)
Lemma bale_watchPost_known p (w : Proc BaleSync.Ledger) :
  is_Some (mem w !! toString (id p)) ->
  Forall (fun e => forall pid, send_of pid e = false)
    (trace_of (BaleSync.watchPost p w)).
Proof.
  intros [cached Hc]. unfold BaleSync.watchPost. cbn. rewrite Hc. cbn.
  destruct (negb _ || negb _); cbn; [|by repeat constructor].
  destruct (truthy_flag (deleted p) && _); cbn.
  - unfold bind at 1. rewrite bale_deleteMessage_run.
    destruct (BaleSync.baleMessageId cached) as [k|]; cbn;
      [|by repeat constructor].
    destruct (k =? 0); cbn; [by repeat constructor|].
    destruct (next_reply w) as [|[[] res]]; cbn; by repeat constructor.
  - destruct (negb _ && negb _); cbn; by repeat constructor.
Qed.

Lemma bale_syncIfNew_known p (w : Proc BaleSync.Ledger) :
  is_Some (mem w !! toString (id p)) ->
  BaleSync.syncIfNew p w = (Ret tt, w, []).
Proof.
  intros [cached Hc]. unfold BaleSync.syncIfNew. cbn. rewrite Hc.
  by rewrite andb_false_r.
Qed.

(** a deleted record whose ledger entry is already marked deleted: nothing
    is called and the ledger stays as it is *)
Lemma bale_watchPost_deleted p cached (w : Proc BaleSync.Ledger) :
  mem w !! toString (id p) = Some cached ->
  truthy_flag (BaleSync.meta_deleted cached) = true ->
  truthy_flag (deleted p) = true ->
  let x := BaleSync.watchPost p w in
  run_of x = Ret tt /\ mem (proc_of x) = mem w /\ disk (proc_of x) = disk w
  /\ Forall (fun e => call_of e = None) (trace_of x).
Proof.
  intros Hc Hcd Hpd. unfold BaleSync.watchPost. cbn. rewrite Hc. cbn.
  rewrite Hcd, Hpd. cbn.
  destruct (negb _ || negb _); cbn; [|by repeat constructor].
  rewrite andb_false_r. by repeat constructor.
Qed.

(** the delete branch *)
Lemma bale_watchPost_delete p cached mid (w : Proc BaleSync.Ledger) :
  mem w !! toString (id p) = Some cached ->
  truthy_flag (BaleSync.meta_deleted cached) = false ->
  truthy_flag (deleted p) = true ->
  BaleSync.baleMessageId cached = Some mid -> mid <> 0 ->
  BaleSync.watchPost p w =
  if raises (Got (next_reply w)) then
    (Throw, popped w, [EDeleteMessage (toString (id p)) mid (Got (next_reply w))])
  else
    (Ret tt, set_dir (drop_post p) (bale_record p (Some mid) (popped w)),
     [EDeleteMessage (toString (id p)) mid (Got (next_reply w));
      ESaveLedger; EUnlinkPost (post_file (id p))]).
Proof.
  intros Hc Hcd Hpd Hmid Hnz. unfold BaleSync.watchPost. cbn. rewrite Hc. cbn.
  rewrite Hcd, Hpd. cbn.
  assert (bool_decide (BaleSync.meta_deleted cached = deleted p) = false) as ->.
  { apply bool_decide_eq_false. intros Heq. rewrite Heq in Hcd. congruence. }
  rewrite orb_true_r. unfold bind at 1. rewrite bale_deleteMessage_run, Hmid.
  destruct (Z.eqb_spec mid 0) as [|_]; [done|].
  by destruct (next_reply w) as [|[[] res]].
Qed.

Lemma eitaa_sendFile_summary pid path cap pin (w : Proc EitaaSync.Ledger) :
  let x := EitaaSync.sendFile pid path cap pin w in
  same_ledger w (proc_of x) /\ tidy x
  /\ Forall (fun e => is_send e = true /\ call_of e = Some pid) (trace_of x).
Proof.
  unfold EitaaSync.sendFile. cbn.
  destruct (existsb _ _); cbn.
  - destruct (hd NetFail (replies w)) as [|[[] res]]; cbn;
      (split; [done|]); (split; [|by repeat constructor]); unfold tidy; cbn.
    + left. by eexists [], _.
    + by repeat constructor.
    + left. by eexists [], _.
  - (split; [done|]); (split; [|by repeat constructor]); unfold tidy; cbn.
    left. by eexists [], _.
Qed.

Lemma eitaa_sendMessage_summary pid txt pin (w : Proc EitaaSync.Ledger) :
  let x := EitaaSync.sendMessage pid txt pin w in
  same_ledger w (proc_of x) /\ tidy x
  /\ Forall (fun e => is_send e = true /\ call_of e = Some pid) (trace_of x).
Proof.
  unfold EitaaSync.sendMessage. cbn.
  destruct (hd NetFail (replies w)) as [|[[] res]]; cbn;
    (split; [done|]); (split; [|by repeat constructor]); unfold tidy; cbn.
  - left. by eexists [], _.
  - by repeat constructor.
  - left. by eexists [], _.
Qed.

Lemma eitaa_sendPost_summary p (w : Proc EitaaSync.Ledger) :
  let x := EitaaSync.sendPost p w in
  same_ledger w (proc_of x) /\ tidy x /\ Forall (send_effect p) (trace_of x).
Proof.
  unfold EitaaSync.sendPost.
  destruct (0 <? length (media p))%nat.
  - apply forM_sends. intros path w0.
    pose proof (eitaa_sendFile_summary (toString (id p)) path (text p) (pinned p) w0)
      as (H1 & H2 & H3).
    split; [|split].
    + rewrite bind_run. by destruct (run_of (EitaaSync.sendFile _ _ _ _ w0)).
    + apply tidy_bind; [done|]. intros; unfold tidy; cbn; constructor.
    + rewrite bind_run.
      destruct (run_of (EitaaSync.sendFile _ _ _ _ w0)); cbn; try done.
      by rewrite app_nil_r.
  - destruct (text p) as [txt|]; [|by repeat split; constructor].
    destruct (truthy_text (Some txt)); [|by repeat split; constructor].
    pose proof (eitaa_sendMessage_summary (toString (id p)) txt (pinned p) w)
      as (H1 & H2 & H3).
    split; [|split].
    + rewrite bind_run. by destruct (run_of (EitaaSync.sendMessage _ _ _ w)).
    + apply tidy_bind; [done|]. intros; unfold tidy; cbn; constructor.
    + rewrite bind_run.
      destruct (run_of (EitaaSync.sendMessage _ _ _ w)); cbn; try done.
      by rewrite app_nil_r.
Qed.

Lemma eitaa_syncPost_run p (w : Proc EitaaSync.Ledger) :
  EitaaSync.syncPost p w =
  match EitaaSync.sendPost p w with
  | (Ret _, w1, t1) =>
      (Ret tt,
       set_dir (fun d => drop_post p (drop_files (media p) d))
         (eitaa_record p w1),
       ESyncPost p :: t1 ++ ESaveLedger :: List.map EUnlinkMedia (media p)
         ++ [EUnlinkPost (post_file (id p))])
  | (Throw, w1, t1) => (Throw, w1, ESyncPost p :: t1)
  | (Halt c, w1, t1) => (Halt c, w1, ESyncPost p :: t1)
  end.
Proof.
  unfold EitaaSync.syncPost. unfold bind at 1. cbn. unfold bind at 1.
  destruct (EitaaSync.sendPost p w) as [[[[]| |c] w1] t1]; try done.
  unfold bind, EitaaSync.saveProcessedPosts. cbn.
  by rewrite deletePostAndMedia_run.
Qed.

Lemma eitaa_syncPost_footprint p w : eitaa_footprint p w (EitaaSync.syncPost p w).
Proof.
  unfold eitaa_footprint. rewrite eitaa_syncPost_run.
  pose proof (eitaa_sendPost_summary p w) as ((D1 & D2 & D3) & H2 & H3).
  cbn in D1, D2, D3, H2, H3. unfold tidy in *.
  destruct (EitaaSync.sendPost p w) as [[[[]| |c] w1] t1]; cbn in *; [| |done].
  - assert (Forall (sync_effect p)
      (t1 ++ ESaveLedger :: List.map EUnlinkMedia (media p)
          ++ [EUnlinkPost (post_file (id p))])) as Hs.
    { apply Forall_app; split;
        [by eapply List.Forall_impl; [apply send_effect_sync|]|].
      constructor; [done|]. apply Forall_app; split;
        [apply sync_effect_unlinks | by repeat constructor]. }
    split; [|split; [|split; [|split]]].
    + constructor; [done|]. apply Forall_app; split; [done|].
      constructor; [done|]. apply Forall_app; split;
        [apply unlinks_raise_free | by repeat constructor].
    + constructor; [done|].
      by eapply List.Forall_impl; [apply sync_effect_watch|].
    + right. exact (f_equal (cons p) (sync_effect_quiet p _ Hs)).
    + unfold eitaa_advance; cbn. rewrite D3, drop_files_entries, D1.
      split; [by right | by right].
    + done.
  - assert (Forall (sync_effect p) t1) as Hs
      by (by eapply List.Forall_impl; [apply send_effect_sync|]).
    split; [|split; [|split; [|split]]].
    + destruct H2 as [(pre & e & -> & He & Hpre)|Hq].
      * left. exists (ESyncPost p :: pre), e. split; [done|]. split; [done|].
        by constructor.
      * right. by constructor.
    + constructor; [done|].
      by eapply List.Forall_impl; [apply sync_effect_watch|].
    + right. exact (f_equal (cons p) (sync_effect_quiet p _ Hs)).
    + unfold eitaa_advance. rewrite D1, D2, D3. split; by left.
    + done.
Qed.

Lemma eitaa_watchPost_footprint p w :
  eitaa_footprint p w (EitaaSync.watchPost p w).
Proof.
  unfold EitaaSync.watchPost.
  destruct (logNewPost_run p w) as [Hl|Hl]; unfold bind; rewrite Hl.
  - pose proof (eitaa_syncPost_footprint p w) as H.
    by destruct (EitaaSync.syncPost p w) as [[[[]| |c] w1] t1].
  - unfold eitaa_footprint, tidy, eitaa_advance, same_ledger; cbn.
    repeat split; try (by left); by right.
Qed.

Lemma eitaa_syncIfNew_footprint p w :
  eitaa_footprint p w (EitaaSync.syncIfNew p w).
Proof.
  unfold EitaaSync.syncIfNew. cbn.
  destruct (EitaaSync.unprocessed (mem w) p); cbn.
  - pose proof (eitaa_syncPost_footprint p w) as H.
    by destruct (EitaaSync.syncPost p w) as [[r w1] t1].
  - unfold eitaa_footprint, tidy, eitaa_advance; cbn.
    repeat split; try (by repeat constructor); try (by left).
Qed.

Lemma eitaa_syncIfNew_known p (w : Proc EitaaSync.Ledger) :
  toString (id p) ∈ mem w -> EitaaSync.syncIfNew p w = (Ret tt, w, []).
Proof.
  intros Hin. unfold EitaaSync.syncIfNew, EitaaSync.unprocessed. cbn.
  rewrite (bool_decide_eq_true_2 _ Hin). by rewrite andb_false_r.
Qed.

(** ** The loops of the syncers *)
Section LoopFacts.
Context {L : Type}.

Lemma forM_effects (f : PostData -> M L unit) (l : list PostData) :
  (forall p w, Forall (watch_effect p) (trace_of (f p w))) ->
  forall w, Forall (fun e => exists p, In p l /\ watch_effect p e)
              (trace_of (forM_ l f w)).
Proof.
  intros Hf w.
  apply (forM_keeps (fun _ => True)
           (fun e => exists p, In p l /\ watch_effect p e) f l); [|done].
  intros p w' Hp _. split; [done|].
  eapply List.Forall_impl; [|apply Hf]. intros e He. by exists p.
Qed.
End LoopFacts.

Lemma watch_effect_not_edit p e : watch_effect p e -> is_edit e = false.
Proof. by destruct e. Qed.

Lemma watch_effect_not_read p e : watch_effect p e -> is_post_read e = false.
Proof. by destruct e. Qed.

Lemma scan_quiet d : Forall (fun e => is_outbound e = false /\ raised e = false) (scan d).
Proof.
  unfold scan. do 2 (constructor; [done|]).
  induction (post_files d); by constructor.
Qed.

Lemma bale_watchPost_effects p (w : Proc BaleSync.Ledger) :
  Forall (watch_effect p) (trace_of (BaleSync.watchPost p w)).
Proof. apply bale_watchPost_footprint. Qed.

(** a property of every effect of the loop body is a property of every
    effect of the cycle, if the reads and the effects of the handler have it *)
Lemma cycle_effects {L} (T : Event -> Prop) (d : FS)
  (x : Res unit * Proc L * list Event) :
  Forall T (scan d) -> T EClearInterval -> T ESaveLedger -> T (EExit 1) ->
  Forall T (trace_of x) ->
  Forall T (trace_of
    match run_of x with
    | Throw =>
        (Halt 1, saved (proc_of x),
         scan d ++ trace_of x ++ [EClearInterval; ESaveLedger; EExit 1])
    | r => (r, proc_of x, scan d ++ trace_of x)
    end).
Proof.
  intros Hs H1 H2 H3 Hx.
  unfold trace_of in *.
  destruct (run_of x); cbn [snd];
    rewrite ?Forall_app; repeat split; try done.
  by repeat constructor.
Qed.

Lemma scan_no_edit d : Forall (fun e => is_edit e = false) (scan d).
Proof.
  eapply List.Forall_impl; [|apply scan_quiet]. intros e [H _]. by destruct e.
Qed.

Lemma bale_watchCycle_no_edit (w : Proc BaleSync.Ledger) :
  Forall (fun e => is_edit e = false) (trace_of (BaleSync.watchCycle w)).
Proof.
  rewrite bale_watchCycle_run.
  destruct (in_progress (dir w)); [by repeat constructor|]. cbn zeta.
  apply cycle_effects; try done; [apply scan_no_edit|].
  eapply List.Forall_impl;
    [|apply (forM_effects _ _ bale_watchPost_effects)].
  intros e (p & _ & Hp). by eapply watch_effect_not_edit.
Qed.

(** ** The callback run to its end

    A run of the watch callback that no other run interrupts is the watch
    cycle. *)

Lemma bale_watchVisit_run p (w : Proc BaleSync.Ledger) :
  (BaleSync.watchVisit p ;;; ret tt) w = BaleSync.watchPost p w.
Proof.
  unfold BaleSync.watchVisit, bind, gets, ret. cbn.
  destruct (BaleSync.watchPost p w) as [[[[]| |c] w1] t1]; cbn; try done.
  by rewrite !app_nil_r.
Qed.

Lemma eitaa_watchVisit_run p (w : Proc EitaaSync.Ledger) :
  (EitaaSync.watchVisit p ;;; ret tt) w = EitaaSync.watchPost p w.
Proof.
  unfold EitaaSync.watchVisit, bind, gets, ret.
  destruct (EitaaSync.watchPost p w) as [[[[]| |c] w1] t1]; cbn; try done.
  by rewrite !app_nil_r.
Qed.

Lemma bale_watchCycle_whole (w : Proc BaleSync.Ledger) :
  whole bale_callback w = BaleSync.watchCycle w.
Proof.
  unfold whole, BaleSync.watchCycle, bale_callback.
  cbn [scanned visit rescue]. rewrite !try_catch_run.
  assert ((l <- BaleSync.watchScan ;;
           forM_ l (fun postData => BaleSync.watchVisit postData ;;; ret tt)) w
          = (isTelegramSyncing <- isTelegramSyncInProgress ;;
             if isTelegramSyncing then ret tt
             else
               files <- readdir ;;
               let postFiles := List.filter is_post_file files in
               newPosts <- loadAndSortPosts postFiles ;;
               forM_ newPosts BaleSync.watchPost) w) as ->; [|done].
  unfold BaleSync.watchScan. unfold bind at 1 2 5.
  destruct (isTelegramSyncInProgress w) as [[[[]| |c] w1] t1]; try done.
  { cbn. by rewrite app_nil_r. }
  unfold bind.
  destruct (readdir w1) as [[[files| |c] w2] t2]; try done.
  cbn zeta.
  destruct (loadAndSortPosts _ w2) as [[[l| |c] w3] t3]; try done.
  rewrite (forM_ext _ BaleSync.watchPost l bale_watchVisit_run).
  destruct (forM_ l BaleSync.watchPost w3) as [[r w4] t4].
  by rewrite <- !app_assoc.
Qed.

Lemma eitaa_watchCycle_whole (w : Proc EitaaSync.Ledger) :
  whole eitaa_callback w = EitaaSync.watchCycle w.
Proof.
  unfold whole, EitaaSync.watchCycle, eitaa_callback.
  cbn [scanned visit rescue]. rewrite !try_catch_run.
  assert ((l <- EitaaSync.watchScan ;;
           forM_ l (fun postData => EitaaSync.watchVisit postData ;;; ret tt)) w
          = (isTelegramSyncing <- isTelegramSyncInProgress ;;
             if isTelegramSyncing then ret tt
             else
               files <- readdir ;;
               let postFiles := List.filter is_post_file files in
               newPosts <- loadAndSortPosts postFiles ;;
               processedPosts <- gets mem ;;
               let unprocessedPosts :=
                 List.filter (EitaaSync.unprocessed processedPosts) newPosts in
               forM_ unprocessedPosts EitaaSync.watchPost) w) as ->; [|done].
  unfold EitaaSync.watchScan. unfold bind at 1 2 7.
  destruct (isTelegramSyncInProgress w) as [[[[]| |c] w1] t1]; try done.
  { cbn. by rewrite app_nil_r. }
  unfold bind.
  destruct (readdir w1) as [[[files| |c] w2] t2]; try done.
  cbn zeta.
  destruct (loadAndSortPosts _ w2) as [[[l| |c] w3] t3]; try done.
  unfold gets, ret. cbn.
  rewrite (forM_ext _ EitaaSync.watchPost _ eitaa_watchVisit_run).
  destruct (forM_ _ EitaaSync.watchPost w3) as [[r w4] t4].
  by rewrite <- !app_assoc.
Qed.

(** ** Delivery order *)

Lemma delivered_app (t1 t2 : list Event) :
  delivered (t1 ++ t2) = delivered t1 ++ delivered t2.
Proof. apply omap_app. Qed.

Lemma delivered_reads (files : list string) :
  delivered (List.map EReadPost files) = [].
Proof. induction files; [done | by simpl]. Qed.

Lemma delivered_scan d : delivered (scan d) = [].
Proof. unfold scan. cbn. apply delivered_reads. Qed.

Lemma delivered_cycle {L} (d : FS) (x : Res unit * Proc L * list Event) :
  delivered (trace_of
    match run_of x with
    | Throw =>
        (Halt 1, saved (proc_of x),
         scan d ++ trace_of x ++ [EClearInterval; ESaveLedger; EExit 1])
    | r => (r, proc_of x, scan d ++ trace_of x)
    end) = delivered (trace_of x).
Proof.
  unfold trace_of.
  destruct (run_of x); cbn [snd]; rewrite !delivered_app, delivered_scan;
    cbn; by rewrite ?app_nil_r.
Qed.

Section Due.
Context {L : Type}.

Lemma forM_all (f : PostData -> M L unit) :
  (forall p w, delivered (trace_of (f p w)) = [p]
               \/ (delivered (trace_of (f p w)) = []
                   /\ run_of (f p w) <> Ret tt)) ->
  forall l w,
    delivered (trace_of (forM_ l f w)) `prefix_of` l
    /\ (run_of (forM_ l f w) = Ret tt -> delivered (trace_of (forM_ l f w)) = l).
Proof.
  intros Hf. induction l as [|p l IH]; intros w; cbn [forM_].
  { split; [by exists []|done]. }
  rewrite bind_run. destruct (Hf p w) as [Hp|[Hp Hr]].
  - destruct (run_of (f p w)) as [[]| |c]; cbn [run_of trace_of fst snd].
    + rewrite delivered_app, Hp. destruct (IH (proc_of (f p w))) as [Hpre Hall].
      split; [by apply prefix_cons | intros H; by rewrite (Hall H)].
    + rewrite Hp. split; [by apply prefix_cons, prefix_nil | done].
    + rewrite Hp. split; [by apply prefix_cons, prefix_nil | done].
  - destruct (run_of (f p w)) as [[]| |c]; [done|..];
      cbn [run_of trace_of fst snd]; rewrite Hp;
      (split; [apply prefix_nil | done]).
Qed.

Lemma forM_due (due : Proc L -> PostData -> bool) (f : PostData -> M L unit) :
  (forall p w,
     (due w p = false -> delivered (trace_of (f p w)) = [])
     /\ (due w p = true ->
         delivered (trace_of (f p w)) = [p]
         \/ (delivered (trace_of (f p w)) = [] /\ run_of (f p w) <> Ret tt))
     /\ (forall q, post_key q <> post_key p ->
           due (proc_of (f p w)) q = due w q)) ->
  forall l w, NoDup (List.map post_key l) ->
    delivered (trace_of (forM_ l f w)) `prefix_of` List.filter (due w) l
    /\ (run_of (forM_ l f w) = Ret tt ->
        delivered (trace_of (forM_ l f w)) = List.filter (due w) l).
Proof.
  intros Hf. induction l as [|p l IH]; intros w Hnd; cbn [forM_ List.filter].
  { split; [by exists []|done]. }
  cbn [List.map] in Hnd. apply NoDup_cons in Hnd as [Hp Hnd].
  destruct (Hf p w) as (Hno & Hyes & Hstable).
  assert (List.filter (due (proc_of (f p w))) l = List.filter (due w) l) as Hsame.
  { apply List.filter_ext_in. intros q Hq. apply Hstable.
    intros Hk. apply Hp. rewrite <- Hk. apply list_elem_of_In.
    by apply List.in_map. }
  destruct (IH (proc_of (f p w)) Hnd) as [Hpre Hall]. rewrite Hsame in Hpre, Hall.
  rewrite bind_run. destruct (due w p) eqn:Hd.
  - destruct (Hyes eq_refl) as [Hs|[Hs Hr]].
    + destruct (run_of (f p w)) as [[]| |c]; cbn [run_of trace_of fst snd].
      * rewrite delivered_app, Hs.
        split; [by apply prefix_cons | intros H; by rewrite (Hall H)].
      * rewrite Hs. split; [by apply prefix_cons, prefix_nil | done].
      * rewrite Hs. split; [by apply prefix_cons, prefix_nil | done].
    + destruct (run_of (f p w)) as [[]| |c]; [done|..];
        cbn [run_of trace_of fst snd]; rewrite Hs;
        (split; [apply prefix_nil | done]).
  - specialize (Hno eq_refl).
    destruct (run_of (f p w)) as [[]| |c]; cbn [run_of trace_of fst snd].
    + by rewrite delivered_app, Hno.
    + rewrite Hno. split; [apply prefix_nil | done].
    + rewrite Hno. split; [apply prefix_nil | done].
Qed.
End Due.

Lemma bale_syncPost_delivered p (w : Proc BaleSync.Ledger) :
  delivered (trace_of (BaleSync.syncPost p w)) = [p].
Proof.
  destruct (bale_syncPost_footprint p w) as (_ & _ & [H|H] & _); [|done].
  rewrite bale_syncPost_run in H.
  by destruct (BaleSync.sendPost p w) as [[[mid| |c] w1] t1].
Qed.

Lemma eitaa_syncPost_delivered p (w : Proc EitaaSync.Ledger) :
  delivered (trace_of (EitaaSync.syncPost p w)) = [p].
Proof.
  destruct (eitaa_syncPost_footprint p w) as (_ & _ & [H|H] & _); [|done].
  rewrite eitaa_syncPost_run in H.
  by destruct (EitaaSync.sendPost p w) as [[[mid| |c] w1] t1].
Qed.

Lemma bale_advance_other p pid (w w' : Proc BaleSync.Ledger) :
  post_key p <> pid -> bale_advance p w w' -> mem w' !! pid = mem w !! pid.
Proof.
  intros Hne [[[-> _]|[[meta ->] _]] _]; [done|].
  by rewrite lookup_insert_ne.
Qed.

Lemma bale_due_other p q (w w' : Proc BaleSync.Ledger) :
  bale_advance p w w' -> post_key q <> post_key p ->
  bale_due (mem w') q = bale_due (mem w) q.
Proof.
  intros Hadv Hne. unfold bale_due.
  by rewrite (bale_advance_other p (post_key q) w w').
Qed.

Lemma eitaa_due_other p q (w w' : Proc EitaaSync.Ledger) :
  eitaa_advance p w w' -> post_key q <> post_key p ->
  EitaaSync.unprocessed (mem w') q = EitaaSync.unprocessed (mem w) q.
Proof.
  intros [[[Hm _]|[Hm _]] _] Hne; rewrite Hm; [done|].
  unfold EitaaSync.unprocessed.
  f_equal. f_equal. apply bool_decide_ext. unfold post_key in Hne.
  rewrite elem_of_union, elem_of_singleton.
  split; [intros [Heq|Hin]; [by rewrite Heq in Hne | done] | by right].
Qed.

Lemma bale_syncIfNew_due p (w : Proc BaleSync.Ledger) :
  let x := BaleSync.syncIfNew p w in
  (bale_due (mem w) p = false -> delivered (trace_of x) = [])
  /\ (bale_due (mem w) p = true ->
      delivered (trace_of x) = [p]
      \/ (delivered (trace_of x) = [] /\ run_of x <> Ret tt))
  /\ (forall q, post_key q <> post_key p ->
        bale_due (mem (proc_of x)) q = bale_due (mem w) q).
Proof.
  cbn zeta. split; [|split].
  - unfold bale_due, post_key, BaleSync.syncIfNew. cbn.
    destruct (mem w !! toString (id p)); cbn; intros H;
      rewrite ?andb_false_r, ?andb_true_r in *; [done|].
    by rewrite H.
  - unfold bale_due, post_key, BaleSync.syncIfNew. cbn.
    destruct (mem w !! toString (id p)); cbn; intros H;
      rewrite ?andb_false_r, ?andb_true_r in *; [done|].
    rewrite H. cbn. left.
    pose proof (bale_syncPost_delivered p w) as Hd.
    by destruct (BaleSync.syncPost p w) as [[r w1] t1].
  - intros q Hq. eapply bale_due_other; [|done].
    apply bale_syncIfNew_footprint.
Qed.

Lemma bale_watchPost_due p (w : Proc BaleSync.Ledger) :
  let x := BaleSync.watchPost p w in
  (bale_due (mem w) p = false -> delivered (trace_of x) = [])
  /\ (bale_due (mem w) p = true ->
      delivered (trace_of x) = [p]
      \/ (delivered (trace_of x) = [] /\ run_of x <> Ret tt))
  /\ (forall q, post_key q <> post_key p ->
        bale_due (mem (proc_of x)) q = bale_due (mem w) q).
Proof.
  cbn zeta. split; [|split].
  - unfold bale_due, post_key, BaleSync.watchPost. cbn.
    destruct (mem w !! toString (id p)) as [cached|] eqn:Hc; cbn; intros H.
    + destruct (negb _ || negb _); cbn; [|done].
      destruct (truthy_flag (deleted p) && _); cbn.
      * unfold bind at 1. rewrite bale_deleteMessage_run.
        destruct (BaleSync.baleMessageId cached) as [k|]; cbn; [|done].
        destruct (k =? 0); cbn; [done|].
        by destruct (next_reply w) as [|[[] res]].
      * by destruct (negb _ && negb _).
    + rewrite andb_true_r in H. by rewrite H.
  - unfold bale_due, post_key, BaleSync.watchPost. cbn.
    destruct (mem w !! toString (id p)) as [cached|] eqn:Hc; cbn; intros H;
      rewrite ?andb_false_r, ?andb_true_r in *; [done|].
    rewrite H.
    destruct (logNewPost_run p w) as [Hl|Hl]; unfold bind; rewrite Hl.
    + left. pose proof (bale_syncPost_delivered p w) as Hd.
      by destruct (BaleSync.syncPost p w) as [[[[]| |c] w1] t1].
    + by right.
  - intros q Hq. eapply bale_due_other; [|done].
    apply bale_watchPost_footprint.
Qed.

Lemma eitaa_syncIfNew_due p (w : Proc EitaaSync.Ledger) :
  let x := EitaaSync.syncIfNew p w in
  (EitaaSync.unprocessed (mem w) p = false -> delivered (trace_of x) = [])
  /\ (EitaaSync.unprocessed (mem w) p = true ->
      delivered (trace_of x) = [p]
      \/ (delivered (trace_of x) = [] /\ run_of x <> Ret tt))
  /\ (forall q, post_key q <> post_key p ->
        EitaaSync.unprocessed (mem (proc_of x)) q
        = EitaaSync.unprocessed (mem w) q).
Proof.
  cbn zeta. split; [|split].
  - unfold EitaaSync.syncIfNew. cbn. by intros ->.
  - unfold EitaaSync.syncIfNew. cbn. intros ->. left.
    pose proof (eitaa_syncPost_delivered p w) as Hd.
    by destruct (EitaaSync.syncPost p w) as [[r w1] t1].
  - intros q Hq. eapply eitaa_due_other; [|done].
    apply eitaa_syncIfNew_footprint.
Qed.

Lemma eitaa_watchPost_all p (w : Proc EitaaSync.Ledger) :
  let x := EitaaSync.watchPost p w in
  delivered (trace_of x) = [p]
  \/ (delivered (trace_of x) = [] /\ run_of x <> Ret tt).
Proof.
  cbn zeta. unfold EitaaSync.watchPost.
  destruct (logNewPost_run p w) as [Hl|Hl]; unfold bind; rewrite Hl.
  - left. pose proof (eitaa_syncPost_delivered p w) as Hd.
    by destruct (EitaaSync.syncPost p w) as [[[[]| |c] w1] t1].
  - by right.
Qed.

Lemma filter_sublist_of {A} (f : A -> bool) (l : list A) :
  sublist (List.filter f l) l.
Proof.
  induction l as [|x l IH]; simpl; [constructor|].
  destruct (f x); by constructor.
Qed.

Lemma due_sorted {L} (due : L -> PostData -> bool) (m : L) (d : FS)
  (sent : list PostData) :
  sent `prefix_of` List.filter (due m) (sort_by dateKey (loaded d)) ->
  StronglySorted (key_le dateKey) sent
  /\ (NoDup (List.map dateKey (loaded d)) ->
      StronglySorted (key_lt dateKey) sent).
Proof.
  intros [k Hk].
  assert (sublist sent (sort_by dateKey (loaded d))) as Hsub.
  { etrans; [|apply filter_sublist_of]. rewrite Hk. by apply sublist_inserts_r. }
  split.
  - eapply sublist_sorted; [exact Hsub | apply sort_by_sorted].
  - intros Hnd. eapply sublist_sorted; [exact Hsub | by apply sort_by_strict].
Qed.

Lemma sorted_keys_nodup (d : FS) :
  NoDup (List.map post_key (loaded d)) ->
  NoDup (List.map post_key (sort_by dateKey (loaded d))).
Proof.
  intros H.
  by rewrite (Permutation_map post_key (sort_by_perm dateKey (loaded d))).
Qed.

Lemma send_ids_app (t1 t2 : list Event) :
  send_ids (t1 ++ t2) = send_ids t1 ++ send_ids t2.
Proof. apply omap_app. Qed.

Lemma send_ids_quiet (t : list Event) :
  Forall (fun e => is_outbound e = false) t -> send_ids t = [].
Proof.
  induction 1 as [|e t He _ IH]; [done|].
  unfold send_ids in *. cbn [omap list_omap]. rewrite IH.
  by destruct e.
Qed.

Lemma send_ids_effects p (t : list Event) :
  Forall (watch_effect p) t -> exists n, send_ids t = replicate n (post_key p).
Proof.
  induction 1 as [|e t He _ [n IH]]; [by exists 0%nat|].
  unfold send_ids in *. cbn [omap list_omap]. rewrite IH.
  destruct e; cbn in He |- *; try (by exists n); subst; by exists (S n).
Qed.

Section Sends.
Context {L : Type}.

Lemma forM_post_by_post (f : PostData -> M L unit) :
  (forall p w,
     (delivered (trace_of (f p w)) = [] /\ send_ids (trace_of (f p w)) = [])
     \/ (delivered (trace_of (f p w)) = [p]
         /\ exists n, send_ids (trace_of (f p w)) = replicate n (post_key p))) ->
  forall l w,
    sent_post_by_post (delivered (trace_of (forM_ l f w)))
      (trace_of (forM_ l f w)).
Proof.
  intros Hf. induction l as [|p l IH]; intros w; cbn [forM_].
  { by exists []. }
  rewrite bind_run.
  assert (sent_post_by_post (delivered (trace_of (f p w))) (trace_of (f p w)))
    as Hp.
  { unfold sent_post_by_post.
    destruct (Hf p w) as [[-> ->]|[-> [n ->]]]; [by exists []|].
    exists [n]. split; [done|]. cbn. by rewrite app_nil_r. }
  destruct (run_of (f p w)) as [[]| |c]; cbn [trace_of snd]; [|done..].
  destruct Hp as (c1 & Hl1 & H1).
  destruct (IH (proc_of (f p w))) as (c2 & Hl2 & H2).
  exists (c1 ++ c2). rewrite delivered_app, send_ids_app, H1, H2.
  split; [by rewrite !length_app, Hl1, Hl2|].
  rewrite zip_with_app by done. by rewrite concat_app.
Qed.
End Sends.

Lemma bale_syncPost_sends p (w : Proc BaleSync.Ledger) :
  exists n, send_ids (trace_of (BaleSync.syncPost p w)) = replicate n (post_key p).
Proof. apply send_ids_effects, bale_syncPost_footprint. Qed.

Lemma eitaa_syncPost_sends p (w : Proc EitaaSync.Ledger) :
  exists n, send_ids (trace_of (EitaaSync.syncPost p w)) = replicate n (post_key p).
Proof. apply send_ids_effects, eitaa_syncPost_footprint. Qed.

Lemma bale_syncIfNew_sends p (w : Proc BaleSync.Ledger) :
  let x := BaleSync.syncIfNew p w in
  (delivered (trace_of x) = [] /\ send_ids (trace_of x) = [])
  \/ (delivered (trace_of x) = [p]
      /\ exists n, send_ids (trace_of x) = replicate n (post_key p)).
Proof.
  cbn zeta. unfold BaleSync.syncIfNew. cbn.
  destruct (negb (truthy_flag (deleted p)) && _); cbn; [|by left].
  right. pose proof (bale_syncPost_delivered p w) as Hd.
  pose proof (bale_syncPost_sends p w) as Hs.
  by destruct (BaleSync.syncPost p w) as [[r w1] t1].
Qed.

Lemma unsent_quiet (t : list Event) :
  Forall (fun e => forall pid, send_of pid e = false) t ->
  delivered t = [] /\ send_ids t = [].
Proof.
  induction 1 as [|e t He _ [IH1 IH2]]; [done|].
  unfold delivered, send_ids in *. cbn [omap list_omap]. rewrite IH1, IH2.
  destruct e as [| | |q|pid ? ? ? ?|pid ? ? ?| | | | | | |]; try done.
  - specialize (He (toString (id q))). cbn in He.
    by rewrite bool_decide_eq_true_2 in He.
  - specialize (He pid). cbn in He. by rewrite bool_decide_eq_true_2 in He.
  - specialize (He pid). cbn in He. by rewrite bool_decide_eq_true_2 in He.
Qed.

Lemma bale_watchPost_sends p (w : Proc BaleSync.Ledger) :
  let x := BaleSync.watchPost p w in
  (delivered (trace_of x) = [] /\ send_ids (trace_of x) = [])
  \/ (delivered (trace_of x) = [p]
      /\ exists n, send_ids (trace_of x) = replicate n (post_key p)).
Proof.
  cbn zeta.
  destruct (mem w !! toString (id p)) as [cached|] eqn:Hc.
  { left. apply unsent_quiet, bale_watchPost_known. by exists cached. }
  unfold BaleSync.watchPost. cbn. rewrite Hc.
  destruct (negb (truthy_flag (deleted p))); cbn; [|by left].
  destruct (logNewPost_run p w) as [Hl|Hl]; unfold bind; rewrite Hl;
    [|by left].
  right. pose proof (bale_syncPost_delivered p w) as Hd.
  pose proof (bale_syncPost_sends p w) as Hs.
  by destruct (BaleSync.syncPost p w) as [[[[]| |c] w1] t1].
Qed.

Lemma eitaa_syncIfNew_sends p (w : Proc EitaaSync.Ledger) :
  let x := EitaaSync.syncIfNew p w in
  (delivered (trace_of x) = [] /\ send_ids (trace_of x) = [])
  \/ (delivered (trace_of x) = [p]
      /\ exists n, send_ids (trace_of x) = replicate n (post_key p)).
Proof.
  cbn zeta. unfold EitaaSync.syncIfNew. cbn.
  destruct (EitaaSync.unprocessed (mem w) p); cbn; [|by left].
  right. pose proof (eitaa_syncPost_delivered p w) as Hd.
  pose proof (eitaa_syncPost_sends p w) as Hs.
  by destruct (EitaaSync.syncPost p w) as [[r w1] t1].
Qed.

Lemma eitaa_watchPost_sends p (w : Proc EitaaSync.Ledger) :
  let x := EitaaSync.watchPost p w in
  (delivered (trace_of x) = [] /\ send_ids (trace_of x) = [])
  \/ (delivered (trace_of x) = [p]
      /\ exists n, send_ids (trace_of x) = replicate n (post_key p)).
Proof.
  cbn zeta. unfold EitaaSync.watchPost.
  destruct (logNewPost_run p w) as [Hl|Hl]; unfold bind; rewrite Hl;
    [|by left].
  right. pose proof (eitaa_syncPost_delivered p w) as Hd.
  pose proof (eitaa_syncPost_sends p w) as Hs.
  by destruct (EitaaSync.syncPost p w) as [[[[]| |c] w1] t1].
Qed.

Lemma send_ids_reads (files : list string) :
  send_ids (List.map EReadPost files) = [].
Proof. induction files; [done | by simpl]. Qed.

Lemma send_ids_cycle {L} (d : FS) (x : Res unit * Proc L * list Event) :
  send_ids (trace_of
    match run_of x with
    | Throw =>
        (Halt 1, saved (proc_of x),
         scan d ++ trace_of x ++ [EClearInterval; ESaveLedger; EExit 1])
    | r => (r, proc_of x, scan d ++ trace_of x)
    end) = send_ids (trace_of x).
Proof.
  assert (send_ids (scan d) = []) as Hscan
    by (unfold scan; cbn; apply send_ids_reads).
  unfold trace_of.
  destruct (run_of x); cbn [snd]; rewrite !send_ids_app, Hscan;
    cbn; by rewrite ?app_nil_r.
Qed.

Lemma bale_catch_up_loop (w : Proc BaleSync.Ledger) :
  let x := forM_ (sort_by dateKey (loaded (dir w))) BaleSync.syncIfNew w in
  delivered (trace_of (BaleSync.syncExistingPosts w)) = delivered (trace_of x)
  /\ send_ids (trace_of (BaleSync.syncExistingPosts w)) = send_ids (trace_of x)
  /\ run_of (BaleSync.syncExistingPosts w) = run_of x.
Proof.
  cbn zeta. rewrite bale_syncExistingPosts_run. cbn zeta.
  split; [|split; [|done]]; unfold trace_of at 1; cbn [snd];
    change (EReadDir :: ?a ++ ?b) with ([EReadDir] ++ a ++ b).
  - by rewrite !delivered_app, delivered_reads.
  - by rewrite !send_ids_app, send_ids_reads.
Qed.

Lemma eitaa_catch_up_loop (w : Proc EitaaSync.Ledger) :
  let x := forM_ (sort_by dateKey (loaded (dir w))) EitaaSync.syncIfNew w in
  delivered (trace_of (EitaaSync.syncExistingPosts w)) = delivered (trace_of x)
  /\ send_ids (trace_of (EitaaSync.syncExistingPosts w)) = send_ids (trace_of x)
  /\ run_of (EitaaSync.syncExistingPosts w) = run_of x.
Proof.
  cbn zeta. rewrite eitaa_syncExistingPosts_run. cbn zeta.
  split; [|split; [|done]]; unfold trace_of at 1; cbn [snd];
    change (EReadDir :: ?a ++ ?b) with ([EReadDir] ++ a ++ b).
  - by rewrite !delivered_app, delivered_reads.
  - by rewrite !send_ids_app, send_ids_reads.
Qed.

Lemma bale_watch_loop (w : Proc BaleSync.Ledger) :
  in_progress (dir w) = false ->
  let x := forM_ (sort_by dateKey (loaded (dir w))) BaleSync.watchPost w in
  delivered (trace_of (BaleSync.watchCycle w)) = delivered (trace_of x)
  /\ send_ids (trace_of (BaleSync.watchCycle w)) = send_ids (trace_of x)
  /\ (run_of (BaleSync.watchCycle w) = Ret tt -> run_of x = Ret tt).
Proof.
  intros Hp. cbn zeta. rewrite bale_watchCycle_run, Hp. cbn zeta.
  split; [apply delivered_cycle|]. split; [apply send_ids_cycle|].
  by destruct (run_of (forM_ _ BaleSync.watchPost w)).
Qed.

Lemma eitaa_watch_loop (w : Proc EitaaSync.Ledger) :
  in_progress (dir w) = false ->
  let x := forM_ (List.filter (EitaaSync.unprocessed (mem w))
                    (sort_by dateKey (loaded (dir w))))
             EitaaSync.watchPost w in
  delivered (trace_of (EitaaSync.watchCycle w)) = delivered (trace_of x)
  /\ send_ids (trace_of (EitaaSync.watchCycle w)) = send_ids (trace_of x)
  /\ (run_of (EitaaSync.watchCycle w) = Ret tt -> run_of x = Ret tt).
Proof.
  intros Hp. cbn zeta. rewrite eitaa_watchCycle_run, Hp. cbn zeta.
  split; [apply delivered_cycle|]. split; [apply send_ids_cycle|].
  by destruct (run_of (forM_ _ EitaaSync.watchPost w)).
Qed.

(** The catch-up pass of either syncer over a directory whose records have
    distinct ids delivers the due records in the order of [date || 0]. *)
Theorem catch_up_delivers_due_in_date_order
  (wb : Proc BaleSync.Ledger) (we : Proc EitaaSync.Ledger) :
  NoDup (List.map post_key (loaded (dir wb))) ->
  NoDup (List.map post_key (loaded (dir we))) ->
  delivers_due bale_due BaleSync.syncExistingPosts wb
  /\ delivers_due EitaaSync.unprocessed EitaaSync.syncExistingPosts we.
Proof.
  intros Hb He. split.
  - destruct (bale_catch_up_loop wb) as (Hd & Hs & Hr).
    destruct (forM_due (fun w => bale_due (mem w)) BaleSync.syncIfNew
                bale_syncIfNew_due _ wb (sorted_keys_nodup _ Hb)) as [Hpre Hall].
    pose proof (forM_post_by_post BaleSync.syncIfNew bale_syncIfNew_sends
                  (sort_by dateKey (loaded (dir wb))) wb) as (counts & Hc1 & Hc2).
    unfold delivers_due, sent_post_by_post. cbn zeta. rewrite Hd, Hs, Hr.
    split; [done|]. split; [done|].
    destruct (due_sorted _ _ _ _ Hpre) as [H1 H2].
    split; [done|]. split; [done|]. by exists counts.
  - destruct (eitaa_catch_up_loop we) as (Hd & Hs & Hr).
    destruct (forM_due (fun w => EitaaSync.unprocessed (mem w)) EitaaSync.syncIfNew
                eitaa_syncIfNew_due _ we (sorted_keys_nodup _ He)) as [Hpre Hall].
    pose proof (forM_post_by_post EitaaSync.syncIfNew eitaa_syncIfNew_sends
                  (sort_by dateKey (loaded (dir we))) we) as (counts & Hc1 & Hc2).
    unfold delivers_due, sent_post_by_post. cbn zeta. rewrite Hd, Hs, Hr.
    split; [done|]. split; [done|].
    destruct (due_sorted _ _ _ _ Hpre) as [H1 H2].
    split; [done|]. split; [done|]. by exists counts.
Qed.

Lemma catch_up_delivers_due_in_date_order_witness :
  List.map dateKey
    (delivered (trace_of (BaleSync.syncExistingPosts ordering_scenario)))
  = [100; 200; 300]
  /\ List.map dateKey
       (delivered (trace_of (EitaaSync.syncExistingPosts ordering_eitaa)))
     = [100; 200; 300].
Proof.
  assert (NoDup (List.map post_key (loaded (dir ordering_scenario)))) as Hnd.
  { apply (bool_decide_unpack _). by vm_compute. }
  destruct (catch_up_delivers_due_in_date_order ordering_scenario
              ordering_eitaa Hnd Hnd) as [(_ & Hb & _) (_ & He & _)].
  split.
  - rewrite Hb; by vm_compute.
  - rewrite He; by vm_compute.
Defined.



(** C2. The records are sorted by [date || 0], so a record without
    [date] comes first.  The catch-up pass of either syncer delivers the
    undated record 1 and then the record 2 dated 200.  A watch cycle of
    either syncer over the same directory delivers neither: the line that
    logs the date of the new record 1 raises, nothing is sent, and the
    process leaves with exit code 1. *)
Theorem undated_record_stops_watch :
  (List.map dateKey (sort_by dateKey (loaded undated_store)) = [0; 200]
   /\ List.filter is_outbound (trace_of (BaleSync.syncExistingPosts undated_bale))
      = [ESyncPost undated_post;
         ESendMessage "1" "a" false (Got (ok_reply 11));
         ESyncPost (text_post 2 200 "b");
         ESendMessage "2" "b" false (Got (ok_reply 12))]
   /\ List.filter is_outbound (trace_of (EitaaSync.syncExistingPosts undated_eitaa))
      = [ESyncPost undated_post;
         ESendMessage "1" "a" false (Got (ok_reply 11));
         ESyncPost (text_post 2 200 "b");
         ESendMessage "2" "b" false (Got (ok_reply 12))])
  /\ BaleSync.watchCycle undated_bale
     = (Halt 1, undated_bale,
        [EReadStatus; EReadDir; EReadPost "post_1.json"; EReadPost "post_2.json";
         EClearInterval; ESaveLedger; EExit 1])
  /\ EitaaSync.watchCycle undated_eitaa
     = (Halt 1, undated_eitaa,
        [EReadStatus; EReadDir; EReadPost "post_1.json"; EReadPost "post_2.json";
         EClearInterval; ESaveLedger; EExit 1]).
Proof. repeat split; by vm_compute. Qed.

(** C4. A watch cycle that starts while the status file reads
    [in_progress] returns at once: its only effect is the read of the
    status file, so it reads no record and calls nothing; the state of the
    process is untouched and the timer stays armed. *)
Theorem watch_cycle_skips_while_in_progress
  (wb : Proc BaleSync.Ledger) (we : Proc EitaaSync.Ledger)
  (cb ce : option (Z * Z * Z)) :
  status_file (dir wb) = StatusJson "in_progress" cb ->
  status_file (dir we) = StatusJson "in_progress" ce ->
  (BaleSync.watchCycle wb = (Ret tt, wb, [EReadStatus])
   /\ List.filter is_post_read (trace_of (BaleSync.watchCycle wb)) = []
   /\ List.filter is_outbound (trace_of (BaleSync.watchCycle wb)) = []
   /\ fst (step ∅ BaleSync.start BaleSync.watchCycle bale_callback Tick
             (mkProcess wb true))
      = mkProcess wb true)
  /\ (EitaaSync.watchCycle we = (Ret tt, we, [EReadStatus])
      /\ List.filter is_post_read (trace_of (EitaaSync.watchCycle we)) = []
      /\ List.filter is_outbound (trace_of (EitaaSync.watchCycle we)) = []
      /\ fst (step ∅ EitaaSync.start EitaaSync.watchCycle eitaa_callback Tick
                (mkProcess we true))
         = mkProcess we true).
Proof.
  intros Hb He.
  assert (BaleSync.watchCycle wb = (Ret tt, wb, [EReadStatus])) as Eb.
  { rewrite bale_watchCycle_run. unfold in_progress. by rewrite Hb. }
  assert (EitaaSync.watchCycle we = (Ret tt, we, [EReadStatus])) as Ee.
  { rewrite eitaa_watchCycle_run. unfold in_progress. by rewrite He. }
  split; (split; [done|]); unfold mkProcess;
    cbn [step watching proc suspended]; rewrite ?Eb, ?Ee; done.
Qed.

Lemma watch_cycle_skips_while_in_progress_witness :
  BaleSync.watchCycle busy_bale = (Ret tt, busy_bale, [EReadStatus])
  /\ EitaaSync.watchCycle busy_eitaa = (Ret tt, busy_eitaa, [EReadStatus]).
Proof.
  destruct (watch_cycle_skips_while_in_progress busy_bale busy_eitaa None None)
    as ((Hb & _) & (He & _)); [reflexivity | reflexivity |].
  by split.
Defined.

(** C7 (the code departs from it). No watch cycle of the Bale syncer ever
    calls [editMessage]: the call is commented out.  In the scenario where
    post 7 was delivered with [editDate] 1000 and is observed with
    [editDate] 2000, the cycle only updates the ledger entry and removes
    the record file. *)
Theorem bale_watch_never_edits :
  (forall w : Proc BaleSync.Ledger,
     List.filter is_edit (trace_of (BaleSync.watchCycle w)) = [])
  /\ trace_of (BaleSync.watchCycle edit_scenario)
     = [EReadStatus; EReadDir; EReadPost "post_7.json"; ESaveLedger;
        EUnlinkPost "post_7.json"]
  /\ mem (proc_of (BaleSync.watchCycle edit_scenario)) !! "7"
     = Some (BaleSync.mkMeta (Some 900) (Some 2000) None (Some 42))
  /\ entries (dir (proc_of (BaleSync.watchCycle edit_scenario))) = [].
Proof.
  split.
  - intros w. pose proof (bale_watchCycle_no_edit w) as H.
    induction H as [|e t He _ IH]; [done|]. cbn. by rewrite He.
  - by vm_compute.
Qed.

(** ** A recorded id is not sent again *)
Section Recorded.
Context {L : Type} (fresh : L) (start cycle : M L unit) (cb : Callback L).
Context (has : L -> Prop) (env_ok : FS -> Prop) (T : Event -> Prop).

Hypothesis cycle_keeps : forall w,
  durable has w -> has (mem w) -> env_ok (dir w) ->
  durable has (proc_of (cycle w)) /\ has (mem (proc_of (cycle w)))
  /\ env_ok (dir (proc_of (cycle w)))
  /\ Forall T (trace_of (cycle w)).

Hypothesis start_keeps : forall w,
  durable has w -> env_ok (dir w) ->
  let x := start (set_mem (fun _ => fresh) w) in
  durable has (proc_of x) /\ has (mem (proc_of x))
  /\ env_ok (dir (proc_of x)) /\ Forall T (trace_of x).

Lemma step_keeps (s : Step) (p : Process L) :
  recorded has p -> env_ok (dir (proc p)) -> step_ok env_ok s ->
  recorded has (fst (step fresh start cycle cb s p))
  /\ env_ok (dir (proc (fst (step fresh start cycle cb s p))))
  /\ Forall T (snd (step fresh start cycle cb s p)).
Proof.
  intros [Hd Hm] He Hs. destruct s as [| |d rs| |n]; cbn [step]; [| | |done..].
  - pose proof (start_keeps (proc p) Hd He) as (H1 & H2 & H3 & H4).
    cbn zeta in *. destruct (start _) as [[r w] t]. cbn in *.
    split; [split; [done | by intros _] | done].
  - destruct (watching p) eqn:Hw.
    + pose proof (cycle_keeps (proc p) Hd (Hm eq_refl) He)
        as (H1 & H2 & H3 & H4).
      destruct (cycle _) as [[[[]| |c] w] t]; cbn in *;
        (split; [split; [done | by intros _] | done]).
    + cbn. split; [split; [done | by rewrite Hw] | split; [done | constructor]].
  - cbn. split; [split; [exact Hd | exact Hm] | split; [exact Hs | constructor]].
Qed.

Lemma run_keeps (steps : list Step) (p : Process L) :
  recorded has p -> env_ok (dir (proc p)) -> Forall (step_ok env_ok) steps ->
  recorded has (fst (run fresh start cycle cb steps p))
  /\ env_ok (dir (proc (fst (run fresh start cycle cb steps p))))
  /\ Forall T (snd (run fresh start cycle cb steps p)).
Proof.
  intros Hp He Hs. revert p Hp He.
  induction Hs as [|s steps Hs _ IH]; intros p Hp He; cbn [run].
  - split; [done | split; [done | constructor]].
  - pose proof (step_keeps s p Hp He Hs) as (H1 & H2 & H3).
    destruct (step fresh start cycle cb s p) as [p1 t1]. cbn in H1, H2, H3.
    pose proof (IH p1 H1 H2) as (H4 & H5 & H6).
    destruct (run fresh start cycle cb steps p1) as [p2 t2]. cbn in *.
    split; [done|]. split; [done | by apply Forall_app].
Qed.
End Recorded.

Lemma watch_effect_other p pid e :
  toString (id p) <> pid -> watch_effect p e -> send_of pid e = false.
Proof.
  intros Hne. destruct e; cbn; try done.
  - intros ->. by apply bool_decide_eq_false.
  - intros ->. apply bool_decide_eq_false. congruence.
  - intros ->. apply bool_decide_eq_false. congruence.
Qed.

Lemma scan_no_send pid d : Forall (fun e => send_of pid e = false) (scan d).
Proof.
  eapply List.Forall_impl; [|apply scan_quiet]. intros e [H _]. by destruct e.
Qed.

Lemma forall_filter_nil {A} (f : A -> bool) (l : list A) :
  Forall (fun x => f x = false) l -> List.filter f l = [].
Proof. induction 1 as [|x l Hx _ IH]; [done|]. cbn. by rewrite Hx. Qed.

Lemma bale_advance_keeps pid p w w' :
  bale_advance p w w' -> bale_I pid w -> bale_I pid w'.
Proof.
  unfold bale_I, durable.
  intros [[[-> ->]|[[meta Hm] Hd]] _] [Hdur Hmem]; [done|].
  assert (bale_has pid (mem w')) as Hh.
  { rewrite Hm. unfold bale_has. rewrite lookup_insert.
    case_decide; [by eexists | done]. }
  split; [by eexists | done].
Qed.

Lemma bale_watchPost_keeps pid p w :
  bale_I pid w ->
  bale_I pid (proc_of (BaleSync.watchPost p w))
  /\ Forall (fun e => send_of pid e = false) (trace_of (BaleSync.watchPost p w)).
Proof.
  intros HI. pose proof (bale_watchPost_footprint p w) as (_ & He & _ & Ha & _).
  split; [by eapply bale_advance_keeps|].
  destruct (decide (toString (id p) = pid)) as [Heq|Hne].
  - eapply List.Forall_impl; [|apply bale_watchPost_known].
    + intros e H. apply H.
    + rewrite Heq. apply HI.
  - eapply List.Forall_impl; [|exact He]. intros e. by apply watch_effect_other.
Qed.

Lemma bale_syncIfNew_keeps pid p w :
  bale_I pid w ->
  bale_I pid (proc_of (BaleSync.syncIfNew p w))
  /\ Forall (fun e => send_of pid e = false) (trace_of (BaleSync.syncIfNew p w)).
Proof.
  intros HI. pose proof (bale_syncIfNew_footprint p w) as (_ & He & _ & Ha & _).
  split; [by eapply bale_advance_keeps|].
  destruct (decide (toString (id p) = pid)) as [Heq|Hne].
  - rewrite bale_syncIfNew_known; [constructor|]. rewrite Heq. apply HI.
  - eapply List.Forall_impl; [|exact He]. intros e. by apply watch_effect_other.
Qed.

Lemma bale_I_saved pid w : bale_I pid w -> bale_I pid (saved w).
Proof. intros [_ H]. split; [by eexists | done]. Qed.

Lemma bale_cycle_keeps pid (w : Proc BaleSync.Ledger) :
  durable (bale_has pid) w -> bale_has pid (mem w) ->
  durable (bale_has pid) (proc_of (BaleSync.watchCycle w))
  /\ bale_has pid (mem (proc_of (BaleSync.watchCycle w)))
  /\ Forall (fun e => send_of pid e = false) (trace_of (BaleSync.watchCycle w)).
Proof.
  intros Hd Hm. rewrite bale_watchCycle_run.
  destruct (in_progress (dir w)); [by repeat constructor|]. cbn zeta.
  pose proof (forM_keeps (bale_I pid) (fun e => send_of pid e = false)
    BaleSync.watchPost (sort_by dateKey (loaded (dir w)))
    (fun p w' _ => bale_watchPost_keeps pid p w') w (conj Hd Hm)) as [HI HT].
  match goal with |- durable _ (proc_of ?X) /\ _ =>
    enough (bale_I pid (proc_of X)
            /\ Forall (fun e => send_of pid e = false) (trace_of X))
      as [[? ?] ?] by done end.
  split.
  - destruct (run_of _); cbn; try done. by apply bale_I_saved.
  - apply cycle_effects; try done. apply scan_no_send.
Qed.

Lemma bale_start_run (w : Proc BaleSync.Ledger) l :
  disk w = Some l ->
  BaleSync.start w =
  let x := BaleSync.syncExistingPosts (set_mem (fun _ => l) w) in
  match run_of x with
  | Throw => (Halt 1, proc_of x, trace_of x ++ [EExit 1])
  | _ => x
  end.
Proof.
  intros Hl. unfold BaleSync.start. rewrite try_catch_run.
  assert ((BaleSync.loadProcessedPosts ;;; BaleSync.syncExistingPosts) w
          = BaleSync.syncExistingPosts (set_mem (fun _ => l) w)) as ->.
  { unfold bind, BaleSync.loadProcessedPosts. cbn. rewrite Hl. cbn.
    by destruct (BaleSync.syncExistingPosts _) as [[r w'] t]. }
  done.
Qed.

Lemma bale_start_keeps pid (w : Proc BaleSync.Ledger) :
  durable (bale_has pid) w ->
  let x := BaleSync.start (set_mem (fun _ => ∅) w) in
  durable (bale_has pid) (proc_of x) /\ bale_has pid (mem (proc_of x))
  /\ Forall (fun e => send_of pid e = false) (trace_of x).
Proof.
  intros (l & Hl & Hhas). cbn zeta.
  rewrite (bale_start_run (set_mem (fun _ => ∅) w) l Hl). cbn zeta.
  set (w1 := set_mem (fun _ => l) (set_mem (fun _ => ∅) w)).
  assert (bale_I pid w1) as HI1 by (split; [by exists l | done]).
  rewrite bale_syncExistingPosts_run. cbn zeta.
  pose proof (forM_keeps (bale_I pid) (fun e => send_of pid e = false)
    BaleSync.syncIfNew (sort_by dateKey (loaded (dir w1)))
    (fun p w' _ => bale_syncIfNew_keeps pid p w') w1 HI1) as [[HI HI'] HT].
  assert (Forall (fun e => send_of pid e = false)
            (List.map EReadPost (post_files (dir w1)))) as Hr.
  { induction (post_files (dir w1)); by constructor. }
  destruct (forM_ _ BaleSync.syncIfNew w1) as [[[[]| |c] w2] t2]; cbn in *;
    (split; [done|]); (split; [done|]); constructor; try done;
    rewrite ?Forall_app; repeat split; try done.
  by repeat constructor.
Qed.

Lemma eitaa_advance_keeps pid p w w' :
  eitaa_advance p w w' -> eitaa_I pid w -> eitaa_I pid w'.
Proof.
  unfold eitaa_I, durable.
  intros [[[-> ->]|[Hm Hd]] _] [Hdur Hmem]; [done|].
  assert (eitaa_has pid (mem w')) as Hh.
  { rewrite Hm. unfold eitaa_has in *. apply elem_of_union. by right. }
  split; [by eexists | done].
Qed.

Lemma eitaa_watchPost_keeps pid p w :
  toString (id p) <> pid -> eitaa_I pid w ->
  eitaa_I pid (proc_of (EitaaSync.watchPost p w))
  /\ Forall (fun e => send_of pid e = false) (trace_of (EitaaSync.watchPost p w)).
Proof.
  intros Hne HI. pose proof (eitaa_watchPost_footprint p w) as (_ & He & _ & Ha & _).
  split; [by eapply eitaa_advance_keeps|].
  eapply List.Forall_impl; [|exact He]. intros e. by apply watch_effect_other.
Qed.

Lemma eitaa_syncIfNew_keeps pid p w :
  eitaa_I pid w ->
  eitaa_I pid (proc_of (EitaaSync.syncIfNew p w))
  /\ Forall (fun e => send_of pid e = false) (trace_of (EitaaSync.syncIfNew p w)).
Proof.
  intros HI. pose proof (eitaa_syncIfNew_footprint p w) as (_ & He & _ & Ha & _).
  split; [by eapply eitaa_advance_keeps|].
  destruct (decide (toString (id p) = pid)) as [Heq|Hne].
  - rewrite eitaa_syncIfNew_known; [constructor|]. rewrite Heq. apply HI.
  - eapply List.Forall_impl; [|exact He]. intros e. by apply watch_effect_other.
Qed.

Lemma eitaa_I_saved pid w : eitaa_I pid w -> eitaa_I pid (saved w).
Proof. intros [_ H]. split; [by eexists | done]. Qed.

(** the cycle filters the records against the ledger it starts with; the
    ledger only grows while the cycle runs *)
Lemma eitaa_loop_keeps pid (seen : EitaaSync.Ledger) (l : list PostData) w :
  pid ∈ seen -> eitaa_I pid w ->
  let x := forM_ (List.filter (EitaaSync.unprocessed seen) l)
             EitaaSync.watchPost w in
  eitaa_I pid (proc_of x)
  /\ Forall (fun e => send_of pid e = false) (trace_of x).
Proof.
  intros Hseen HI. apply forM_keeps; [|done].
  intros p w' Hp HI'. apply eitaa_watchPost_keeps; [|done].
  apply List.filter_In in Hp as [_ Hp]. unfold EitaaSync.unprocessed in Hp.
  apply andb_prop in Hp as [_ Hp]. apply negb_true_iff in Hp.
  apply bool_decide_eq_false in Hp. intros Heq. apply Hp. by rewrite Heq.
Qed.

Lemma eitaa_cycle_keeps pid (w : Proc EitaaSync.Ledger) :
  durable (eitaa_has pid) w -> eitaa_has pid (mem w) ->
  durable (eitaa_has pid) (proc_of (EitaaSync.watchCycle w))
  /\ eitaa_has pid (mem (proc_of (EitaaSync.watchCycle w)))
  /\ Forall (fun e => send_of pid e = false) (trace_of (EitaaSync.watchCycle w)).
Proof.
  intros Hd Hm. rewrite eitaa_watchCycle_run.
  destruct (in_progress (dir w)); [by repeat constructor|]. cbn zeta.
  pose proof (eitaa_loop_keeps pid (mem w) (sort_by dateKey (loaded (dir w)))
                w Hm (conj Hd Hm)) as [HI HT].
  match goal with |- durable _ (proc_of ?X) /\ _ =>
    enough (eitaa_I pid (proc_of X)
            /\ Forall (fun e => send_of pid e = false) (trace_of X))
      as [[? ?] ?] by done end.
  split.
  - destruct (run_of _); cbn; try done. by apply eitaa_I_saved.
  - apply cycle_effects; try done. apply scan_no_send.
Qed.

Lemma eitaa_start_run (w : Proc EitaaSync.Ledger) l :
  disk w = Some l ->
  EitaaSync.start w =
  let x := EitaaSync.syncExistingPosts (set_mem (fun _ => l) w) in
  match run_of x with
  | Throw => (Halt 1, proc_of x, trace_of x ++ [EExit 1])
  | _ => x
  end.
Proof.
  intros Hl. unfold EitaaSync.start. rewrite try_catch_run.
  assert ((EitaaSync.loadProcessedPosts ;;; EitaaSync.syncExistingPosts) w
          = EitaaSync.syncExistingPosts (set_mem (fun _ => l) w)) as ->.
  { unfold bind, EitaaSync.loadProcessedPosts. cbn. rewrite Hl. cbn.
    by destruct (EitaaSync.syncExistingPosts _) as [[r w'] t]. }
  done.
Qed.

Lemma eitaa_start_keeps pid (w : Proc EitaaSync.Ledger) :
  durable (eitaa_has pid) w ->
  let x := EitaaSync.start (set_mem (fun _ => ∅) w) in
  durable (eitaa_has pid) (proc_of x) /\ eitaa_has pid (mem (proc_of x))
  /\ Forall (fun e => send_of pid e = false) (trace_of x).
Proof.
  intros (l & Hl & Hhas). cbn zeta.
  rewrite (eitaa_start_run (set_mem (fun _ => ∅) w) l Hl). cbn zeta.
  set (w1 := set_mem (fun _ => l) (set_mem (fun _ => ∅) w)).
  assert (eitaa_I pid w1) as HI1 by (split; [by exists l | done]).
  rewrite eitaa_syncExistingPosts_run. cbn zeta.
  pose proof (forM_keeps (eitaa_I pid) (fun e => send_of pid e = false)
    EitaaSync.syncIfNew (sort_by dateKey (loaded (dir w1)))
    (fun p w' _ => eitaa_syncIfNew_keeps pid p w') w1 HI1) as [[HI HI'] HT].
  assert (Forall (fun e => send_of pid e = false)
            (List.map EReadPost (post_files (dir w1)))) as Hr.
  { induction (post_files (dir w1)); by constructor. }
  destruct (forM_ _ EitaaSync.syncIfNew w1) as [[[[]| |c] w2] t2]; cbn in *;
    (split; [done|]); (split; [done|]); constructor; try done;
    rewrite ?Forall_app; repeat split; try done.
  by repeat constructor.
Qed.

(** A delivery that returns leaves the id recorded, in memory and in the
    ledger file; one that raises records nothing (last part of the
    footprints), so the post is delivered again after a restart. *)
Lemma bale_delivery_recorded p (w : Proc BaleSync.Ledger) :
  run_of (BaleSync.syncPost p w) = Ret tt ->
  bale_I (toString (id p)) (proc_of (BaleSync.syncPost p w)).
Proof.
  rewrite bale_syncPost_run.
  destruct (BaleSync.sendPost p w) as [[[mid| |c] w1] t1]; [|done..].
  intros _. unfold bale_I, durable, bale_has, bale_record, saved.
  cbn [proc_of fst snd disk mem set_dir set_mem].
  split; [eexists; split; [done|]|]; apply lookup_insert_is_Some; by left.
Qed.

Lemma eitaa_delivery_recorded p (w : Proc EitaaSync.Ledger) :
  run_of (EitaaSync.syncPost p w) = Ret tt ->
  eitaa_I (toString (id p)) (proc_of (EitaaSync.syncPost p w)).
Proof.
  rewrite eitaa_syncPost_run.
  destruct (EitaaSync.sendPost p w) as [[[u| |c] w1] t1]; [|done..].
  intros _. unfold eitaa_I, durable, eitaa_has, eitaa_record, saved.
  cbn [proc_of fst snd disk mem set_dir set_mem].
  split; [eexists; split; [done|]|]; apply elem_of_union; left;
    by apply elem_of_singleton.
Qed.

(** C1 fails on the code.  First, two runs of the watch callback of the
    Eitaa syncer overlap: when the timer fires the second time, posts 1 to
    5 are delivered and recorded, and the second run delivers post 6 and
    records it, in memory and in the ledger file; the first run, which
    goes on with the list it made before its loop, sends post 6 again, and
    then post 7 after the second run has sent it.  Second, the Bale syncer
    has sent the first file of post 9 when the send of the second fails;
    the process exits, and after the restart the catch-up pass sends the
    first file again. *)
Lemma record_sent_twice :
  (let first := eitaa_run overlap_first overlap_eitaa in
   let rest := eitaa_run overlap_rest (fst first) in
   List.filter (sent_text "6") (snd first)
   = [ESendMessage "6" "f" false (Got (ok_reply 6))]
   /\ "6" ∈ mem (proc (fst first))
   /\ disk (proc (fst first)) = Some (mem (proc (fst first)))
   /\ List.filter is_send (snd rest)
      = [ESendMessage "6" "f" false (Got (ok_reply 7));
         ESendMessage "7" "g" false (Got (ok_reply 8));
         ESendMessage "7" "g" false (Got (ok_reply 9))])
  /\ List.filter (sent_file "media/9/a.jpg") (snd (bale_run retry_steps half_sent))
     = [ESendFile "9" "media/9/a.jpg" (Some "cap") false (Got (ok_reply 101));
        ESendFile "9" "media/9/a.jpg" (Some "cap") false (Got (ok_reply 103))].
Proof.
  split; [cbn zeta; split; [|split; [|split]]|].
  - by vm_compute.
  - apply (bool_decide_unpack _). by vm_compute.
  - by vm_compute.
  - by vm_compute.
  - by vm_compute.
Qed.

(** C1 as amended.  A delivery that returns leaves the id recorded, in
    memory and in the ledger file, and a delivery in which a call raises
    leaves the ledger as it was.  Once an id is recorded (on disk, and in
    memory when the process is watching), no catch-up pass, no run of the
    watch callback that reaches its end before another run goes on, and no
    restart delivers or sends it again, whatever the directory holds and
    whatever the platform answers in the meantime; the id stays
    recorded. *)
Theorem recorded_id_never_sent_again
  (pid : string) (steps : list Step)
  (pb : Process BaleSync.Ledger) (pe : Process EitaaSync.Ledger) :
  recorded (bale_has pid) pb ->
  recorded (eitaa_has pid) pe ->
  Forall sequential steps ->
  ((List.filter (send_of pid) (snd (bale_run steps pb)) = []
    /\ recorded (bale_has pid) (fst (bale_run steps pb)))
   /\ (List.filter (send_of pid) (snd (eitaa_run steps pe)) = []
       /\ recorded (eitaa_has pid) (fst (eitaa_run steps pe))))
  /\ (forall p w,
        (run_of (BaleSync.syncPost p w) = Ret tt ->
         bale_I (post_key p) (proc_of (BaleSync.syncPost p w)))
        /\ (run_of (BaleSync.syncPost p w) = Throw ->
            same_ledger w (proc_of (BaleSync.syncPost p w))))
  /\ (forall p w,
        (run_of (EitaaSync.syncPost p w) = Ret tt ->
         eitaa_I (post_key p) (proc_of (EitaaSync.syncPost p w)))
        /\ (run_of (EitaaSync.syncPost p w) = Throw ->
            same_ledger w (proc_of (EitaaSync.syncPost p w)))).
Proof.
  intros Hb He Hs. split; [split|split].
  - destruct (run_keeps ∅ BaleSync.start BaleSync.watchCycle bale_callback
      (bale_has pid) (fun _ => True) (fun e => send_of pid e = false)
      (fun w Hd Hm _ => conj (proj1 (bale_cycle_keeps pid w Hd Hm))
         (conj (proj1 (proj2 (bale_cycle_keeps pid w Hd Hm)))
            (conj I (proj2 (proj2 (bale_cycle_keeps pid w Hd Hm))))))
      (fun w Hd _ => conj (proj1 (bale_start_keeps pid w Hd))
         (conj (proj1 (proj2 (bale_start_keeps pid w Hd)))
            (conj I (proj2 (proj2 (bale_start_keeps pid w Hd))))))
      steps pb Hb I Hs) as (H1 & _ & H2).
    split; [by apply forall_filter_nil | done].
  - destruct (run_keeps ∅ EitaaSync.start EitaaSync.watchCycle eitaa_callback
      (eitaa_has pid) (fun _ => True) (fun e => send_of pid e = false)
      (fun w Hd Hm _ => conj (proj1 (eitaa_cycle_keeps pid w Hd Hm))
         (conj (proj1 (proj2 (eitaa_cycle_keeps pid w Hd Hm)))
            (conj I (proj2 (proj2 (eitaa_cycle_keeps pid w Hd Hm))))))
      (fun w Hd _ => conj (proj1 (eitaa_start_keeps pid w Hd))
         (conj (proj1 (proj2 (eitaa_start_keeps pid w Hd)))
            (conj I (proj2 (proj2 (eitaa_start_keeps pid w Hd))))))
      steps pe He I Hs) as (H1 & _ & H2).
    split; [by apply forall_filter_nil | done].
  - intros p w. split; [apply bale_delivery_recorded|].
    apply bale_syncPost_footprint.
  - intros p w. split; [apply eitaa_delivery_recorded|].
    apply eitaa_syncPost_footprint.
Qed.

Lemma recorded_id_never_sent_again_witness :
  List.filter (send_of "7")
    (snd (bale_run resend_steps (mkProcess edit_scenario true))) = []
  /\ List.filter (send_of "7")
       (snd (eitaa_run resend_steps (mkProcess eitaa_known true))) = [].
Proof.
  assert (recorded (bale_has "7") (mkProcess edit_scenario true)) as Hb.
  { split; [eexists; split; [reflexivity|]|intros _];
      apply (bool_decide_unpack _); by vm_compute. }
  assert (recorded (eitaa_has "7") (mkProcess eitaa_known true)) as He.
  { split; [eexists; split; [reflexivity|]|intros _];
      apply (bool_decide_unpack _); by vm_compute. }
  assert (Forall sequential resend_steps) as Hs by (by repeat constructor).
  destruct (recorded_id_never_sent_again "7" resend_steps _ _ Hb He Hs)
    as [[[H1 _] [H2 _]] _].
  by split.
Defined.

(** ** A failing call stops the syncer *)
Section Stopped.
Context {L : Type} (fresh : L) (start cycle : M L unit) (cb : Callback L).

Lemma run_stopped (later : list Step) (p : Process L) :
  watching p = false -> Forall (fun s => s <> Start) later ->
  snd (run fresh start cycle cb later p) = [].
Proof.
  intros Hw Hl. revert p Hw.
  induction Hl as [|s later Hs _ IH]; intros p Hw; [done|].
  cbn [run]. destruct s as [| |d rs| |n]; [done|..]; cbn [step].
  - rewrite Hw. specialize (IH p Hw).
    by destruct (run fresh start cycle cb later p) as [p2 t2].
  - specialize (IH (Process_of (mkProc d (disk (proc p)) (mem (proc p)) rs)
                      (watching p) (suspended p)) Hw).
    by destruct (run fresh start cycle cb later _) as [p2 t2].
  - rewrite Hw. specialize (IH p Hw).
    by destruct (run fresh start cycle cb later p) as [p2 t2].
  - rewrite Hw. specialize (IH p Hw).
    by destruct (run fresh start cycle cb later p) as [p2 t2].
Qed.

Lemma cycle_fatal (w : Proc L) (x : Res unit * Proc L * list Event) :
  tidy x ->
  cycle w =
    match run_of x with
    | Throw =>
        (Halt 1, saved (proc_of x),
         scan (dir w) ++ trace_of x
           ++ [EClearInterval; ESaveLedger; EExit 1])
    | r => (r, proc_of x, scan (dir w) ++ trace_of x)
    end ->
  fatal_stop fresh start cycle cb w
  /\ forall e, In e (trace_of (cycle w)) -> raised e = true ->
       run_of x = Throw /\ exists pre, trace_of x = pre ++ [e].
Proof.
  intros Ht Hc.
  assert (forall e, In e (trace_of (cycle w)) -> raised e = true ->
            run_of x = Throw /\ exists pre, trace_of x = pre ++ [e]
            /\ Forall (fun e' => raised e' = false) pre) as Hkey.
  { intros e Hin He. rewrite Hc in Hin. unfold tidy in Ht.
    assert (Forall (fun e' => raised e' = false) (scan (dir w))) as Hs.
    { eapply List.Forall_impl; [|apply scan_quiet]. by intros ? [_ ?]. }
    destruct (run_of x) as [[]| |c]; [| |done]; unfold trace_of in Hin at 1;
      cbn [snd] in Hin.
    - exfalso. assert (Forall (fun e' => raised e' = false)
                         (scan (dir w) ++ trace_of x)) as Hall
        by (by apply Forall_app).
      rewrite List.Forall_forall in Hall. specialize (Hall e Hin). congruence.
    - destruct Ht as [(pre & e0 & Hx & He0 & Hpre)|Hq].
      + split; [done|].
        exists pre. split; [|done]. rewrite Hx.
        rewrite Hx in Hin. rewrite !in_app_iff in Hin.
        destruct Hin as [Hin|[[Hin|[Hin|[]]]|Hin]].
        * rewrite List.Forall_forall in Hs. specialize (Hs e Hin). congruence.
        * rewrite List.Forall_forall in Hpre. specialize (Hpre e Hin).
          congruence.
        * by subst.
        * destruct Hin as [<-|[<-|[<-|[]]]]; done.
      + exfalso. rewrite !in_app_iff in Hin.
        destruct Hin as [Hin|[Hin|Hin]].
        * rewrite List.Forall_forall in Hs. specialize (Hs e Hin). congruence.
        * rewrite List.Forall_forall in Hq. specialize (Hq e Hin). congruence.
        * destruct Hin as [<-|[<-|[<-|[]]]]; done. }
  split; [|intros e Hin He; destruct (Hkey e Hin He) as (? & pre & ? & _); eauto].
  intros e Hin He. destruct (Hkey e Hin He) as (Hr & pre & Hx & Hpre).
  rewrite Hc, Hr. cbn. rewrite Hx. split; [done|]. split.
  - exists pre. split; [|done]. by rewrite <- !app_assoc.
  - split; [done|]. intros later Hl. rewrite Hc, Hr. unfold mkProcess.
    cbn [step watching proc suspended]. fold (mkProcess (saved (proc_of x)) false).
    pose proof (run_stopped later
      (mkProcess (saved (proc_of x)) false) eq_refl Hl) as Hstop.
    destruct (run fresh start cycle cb later _) as [p2 t2]. cbn in *.
    subst t2. by rewrite app_nil_r, Hx.
Qed.
End Stopped.

Lemma bale_watchCycle_fatal (w : Proc BaleSync.Ledger) :
  fatal_stop ∅ BaleSync.start BaleSync.watchCycle bale_callback w
  /\ forall e, In e (trace_of (BaleSync.watchCycle w)) -> raised e = true ->
       let x := forM_ (sort_by dateKey (loaded (dir w))) BaleSync.watchPost w in
       BaleSync.watchCycle w
       = (Halt 1, saved (proc_of x),
          scan (dir w) ++ trace_of x ++ [EClearInterval; ESaveLedger; EExit 1])
       /\ run_of x = Throw /\ exists pre, trace_of x = pre ++ [e].
Proof.
  pose proof (bale_watchCycle_run w) as Hrun.
  destruct (in_progress (dir w)) eqn:Hp.
  - split.
    + intros e Hin He. rewrite Hrun in Hin. destruct Hin as [<-|[]]. done.
    + intros e Hin He. rewrite Hrun in Hin. destruct Hin as [<-|[]]. done.
  - cbn zeta in Hrun.
    assert (tidy (forM_ (sort_by dateKey (loaded (dir w))) BaleSync.watchPost w))
      as Ht by (apply tidy_forM; intros; apply bale_watchPost_footprint).
    destruct (cycle_fatal ∅ BaleSync.start BaleSync.watchCycle bale_callback w _ Ht Hrun)
      as [Hf Hk].
    split; [done|]. intros e Hin He. cbn zeta.
    destruct (Hk e Hin He) as [Hr Hx]. rewrite Hrun, Hr. done.
Qed.

Lemma eitaa_watchCycle_fatal (w : Proc EitaaSync.Ledger) :
  fatal_stop ∅ EitaaSync.start EitaaSync.watchCycle eitaa_callback w
  /\ forall e, In e (trace_of (EitaaSync.watchCycle w)) -> raised e = true ->
       let x := forM_ (List.filter (EitaaSync.unprocessed (mem w))
                         (sort_by dateKey (loaded (dir w))))
                  EitaaSync.watchPost w in
       EitaaSync.watchCycle w
       = (Halt 1, saved (proc_of x),
          scan (dir w) ++ trace_of x ++ [EClearInterval; ESaveLedger; EExit 1])
       /\ run_of x = Throw /\ exists pre, trace_of x = pre ++ [e].
Proof.
  pose proof (eitaa_watchCycle_run w) as Hrun.
  destruct (in_progress (dir w)) eqn:Hp.
  - split.
    + intros e Hin He. rewrite Hrun in Hin. destruct Hin as [<-|[]]. done.
    + intros e Hin He. rewrite Hrun in Hin. destruct Hin as [<-|[]]. done.
  - cbn zeta in Hrun.
    assert (tidy (forM_ (List.filter (EitaaSync.unprocessed (mem w))
                           (sort_by dateKey (loaded (dir w))))
                    EitaaSync.watchPost w))
      as Ht by (apply tidy_forM; intros; apply eitaa_watchPost_footprint).
    destruct (cycle_fatal ∅ EitaaSync.start EitaaSync.watchCycle eitaa_callback w _ Ht Hrun)
      as [Hf Hk].
    split; [done|]. intros e Hin He. cbn zeta.
    destruct (Hk e Hin He) as [Hr Hx]. rewrite Hrun, Hr. done.
Qed.

Lemma watch_effect_call p e pid :
  watch_effect p e -> call_of e = Some pid -> pid = toString (id p).
Proof. destruct e; cbn; intros; simplify_eq; done. Qed.

(** a call that raised is not among calls none of which raised *)
Lemma raised_absent (t1 t2 pre : list Event) (e : Event) :
  Forall (fun e' => raised e' = false) t1 ->
  Forall (fun e' => raised e' = false) t2 ->
  t1 ++ t2 = pre ++ [e] -> raised e = true -> False.
Proof.
  intros H1 H2 Hx He.
  assert (In e (t1 ++ t2)) as Hin
    by (rewrite Hx; apply in_app_iff; right; by left).
  assert (Forall (fun e' => raised e' = false) (t1 ++ t2)) as Hall
    by (by apply Forall_app).
  rewrite List.Forall_forall in Hall. specialize (Hall e Hin). congruence.
Qed.

(** the post whose send raised is not in the Bale ledger *)
Lemma bale_loop_throw_unsent (l : list PostData) (w : Proc BaleSync.Ledger)
  pre e pid :
  let x := forM_ l BaleSync.watchPost w in
  run_of x = Throw -> trace_of x = pre ++ [e] -> raised e = true ->
  is_send e = true -> call_of e = Some pid ->
  mem (proc_of x) !! pid = None.
Proof.
  cbn zeta. revert w pre. induction l as [|q l IH]; intros w pre; [done|].
  cbn [forM_]. rewrite bind_run.
  pose proof (bale_watchPost_footprint q w) as (Ht & Heff & _ & _ & Hthrow).
  unfold tidy in Ht.
  destruct (run_of (BaleSync.watchPost q w)) as [[]| |c] eqn:Hq; cbn; [| |done].
  - intros Hr Hx He Hs Hc.
    assert (tidy (forM_ l BaleSync.watchPost (proc_of (BaleSync.watchPost q w))))
      as Ht' by (apply tidy_forM; intros; apply bale_watchPost_footprint).
    unfold tidy in Ht'. rewrite Hr in Ht'.
    destruct Ht' as [(pre' & e' & Hx' & _ & _)|Hquiet];
      [|by destruct (raised_absent _ _ _ _ Ht Hquiet Hx He)].
    rewrite Hx', app_assoc in Hx. apply app_inj_tail in Hx as [_ <-].
    by eapply IH.
  - intros _ Hx He Hs Hc.
    assert (In e (trace_of (BaleSync.watchPost q w))) as Hin
      by (rewrite Hx; apply in_app_iff; right; by left).
    rewrite List.Forall_forall in Heff.
    pose proof (watch_effect_call q e pid (Heff e Hin) Hc) as ->.
    destruct (Hthrow eq_refl) as (_ & _ & ->).
    destruct (mem w !! toString (id q)) as [cached|] eqn:Hm; [|done].
    exfalso. pose proof (bale_watchPost_known q w (ex_intro _ cached Hm)) as Hk.
    rewrite List.Forall_forall in Hk. specialize (Hk e Hin (toString (id q))).
    destruct e; cbn in *; try done; simplify_eq;
      by rewrite bool_decide_eq_true_2 in Hk.
Qed.

(** the post whose send raised is not in the Eitaa ledger, when no two
    records of the loop share an id *)
Lemma eitaa_loop_throw_unsent (l : list PostData) (w : Proc EitaaSync.Ledger)
  pre e pid :
  NoDup (List.map post_key l) ->
  (forall q, In q l -> post_key q ∉ mem w) ->
  let x := forM_ l EitaaSync.watchPost w in
  run_of x = Throw -> trace_of x = pre ++ [e] -> raised e = true ->
  call_of e = Some pid ->
  pid ∉ mem (proc_of x).
Proof.
  cbn zeta. revert w pre. induction l as [|q l IH]; intros w pre Hnd Hnew; [done|].
  cbn [forM_]. rewrite bind_run.
  pose proof (eitaa_watchPost_footprint q w) as (Ht & Heff & _ & Hadv & Hthrow).
  unfold tidy in Ht.
  cbn [List.map] in Hnd. apply NoDup_cons in Hnd as [Hq Hnd].
  destruct (run_of (EitaaSync.watchPost q w)) as [[]| |c] eqn:Hrq; cbn; [| |done].
  - intros Hr Hx He Hc.
    assert (tidy (forM_ l EitaaSync.watchPost (proc_of (EitaaSync.watchPost q w))))
      as Ht' by (apply tidy_forM; intros; apply eitaa_watchPost_footprint).
    unfold tidy in Ht'. rewrite Hr in Ht'.
    destruct Ht' as [(pre' & e' & Hx' & _ & _)|Hquiet];
      [|by destruct (raised_absent _ _ _ _ Ht Hquiet Hx He)].
    rewrite Hx', app_assoc in Hx. apply app_inj_tail in Hx as [_ <-].
    eapply IH; try done.
    intros q' Hq'. destruct Hadv as [[[-> _]|[-> _]] _].
    + apply Hnew. by right.
    + intros [Heq|Hin]%elem_of_union.
      * apply elem_of_singleton in Heq. apply Hq.
        change (post_key q) with (toString (id q)). rewrite <- Heq.
        apply list_elem_of_In, List.in_map, Hq'.
      * revert Hin. apply Hnew. by right.
  - intros _ Hx _ Hc.
    assert (In e (trace_of (EitaaSync.watchPost q w))) as Hin
      by (rewrite Hx; apply in_app_iff; right; by left).
    rewrite List.Forall_forall in Heff.
    pose proof (watch_effect_call q e pid (Heff e Hin) Hc) as ->.
    destruct (Hthrow eq_refl) as (_ & _ & ->). apply Hnew. by left.
Qed.

Lemma filter_keys_NoDup (f : PostData -> bool) (l : list PostData) :
  NoDup (List.map post_key l) -> NoDup (List.map post_key (List.filter f l)).
Proof.
  induction l as [|q l IH]; cbn; [done|]. intros [Hq Hnd]%NoDup_cons.
  destruct (f q); cbn; [|by apply IH].
  apply NoDup_cons. split; [|by apply IH].
  intros Hin. apply Hq. apply list_elem_of_In in Hin.
  apply List.in_map_iff in Hin as (q' & Hk & Hq').
  apply List.filter_In in Hq' as [Hq' _].
  apply list_elem_of_In. rewrite <- Hk. by apply List.in_map.
Qed.



(** ** The directory *)

Lemma lookup_unlink_same name e : lookup_entry name (unlink_entry name e) = None.
Proof.
  unfold lookup_entry, unlink_entry. induction e as [|[n b] e IH]; [done|].
  cbn. destruct (String.eqb_spec n name) as [->|Hne]; cbn; [done|].
  by destruct (String.eqb_spec n name).
Qed.

Lemma lookup_unlink_ne name name' e :
  name <> name' -> lookup_entry name (unlink_entry name' e) = lookup_entry name e.
Proof.
  intros Hne. unfold lookup_entry, unlink_entry.
  induction e as [|[n b] e IH]; [done|]. cbn.
  destruct (String.eqb_spec n name') as [->|Hn]; cbn.
  - destruct (String.eqb_spec name' name) as [<-|_]; [done | exact IH].
  - destruct (String.eqb_spec n name); [done | exact IH].
Qed.

Lemma lookup_unlink_none name name' e :
  lookup_entry name e = None -> lookup_entry name (unlink_entry name' e) = None.
Proof.
  intros H. destruct (decide (name = name')) as [->|Hne].
  - apply lookup_unlink_same.
  - by rewrite lookup_unlink_ne.
Qed.

Lemma loaded_same_entries d d' : entries d' = entries d -> loaded d' = loaded d.
Proof. intros H. unfold loaded, post_files, parsed. by rewrite H. Qed.

Lemma loaded_unlink d d' name q :
  entries d' = unlink_entry name (entries d) ->
  In q (loaded d') -> In q (loaded d).
Proof.
  intros He Hq. apply list_elem_of_In in Hq. apply list_elem_of_In.
  unfold loaded in *. apply list_elem_of_omap in Hq as (f & Hf & Hp).
  apply list_elem_of_omap. exists f.
  unfold post_files in *. rewrite He in Hf.
  apply list_elem_of_In, List.filter_In in Hf as [Hf Hpost].
  apply List.in_map_iff in Hf as ([n b] & Hn & Hin). cbn in Hn. subst n.
  unfold unlink_entry in Hin. apply List.filter_In in Hin as [Hin Hne].
  cbn in Hne. apply negb_true_iff in Hne.
  destruct (String.eqb_spec f name) as [|Hne']; [done|].
  split.
  - apply list_elem_of_In, List.filter_In. split; [|done].
    apply List.in_map_iff. by exists (f, b).
  - unfold parsed in *. rewrite He in Hp. by rewrite lookup_unlink_ne in Hp.
Qed.

Lemma bale_advance_loaded p (w w' : Proc BaleSync.Ledger) q :
  bale_advance p w w' -> In q (loaded (dir w')) -> In q (loaded (dir w)).
Proof.
  intros [_ [He|He]] Hq.
  - by rewrite (loaded_same_entries _ _ He) in Hq.
  - by eapply loaded_unlink.
Qed.

Lemma bale_advance_absent p (w w' : Proc BaleSync.Ledger) name :
  bale_advance p w w' ->
  lookup_entry name (entries (dir w)) = None ->
  lookup_entry name (entries (dir w')) = None.
Proof.
  intros [_ [->| ->]] H; [done | by apply lookup_unlink_none].
Qed.

Lemma bale_advance_synced p (w w' : Proc BaleSync.Ledger) :
  bale_advance p w w' -> disk w = Some (mem w) -> disk w' = Some (mem w').
Proof. intros [[[-> ->]|[_ ->]] _]; done. Qed.

Lemma watch_effect_other_delete p pid e :
  post_key p <> pid -> watch_effect p e -> delete_of pid e = false.
Proof.
  intros Hne. destruct e; cbn; try done.
  intros ->. apply bool_decide_eq_false. unfold post_key in Hne. congruence.
Qed.

Lemma first_with_key pid (l : list PostData) :
  (exists p, In p l /\ post_key p = pid) ->
  exists l1 p l2, l = l1 ++ p :: l2 /\ post_key p = pid
                  /\ Forall (fun q => post_key q <> pid) l1.
Proof.
  induction l as [|q l IH]; intros (p & Hin & Hp); [done|].
  destruct (decide (post_key q = pid)) as [Hq|Hq].
  - exists [], q, l. by repeat split.
  - destruct Hin as [->|Hin]; [done|].
    destruct IH as (l1 & p' & l2 & -> & Hp' & Hl1); [by exists p|].
    exists (q :: l1), p', l2. repeat split; [done|]. by constructor.
Qed.

(** ** Deletions in the Bale watch loop *)

Lemma bale_kept_refl pid c w : mem w !! pid = Some c -> bale_kept pid c w w.
Proof. intros H. by repeat split. Qed.

Lemma bale_advance_kept pid c p w0 (w w' : Proc BaleSync.Ledger) :
  bale_advance p w w' -> mem w' !! pid = Some c ->
  bale_kept pid c w0 w -> bale_kept pid c w0 w'.
Proof.
  intros Hadv Hm' (Hm & Hl & Hs & Ha & Hd).
  split; [done|]. split; [|split; [|split]].
  - intros q Hq. apply Hl. by eapply bale_advance_loaded.
  - intros H0. eapply bale_advance_synced; [done | by apply Hs].
  - intros name H0. eapply bale_advance_absent; [done | by apply Ha].
  - intros Hc H0. specialize (Hd Hc H0). unfold durable in *.
    destruct Hadv as [[[_ Hdk]|[_ Hdk]] _]; rewrite Hdk; [done|].
    eexists. split; [done|]. by exists c.
Qed.

Lemma bale_watchPost_kept pid c p w0 w :
  post_key p <> pid
  \/ (truthy_flag (BaleSync.meta_deleted c) = true
      /\ truthy_flag (deleted p) = true) ->
  bale_kept pid c w0 w ->
  bale_kept pid c w0 (proc_of (BaleSync.watchPost p w))
  /\ Forall (fun e => delete_of pid e = false)
       (trace_of (BaleSync.watchPost p w)).
Proof.
  intros Hcase Hk. pose proof Hk as (Hm & _).
  pose proof (bale_watchPost_footprint p w) as (_ & Heff & _ & Hadv & _).
  assert (mem (proc_of (BaleSync.watchPost p w)) !! pid = Some c
          /\ Forall (fun e => delete_of pid e = false)
               (trace_of (BaleSync.watchPost p w))) as [Hm' HT].
  { destruct (decide (post_key p = pid)) as [Heq|Hne].
    - destruct Hcase as [Hne|[Hc Hp]]; [done|].
      rewrite <- Heq in Hm. unfold post_key in Hm.
      destruct (bale_watchPost_deleted p c w Hm Hc Hp) as (_ & -> & _ & Hcalls).
      split; [by rewrite <- Heq|].
      eapply List.Forall_impl; [|exact Hcalls].
      intros e He. unfold delete_of. rewrite He.
      rewrite bool_decide_eq_false_2; [|done]. apply andb_false_r.
    - split; [by rewrite (bale_advance_other p pid w _ Hne Hadv)|].
      eapply List.Forall_impl; [|exact Heff].
      intros e. by apply watch_effect_other_delete. }
  split; [by eapply bale_advance_kept | done].
Qed.

Lemma bale_syncIfNew_kept pid c p w0 w :
  bale_kept pid c w0 w ->
  bale_kept pid c w0 (proc_of (BaleSync.syncIfNew p w))
  /\ Forall (fun e => delete_of pid e = false)
       (trace_of (BaleSync.syncIfNew p w)).
Proof.
  intros Hk. pose proof Hk as (Hm & _).
  destruct (decide (post_key p = pid)) as [Heq|Hne].
  - rewrite bale_syncIfNew_known; [by split|].
    unfold post_key in Heq. rewrite Heq. by eexists.
  - pose proof (bale_syncIfNew_footprint p w) as (_ & Heff & _ & Hadv & _).
    split.
    + eapply bale_advance_kept; [done| |done].
      by rewrite (bale_advance_other p pid w _ Hne Hadv).
    + eapply List.Forall_impl; [|exact Heff].
      intros e. by apply watch_effect_other_delete.
Qed.

Lemma bale_loop_kept pid c (l : list PostData) w :
  Forall (fun p => post_key p <> pid
                   \/ (truthy_flag (BaleSync.meta_deleted c) = true
                       /\ truthy_flag (deleted p) = true)) l ->
  mem w !! pid = Some c ->
  let x := forM_ l BaleSync.watchPost w in
  bale_kept pid c w (proc_of x)
  /\ Forall (fun e => delete_of pid e = false) (trace_of x).
Proof.
  intros Hl Hm. cbn zeta.
  apply (forM_keeps (bale_kept pid c w) (fun e => delete_of pid e = false));
    [|by apply bale_kept_refl].
  intros p w' Hp HI. apply bale_watchPost_kept; [|done].
  rewrite List.Forall_forall in Hl. by apply Hl.
Qed.

(** the loop that meets the deleted record: at most one delete call, with
    the stored outbound id *)
Lemma bale_loop_delete pid c mid (l : list PostData) (w : Proc BaleSync.Ledger) :
  mem w !! pid = Some c ->
  truthy_flag (BaleSync.meta_deleted c) = false ->
  BaleSync.baleMessageId c = Some mid -> mid <> 0 ->
  (exists p, In p l /\ post_key p = pid) ->
  (forall q, In q l -> post_key q = pid -> truthy_flag (deleted q) = true) ->
  let x := forM_ l BaleSync.watchPost w in
  delete_pending pid c mid Throw x
  \/ ((run_of x = Ret tt \/ run_of x = Throw) /\ delete_done pid mid x).
Proof.
  intros Hm Hc Hmid Hnz Hex Hdel. cbn zeta.
  destruct (first_with_key pid l Hex) as (l1 & p & l2 & -> & Hp & Hl1).
  rewrite forM_app, bind_run. cbn [forM_].
  (* the records before [p] *)
  destruct (bale_loop_kept pid c l1 w) as [(Hm1 & _) HT1].
  { eapply List.Forall_impl; [|exact Hl1]. intros q Hq. by left. }
  { done. }
  pose proof (tidy_forM BaleSync.watchPost l1
                (fun q w' => proj1 (bale_watchPost_footprint q w')) w) as Ht1.
  unfold tidy in Ht1.
  set (w1 := proc_of (forM_ l1 BaleSync.watchPost w)) in *.
  destruct (run_of (forM_ l1 BaleSync.watchPost w)) as [[]| |]; cbn; [| |done].
  2:{ left. split; [done|]. split; [done|]. left. by apply forall_filter_nil. }
  (* [p] itself *)
  rewrite bind_run.
  assert (truthy_flag (deleted p) = true) as Hpd
    by (apply Hdel; [apply in_app_iff; right; by left | done]).
  pose proof Hm1 as Hm1'. rewrite <- Hp in Hm1. unfold post_key in Hm1.
  rewrite (bale_watchPost_delete p c mid w1 Hm1 Hc Hpd Hmid Hnz).
  assert (toString (id p) = pid) as Hkey by exact Hp.
  destruct (raises (Got (next_reply w1))) eqn:Hraise; cbn.
  { left. split; [done|]. split; [done|]. right.
    exists (Got (next_reply w1)). split; [done|]. cbn [trace_of snd].
    rewrite List.filter_app, (forall_filter_nil _ _ HT1). cbn.
    rewrite Hkey. by rewrite bool_decide_eq_true_2. }
  destruct (next_reply w1) as [|b] eqn:Hreply; [done|].
  assert (ok b = true) as Hok by (cbn in Hraise; by destruct (ok b)).
  (* the records after [p] *)
  set (w2 := set_dir (drop_post p) (bale_record p (Some mid) (popped w1))).
  set (c2 := BaleSync.mkMeta (date p) (editDate p) (deleted p) (Some mid)).
  assert (mem w2 !! pid = Some c2) as Hm2.
  { unfold w2, bale_record. cbn. rewrite <- Hp. apply lookup_insert_eq. }
  destruct (bale_loop_kept pid c2 l2 w2) as [(Hm3 & _ & Hs3 & Ha3 & _) HT3].
  { apply List.Forall_forall. intros q Hq.
    destruct (decide (post_key q = pid)) as [Hqk|Hqk]; [right|by left].
    split; [done|]. apply Hdel; [|done]. apply in_app_iff. right. by right. }
  { done. }
  pose proof (tidy_forM BaleSync.watchPost l2
                (fun q w' => proj1 (bale_watchPost_footprint q w')) w2) as Ht2.
  unfold tidy in Ht2.
  right. split.
  { destruct (run_of (forM_ l2 BaleSync.watchPost w2)) as [[]| |];
      [by left | by right | done]. }
  assert (delete_done pid mid
            (Ret tt, proc_of (forM_ l2 BaleSync.watchPost w2),
             trace_of (forM_ l1 BaleSync.watchPost w)
             ++ [EDeleteMessage (toString (id p)) mid (Got (Body b));
                 ESaveLedger; EUnlinkPost (post_file (id p))]
             ++ trace_of (forM_ l2 BaleSync.watchPost w2))) as Hdone.
  { split; [|split; [|split]]; cbn [trace_of proc_of fst snd].
    - exists b. split; [done|].
      rewrite !List.filter_app. cbn [List.filter].
      rewrite (forall_filter_nil _ _ HT1), (forall_filter_nil _ _ HT3).
      cbn. rewrite Hkey. by rewrite bool_decide_eq_true_2.
    - exists c2. by repeat split.
    - by apply Hs3.
    - apply Ha3. unfold w2. cbn. rewrite <- Hp. apply lookup_unlink_same. }
  by destruct (run_of (forM_ l2 BaleSync.watchPost w2)) as [[]| |].
Qed.

Lemma scan_no_delete pid d : Forall (fun e => delete_of pid e = false) (scan d).
Proof.
  eapply List.Forall_impl; [|apply scan_quiet]. intros e [H _]. by destruct e.
Qed.

Lemma sorted_loaded_in d q :
  In q (sort_by dateKey (loaded d)) <-> In q (loaded d).
Proof.
  split; apply Permutation_in; [|symmetry]; apply sort_by_perm.
Qed.

(** the records of the directory after a loop of the watch callback are
    among those before *)
Lemma bale_loop_loaded (l : list PostData) (w : Proc BaleSync.Ledger) q :
  In q (loaded (dir (proc_of (forM_ l BaleSync.watchPost w)))) ->
  In q (loaded (dir w)).
Proof.
  revert q.
  apply (forM_keeps (fun w' => forall q, In q (loaded (dir w')) ->
                                   In q (loaded (dir w)))
           (fun _ => True) BaleSync.watchPost l); [|done].
  intros p' w' _ HI. split; [|by apply Forall_true].
  intros q Hq. apply HI.
  pose proof (bale_watchPost_footprint p' w') as (_ & _ & _ & Hadv & _).
  by eapply bale_advance_loaded.
Qed.

(** the cycle that meets the deleted record *)
Lemma bale_delete_cycle pid c mid (w : Proc BaleSync.Ledger) :
  in_progress (dir w) = false ->
  mem w !! pid = Some c ->
  truthy_flag (BaleSync.meta_deleted c) = false ->
  BaleSync.baleMessageId c = Some mid -> mid <> 0 ->
  (exists p, In p (loaded (dir w)) /\ post_key p = pid) ->
  stays_deleted pid (dir w) ->
  let x := BaleSync.watchCycle w in
  delete_pending pid c mid (Halt 1) x
  \/ (delete_done pid mid x /\ stays_deleted pid (dir (proc_of x))).
Proof.
  intros Hp Hm Hc Hmid Hnz (p & Hin & Hkey) Hdel. cbn zeta.
  rewrite bale_watchCycle_run, Hp. cbn zeta.
  pose proof (bale_loop_delete pid c mid (sort_by dateKey (loaded (dir w))) w
    Hm Hc Hmid Hnz) as Hloop. cbn zeta in Hloop.
  pose proof (bale_loop_loaded (sort_by dateKey (loaded (dir w))) w) as Hsub.
  assert (forall t, List.filter (delete_of pid)
                      (scan (dir w) ++ t ++ [EClearInterval; ESaveLedger; EExit 1])
                    = List.filter (delete_of pid) t) as Hfail.
  { intros t. rewrite !List.filter_app.
    rewrite (forall_filter_nil _ _ (scan_no_delete pid (dir w))). cbn.
    by rewrite app_nil_r. }
  assert (forall t, List.filter (delete_of pid) (scan (dir w) ++ t)
                    = List.filter (delete_of pid) t) as Hgood.
  { intros t. rewrite List.filter_app.
    by rewrite (forall_filter_nil _ _ (scan_no_delete pid (dir w))). }
  destruct Hloop as [(Hr & Hm' & Hcalls)|(Hr & (Hone & Hc' & Hd & Ha))].
  - exists p. split; [by apply sorted_loaded_in | done].
  - intros q Hq. apply Hdel. by apply sorted_loaded_in.
  - left. rewrite Hr. unfold delete_pending. cbn [run_of proc_of trace_of fst snd].
    split; [done|]. split; [done|]. by rewrite Hfail.
  - right.
    assert (stays_deleted pid
              (dir (proc_of (forM_ (sort_by dateKey (loaded (dir w)))
                               BaleSync.watchPost w)))) as Hsd
      by (intros q Hq; apply Hdel; by apply Hsub).
    destruct Hr as [Hr|Hr]; rewrite Hr; unfold delete_done;
      cbn [run_of proc_of trace_of fst snd saved dir mem disk];
      rewrite ?Hfail, ?Hgood; done.
Qed.

(** once the ledger entry says deleted, no cycle calls delete for it *)
Lemma bale_cycle_marked pid (w : Proc BaleSync.Ledger) :
  durable (marked_deleted pid) w -> marked_deleted pid (mem w) ->
  stays_deleted pid (dir w) ->
  durable (marked_deleted pid) (proc_of (BaleSync.watchCycle w))
  /\ marked_deleted pid (mem (proc_of (BaleSync.watchCycle w)))
  /\ stays_deleted pid (dir (proc_of (BaleSync.watchCycle w)))
  /\ Forall (fun e => delete_of pid e = false)
       (trace_of (BaleSync.watchCycle w)).
Proof.
  intros Hd (c & Hm & Hc) Hdel. rewrite bale_watchCycle_run.
  destruct (in_progress (dir w)).
  { split; [done|]. split; [by exists c|]. split; [done|by repeat constructor]. }
  cbn zeta.
  destruct (bale_loop_kept pid c (sort_by dateKey (loaded (dir w))) w)
    as [(Hm' & Hl' & _ & _ & Hd') HT]; [|done|].
  { apply List.Forall_forall. intros q Hq.
    destruct (decide (post_key q = pid)) as [Hk|Hk]; [right|by left].
    split; [done|]. apply Hdel; [|done]. by apply sorted_loaded_in. }
  specialize (Hd' Hc Hd).
  assert (marked_deleted pid
            (mem (proc_of (forM_ (sort_by dateKey (loaded (dir w)))
                             BaleSync.watchPost w)))) as Hmk by (by exists c).
  assert (stays_deleted pid
            (dir (proc_of (forM_ (sort_by dateKey (loaded (dir w)))
                             BaleSync.watchPost w)))) as Hsd
    by (intros q Hq; apply Hdel; by apply Hl').
  split; [|split; [|split]].
  - destruct (run_of _); cbn; try done. by eexists.
  - by destruct (run_of _).
  - by destruct (run_of _).
  - apply cycle_effects; try done. apply scan_no_delete.
Qed.

Lemma bale_start_marked pid (w : Proc BaleSync.Ledger) :
  durable (marked_deleted pid) w -> stays_deleted pid (dir w) ->
  let x := BaleSync.start (set_mem (fun _ => ∅) w) in
  durable (marked_deleted pid) (proc_of x)
  /\ marked_deleted pid (mem (proc_of x))
  /\ stays_deleted pid (dir (proc_of x))
  /\ Forall (fun e => delete_of pid e = false) (trace_of x).
Proof.
  intros (l & Hl & (c & Hm & Hc)) Hdel. cbn zeta.
  rewrite (bale_start_run (set_mem (fun _ => ∅) w) l Hl). cbn zeta.
  set (w1 := set_mem (fun _ => l) (set_mem (fun _ => ∅) w)).
  rewrite bale_syncExistingPosts_run. cbn zeta.
  destruct (forM_keeps (bale_kept pid c w1) (fun e => delete_of pid e = false)
    BaleSync.syncIfNew (sort_by dateKey (loaded (dir w1)))
    (fun p w' _ => bale_syncIfNew_kept pid c p w1 w') w1
    (bale_kept_refl pid c w1 Hm)) as [(Hm' & Hl' & _ & _ & Hd') HT].
  assert (durable (marked_deleted pid) w1) as Hd1
    by (exists l; split; [done | by exists c]).
  specialize (Hd' Hc Hd1).
  assert (Forall (fun e => delete_of pid e = false)
            (List.map EReadPost (post_files (dir w1)))) as Hr.
  { induction (post_files (dir w1)); by constructor. }
  destruct (forM_ _ BaleSync.syncIfNew w1) as [[[[]| |c0] w2] t2]; cbn in *;
    (split; [done|]); (split; [by exists c|]);
    (split; [intros q Hq; apply Hdel; by apply Hl'|]);
    constructor; try done; rewrite ?Forall_app; repeat split; try done.
  by repeat constructor.
Qed.

Lemma bale_never_deletes_again pid (steps : list Step)
  (p : Process BaleSync.Ledger) :
  recorded (marked_deleted pid) p -> stays_deleted pid (dir (proc p)) ->
  Forall (step_ok (stays_deleted pid)) steps ->
  List.filter (delete_of pid) (snd (bale_run steps p)) = [].
Proof.
  intros Hp Hd Hs. apply forall_filter_nil.
  by apply (run_keeps ∅ BaleSync.start BaleSync.watchCycle bale_callback
              (marked_deleted pid) (stays_deleted pid)
              (fun e => delete_of pid e = false)
              (bale_cycle_marked pid) (bale_start_marked pid) steps p).
Qed.

(** ** Delete events in the ingester *)

Lemma lookup_write_same name b e :
  lookup_entry name (write_entry name b e) = Some b.
Proof.
  unfold lookup_entry. induction e as [|[n b'] e IH]; cbn.
  - by rewrite String.eqb_refl.
  - destruct (String.eqb_spec n name) as [->|Hne]; cbn.
    + by rewrite String.eqb_refl.
    + destruct (String.eqb_spec n name); [done | exact IH].
Qed.

Lemma handleDeletedMessage_marks (messageId : Z) (d : FS) (existing : PostData) :
  getExistingPostData (NumId messageId) d = Some existing ->
  post_file (id existing) = post_file (NumId messageId) ->
  getExistingPostData (NumId messageId) (handleDeletedMessage messageId d)
  = Some (mark_deleted existing).
Proof.
  intros He Hf. unfold handleDeletedMessage. rewrite He.
  unfold getExistingPostData, rm_dir, savePostData.
  cbn [entries set_media_files set_entries id mark_deleted].
  by rewrite Hf, lookup_write_same.
Qed.

Lemma handleDeletedMessage_media (messageId : Z) (d : FS) :
  Forall (fun f => String.prefix (mediaDir messageId +:+ "/") f = false)
    (media_files (handleDeletedMessage messageId d)).
Proof.
  unfold handleDeletedMessage, rm_dir. cbn.
  apply List.Forall_forall. intros f [_ Hf]%List.filter_In.
  by apply negb_true_iff in Hf.
Qed.




(** ** The outbound id kept for a post with several media files *)

Lemma bale_sendFile_ok pid path cap pin b rest (w : Proc BaleSync.Ledger) :
  present (dir w) path -> replies w = Body b :: rest -> ok b = true ->
  BaleSync.sendFile pid path cap pin w
  = (Ret b, answered rest w,
     [ESendFile pid path (if truthy_text cap then cap else None)
        (truthy_flag pin) (Got (Body b))]).
Proof.
  intros Hp Hr Hb. unfold BaleSync.sendFile, bind, gets. cbv beta iota.
  unfold present in Hp. rewrite Hp. unfold fetch, emit, checked.
  rewrite Hr. cbn. by rewrite Hb.
Qed.

Lemma bale_send_loop_run pid cap pin (paths : list string)
  (bs : list ApiResponse) (rest : list Reply) (acc : option Z)
  (w : Proc BaleSync.Ledger) :
  Forall (present (dir w)) paths ->
  replies w = List.map Body bs ++ rest ->
  length bs = length paths ->
  Forall (fun b => ok b = true) bs ->
  foldM (fun baleMessageId mediaPath =>
           r <- BaleSync.sendFile pid mediaPath cap pin ;;
           ret (BaleSync.keep_id baleMessageId r)) acc paths w
  = (Ret (fold_left BaleSync.keep_id bs acc), answered rest w,
     zip_with (fun path b =>
                 ESendFile pid path (if truthy_text cap then cap else None)
                   (truthy_flag pin) (Got (Body b))) paths bs).
Proof.
  revert bs acc w. induction paths as [|path paths IH]; intros bs acc w Hp Hr Hl Hok.
  - destruct bs; [|done]. cbn in *. unfold answered. rewrite <- Hr. by destruct w.
  - destruct bs as [|b bs]; [done|]. cbn in Hl, Hr.
    apply Forall_cons in Hp as [Hp1 Hp]. apply Forall_cons in Hok as [Hb Hok].
    cbn [foldM]. unfold bind.
    rewrite (bale_sendFile_ok _ _ _ _ b (List.map Body bs ++ rest) w Hp1 Hr Hb).
    unfold ret. rewrite (IH bs); try done; by injection Hl.
Qed.

Lemma keep_id_last (bs : list ApiResponse) (acc : option Z) b mid :
  List.last (List.map Some bs) None = Some b ->
  ok b = true -> result b = Some (mkApiResult (Some mid)) ->
  fold_left BaleSync.keep_id bs acc = Some mid.
Proof.
  intros Hlast Hok Hres.
  destruct bs as [|b0 bs _] using rev_ind; [done|].
  rewrite List.map_app in Hlast. cbn [List.map] in Hlast.
  rewrite List.last_last in Hlast. injection Hlast as ->.
  rewrite fold_left_app. cbn. unfold BaleSync.keep_id. by rewrite Hres, Hok.
Qed.

Lemma filter_send_unlinks (paths : list string) :
  List.filter is_send (List.map EUnlinkMedia paths) = [].
Proof. induction paths as [|? ? IH]; [done | exact IH]. Qed.

Lemma filter_send_files pid cap pin (paths : list string) (bs : list ApiResponse) :
  List.filter is_send
    (zip_with (fun path b => ESendFile pid path cap pin (Got (Body b))) paths bs)
  = zip_with (fun path b => ESendFile pid path cap pin (Got (Body b))) paths bs.
Proof.
  revert bs. induction paths as [|path paths IH]; intros bs; [done|].
  destruct bs as [|b bs]; [done|]. cbn. by rewrite IH.
Qed.

(** C10. When the Bale syncer delivers a post with two or more media
    files and every send succeeds, the ledger entry of the post keeps the
    message id of the reply to the last file (the ids returned for the
    earlier files are overwritten); a later watch cycle that propagates
    the deletion of the post makes one delete call, for that id only. *)
Theorem bale_keeps_last_media_id
  (p : PostData) (w : Proc BaleSync.Ledger) (bs : list ApiResponse)
  (blast : ApiResponse) (mid : Z) (rest : list Reply) :
  (2 <= length (media p))%nat ->
  Forall (present (dir w)) (media p) ->
  replies w = List.map Body bs ++ rest ->
  length bs = length (media p) ->
  Forall (fun b => ok b = true) bs ->
  List.last (List.map Some bs) None = Some blast ->
  result blast = Some (mkApiResult (Some mid)) ->
  let x := BaleSync.syncPost p w in
  let entry := BaleSync.mkMeta (date p) (editDate p) (deleted p) (Some mid) in
  run_of x = Ret tt
  /\ mem (proc_of x) !! post_key p = Some entry
  /\ List.filter is_send (trace_of x)
     = zip_with (fun path b =>
                   ESendFile (post_key p) path
                     (if truthy_text (text p) then text p else None)
                     (truthy_flag (pinned p)) (Got (Body b))) (media p) bs
  /\ (forall w2 : Proc BaleSync.Ledger,
        in_progress (dir w2) = false ->
        mem w2 !! post_key p = Some entry ->
        truthy_flag (deleted p) = false -> mid <> 0 ->
        (exists q, In q (loaded (dir w2)) /\ post_key q = post_key p) ->
        stays_deleted (post_key p) (dir w2) ->
        run_of (BaleSync.watchCycle w2) = Ret tt ->
        exists b,
          List.filter (delete_of (post_key p))
            (trace_of (BaleSync.watchCycle w2))
          = [EDeleteMessage (post_key p) mid (Got (Body b))]).
Proof.
  intros Hlen Hpres Hrep Hbs Hok Hlast Hres. cbn zeta.
  assert (ok blast = true) as Hokl.
  { rewrite List.Forall_forall in Hok. apply Hok.
    destruct bs as [|b0 bs _] using rev_ind; [done|].
    rewrite List.map_app in Hlast. cbn [List.map] in Hlast.
  rewrite List.last_last in Hlast. injection Hlast as ->.
    apply in_app_iff. right. by left. }
  rewrite bale_syncPost_run. unfold BaleSync.sendPost.
  assert ((0 <? length (media p))%nat = true) as -> by (apply Nat.ltb_lt; lia).
  rewrite (bale_send_loop_run _ _ _ _ bs rest None w Hpres Hrep Hbs Hok).
  rewrite (keep_id_last bs None blast mid Hlast Hokl Hres).
  split; [done|]. split; [|split].
  - cbn. unfold post_key. apply lookup_insert_eq.
  - cbn [trace_of snd List.filter is_send]. rewrite List.filter_app.
    cbn [List.filter is_send]. rewrite List.filter_app.
    rewrite filter_send_unlinks, filter_send_files. cbn.
    by rewrite app_nil_r.
  - intros w2 Hp2 Hm2 Hnd Hnz Hex Hdel Hr2.
    destruct (bale_delete_cycle (post_key p) _ mid w2 Hp2 Hm2 Hnd eq_refl Hnz
                Hex Hdel) as [(Hr & _)|(((b & _ & Hb) & _) & _)].
    + by rewrite Hr in Hr2.
    + by exists b.
Qed.

Lemma bale_keeps_last_media_id_witness :
  mem (proc_of (BaleSync.syncPost album_post album_scenario)) !! "9"
  = Some (BaleSync.mkMeta (Some 500) None None (Some 102)).
Proof.
  destruct (bale_keeps_last_media_id album_post album_scenario
              [mkApiResponse true (Some (mkApiResult (Some 101)));
               mkApiResponse true (Some (mkApiResult (Some 102)))]
              (mkApiResponse true (Some (mkApiResult (Some 102)))) 102 [])
    as (_ & H & _).
  - vm_compute. lia.
  - repeat constructor.
  - reflexivity.
  - reflexivity.
  - by repeat constructor.
  - reflexivity.
  - reflexivity.
  - exact H.
Defined.

(** ** Rewrites of a stored record by the ingester *)

Lemma getExisting_after_save (p : PostData) (d : FS) :
  getExistingPostData (id p) (savePostData p d) = Some p.
Proof.
  unfold getExistingPostData, savePostData. cbn [entries set_entries].
  by rewrite lookup_write_same.
Qed.

Lemma processMessage_stored (message : Api.Message) (d : FS) :
  exists mediaFiles,
    getExistingPostData (NumId (Api.id message)) (processMessage message d)
    = Some (mkPostData (NumId (Api.id message)) (Some (Api.date message))
              (Api.editDate message) (Some (Api.text message)) mediaFiles
              None (reply_msg message) (reply_top message) None None None).
Proof.
  unfold processMessage.
  destruct (match Api.media message with
            | Some _ => downloadMedia message d
            | None => ([], d)
            end) as [mediaFiles d1].
  exists mediaFiles.
  exact (getExisting_after_save (mkPostData (NumId (Api.id message)) _ _ _ _ _
                                   _ _ _ _ _) d1).
Qed.

(** C3 fails on the code: post 7 is stored with [deleted] set; an edit
    event for message 7, and likewise a catch-up pass that sees its new
    [editDate], store a record for id 7 in which [deleted] is unset. *)
Lemma edit_unsets_deleted :
  let d := handleDeletedMessage 7 stored_7 in
  (deleted <$> getExistingPostData (NumId 7) d) = Some (Some true)
  /\ (deleted <$> getExistingPostData (NumId 7) (processMessage edited_7 d))
     = Some None
  /\ (deleted <$> getExistingPostData (NumId 7)
                    (fst (syncLatestPosts [edited_7] d)))
     = Some None.
Proof. by vm_compute. Qed.

(** C3 as amended. A stored record keeps a set [deleted] flag through
    delete handling and through pin handling, which rewrite the stored
    record with only [deleted], respectively [pinned] and [pinnedDate],
    changed.  [processMessage], which serves the edit events and the
    rewrites of a catch-up pass, stores a record built from the message
    alone: its [deleted] flag is unset. *)
Theorem deleted_kept_by_delete_and_pin
  (messageId : Z) (d : FS) (existing : PostData) :
  getExistingPostData (NumId messageId) d = Some existing ->
  post_file (id existing) = post_file (NumId messageId) ->
  deleted existing = Some true ->
  (deleted <$> getExistingPostData (NumId messageId)
                 (handleDeletedMessage messageId d)) = Some (Some true)
  /\ (forall peerIsChannel now fetched,
        (deleted <$> getExistingPostData (NumId messageId)
                       (handlePinnedMessageById messageId peerIsChannel now
                          fetched d)) = Some (Some true))
  /\ (forall message d0,
        (deleted <$> getExistingPostData (NumId (Api.id message))
                       (processMessage message d0)) = Some None).
Proof.
  intros He Hf Hd. split; [|split].
  - by rewrite (handleDeletedMessage_marks messageId d existing He Hf).
  - intros peerIsChannel now fetched. unfold handlePinnedMessageById.
    destruct peerIsChannel; cbn [negb]; [|by rewrite He; cbn; rewrite Hd].
    rewrite He. unfold getExistingPostData, savePostData.
    cbn [entries set_entries id mark_pinned].
    rewrite Hf, lookup_write_same. cbn. by rewrite Hd.
  - intros message d0.
    by destruct (processMessage_stored message d0) as [mediaFiles ->].
Qed.

Lemma deleted_kept_by_delete_and_pin_witness :
  (deleted <$> getExistingPostData (NumId 7)
                 (handlePinnedMessageById 7 true 2000 None
                    (handleDeletedMessage 7 stored_7))) = Some (Some true).
Proof.
  destruct (deleted_kept_by_delete_and_pin 7 (handleDeletedMessage 7 stored_7)
              (mark_deleted post_7)) as (_ & Hpin & _);
    [reflexivity | reflexivity | reflexivity |].
  exact (Hpin true 2000 None).
Defined.

(** ** A second catch-up pass

    The record file of a message is named after its id, so the rewrite of
    one record leaves the others as they are. *)

Lemma append_length (s t : string) :
  String.length (s +:+ t) = (String.length s + String.length t)%nat.
Proof. induction s as [|a s IH]; [done|]. cbn [String.length Nat.add]. rewrite <- IH. done. Qed.

Lemma append_cancel_r (t s1 s2 : string) : s1 +:+ t = s2 +:+ t -> s1 = s2.
Proof.
  revert s2. induction s1 as [|a s1 IH]; intros [|b s2] H; cbn in H.
  - done.
  - apply (f_equal String.length) in H.
    change (String.length t = S (String.length (s2 +:+ t))) in H.
    rewrite append_length in H. lia.
  - apply (f_equal String.length) in H.
    change (S (String.length (s1 +:+ t)) = String.length t) in H.
    rewrite append_length in H. lia.
  - injection H as -> H. by rewrite (IH _ H).
Qed.

Lemma post_file_num_inj (a b : Z) :
  post_file (NumId a) = post_file (NumId b) -> a = b.
Proof.
  unfold post_file, toString. intros H.
  apply String.app_inj in H. apply append_cancel_r in H.
  by apply (inj pretty).
Qed.

Lemma lookup_write_ne name name' b e :
  name <> name' ->
  lookup_entry name' (write_entry name b e) = lookup_entry name' e.
Proof.
  intros Hne. unfold lookup_entry. induction e as [|x e IH]; cbn.
  - destruct (String.eqb_spec name name'); done.
  - destruct (String.eqb_spec (fst x) name) as [Hx|Hx]; cbn.
    + destruct (String.eqb_spec name name'); [done|].
      destruct (String.eqb_spec (fst x) name'); [congruence | done].
    + destruct (String.eqb_spec (fst x) name'); [done | apply IH].
Qed.

Lemma processMessage_entries message d :
  exists record,
    entries (processMessage message d)
    = write_entry (post_file (NumId (Api.id message))) (Json record) (entries d)
    /\ editDate record = Api.editDate message.
Proof.
  unfold processMessage.
  destruct (match Api.media message with
            | Some _ => downloadMedia message d
            | None => ([], d)
            end) as [mediaFiles d1] eqn:Hd.
  assert (entries d1 = entries d) as <-.
  { destruct (Api.media message) as [m|] eqn:Hm; [|by injection Hd as _ <-].
    unfold downloadMedia in Hd. rewrite Hm in Hd.
    destruct (media_file_name m); [|by injection Hd as _ <-].
    injection Hd as _ <-. unfold add_media_file.
    by destruct (existsb _ _). }
  by eexists.
Qed.

Lemma syncMessage_plain_settles messages message d c :
  Api.groupedId message = None ->
  let d' := fst (syncMessage messages message (d, c)) in
  (exists record, getExistingPostData (NumId (Api.id message)) d' = Some record
                  /\ editDate record = Api.editDate message)
  /\ (forall n, n <> Api.id message ->
        getExistingPostData (NumId n) d' = getExistingPostData (NumId n) d).
Proof.
  intros Hg. unfold syncMessage. rewrite Hg.
  assert (let d' := processMessage message d in
    (exists record, getExistingPostData (NumId (Api.id message)) d' = Some record
                  /\ editDate record = Api.editDate message)
    /\ (forall n, n <> Api.id message ->
        getExistingPostData (NumId n) d' = getExistingPostData (NumId n) d)) as Hp.
  { cbn zeta. destruct (processMessage_entries message d) as (record & He & Hr).
    unfold getExistingPostData. rewrite He. split.
    - exists record. by rewrite lookup_write_same.
    - intros n Hn. rewrite lookup_write_ne; [done|].
      intros Heq. by apply post_file_num_inj in Heq. }
  destruct (getExistingPostData (NumId (Api.id message)) d) as [existing|] eqn:He;
    [|exact Hp].
  unfold hasPostChanged. cbn [editDate]. case_bool_decide as Hd; cbn [negb fst].
  - split; [by exists existing | done].
  - exact Hp.
Qed.

Lemma settled_after_pass (all messages : list Api.Message) acc :
  Forall (fun m => Api.groupedId m = None) messages ->
  NoDup (List.map Api.id messages) ->
  forall before,
  settled before (fst acc) ->
  (forall m, In m before -> ~ In (Api.id m) (List.map Api.id messages)) ->
  settled (before ++ messages)
    (fst (fold_left (fun acc message => syncMessage all message acc) messages acc)).
Proof.
  intros Hg. revert acc. induction Hg as [|m messages Hm Hg IH];
    intros acc Hn before Hs Hfresh; cbn [fold_left].
  - by rewrite app_nil_r.
  - apply NoDup_cons in Hn as [Hm' Hn]. cbn [List.map] in Hfresh.
    replace (before ++ m :: messages) with ((before ++ [m]) ++ messages)
      by (by rewrite <- app_assoc).
    destruct acc as [d c].
    pose proof (syncMessage_plain_settles all m d c Hm) as [H1 H2].
    cbn zeta in H1, H2.
    apply IH; [done| |].
    + apply Forall_app. split; [|by repeat constructor].
      apply List.Forall_forall. intros a Ha.
      rewrite H2; [by apply (proj1 (List.Forall_forall _ _) Hs)|].
      intros Heq. apply (Hfresh a Ha). by left.
    + intros a [Ha| [<-|[]]]%in_app_iff; [|by rewrite <- list_elem_of_In].
      intros Hin. apply (Hfresh a Ha). by right.
Qed.

Lemma settled_pass_skips (all messages : list Api.Message) d c :
  Forall (fun m => Api.groupedId m = None) messages ->
  settled messages d ->
  fold_left (fun acc message => syncMessage all message acc) messages (d, c)
  = (d, mkCounters (newPosts c) (updatedPosts c)
          (skippedPosts c + Z.of_nat (length messages))).
Proof.
  intros Hg. revert c. induction Hg as [|m messages Hm Hg IH]; intros c Hs.
  - cbn. destruct c. by rewrite Z.add_0_r.
  - apply Forall_cons in Hs as [(record & Hr & He) Hs]. cbn [fold_left].
    unfold syncMessage at 2. rewrite Hm, Hr. unfold hasPostChanged.
    cbn [editDate]. rewrite bool_decide_eq_true_2 by done. cbn [negb].
    rewrite IH by done. cbn [newPosts updatedPosts skippedPosts length].
    do 2 f_equal. lia.
Qed.

Lemma settled_status messages s d :
  settled messages d -> settled messages (set_status s d).
Proof. done. Qed.

(** A second catch-up pass over a feed without albums and with distinct
    message ids finds nothing new and nothing updated, and leaves the
    record files and the media files as they are. *)
Lemma catch_up_idempotent_without_albums (messages : list Api.Message) (d : FS) :
  Forall (fun m => Api.groupedId m = None) messages ->
  NoDup (List.map Api.id messages) ->
  let first := syncLatestPosts messages d in
  let second := syncLatestPosts messages (fst first) in
  snd second = mkCounters 0 0 (Z.of_nat (length messages))
  /\ entries (fst second) = entries (fst first)
  /\ media_files (fst second) = media_files (fst first).
Proof.
  intros Hg Hn. cbn zeta.
  pose proof (settled_after_pass messages messages
    (set_status (StatusJson "in_progress" None) d, mkCounters 0 0 0)
    Hg Hn [] (List.Forall_nil _) (fun m (H : In m []) => match H with end)) as Hs.
  cbn [app] in Hs. unfold syncLatestPosts.
  destruct (fold_left _ messages (set_status _ d, _)) as [d1 c1].
  cbn [fst] in *.
  rewrite (settled_pass_skips messages messages _ (mkCounters 0 0 0) Hg)
    by done.
  done.
Qed.

Lemma catch_up_idempotent_without_albums_witness :
  snd (syncLatestPosts plain_feed (fst (syncLatestPosts plain_feed empty_store)))
  = mkCounters 0 0 2.
Proof.
  destruct (catch_up_idempotent_without_albums plain_feed empty_store)
    as [H _].
  - by repeat constructor.
  - apply (bool_decide_unpack _). by vm_compute.
  - exact H.
Defined.

(** C6 (the code departs from it). A second catch-up pass over the same
    feed counts an album as updated again when one of its messages has an
    [editDate] that differs from the one of the album's first message:
    the stored album record carries the [editDate] of the message with the
    smallest id, and the pass compares it with the [editDate] of every
    message of the album.  The record files are what they were. *)
Theorem catch_up_recounts_album :
  let first := syncLatestPosts album_feed empty_store in
  let second := syncLatestPosts album_feed (fst first) in
  snd first = mkCounters 1 0 1
  /\ snd second = mkCounters 0 1 1
  /\ entries (fst second) = entries (fst first).
Proof. by vm_compute. Qed.

(** ** Media groups *)

Lemma sorted_app {A} (R : A -> A -> Prop) (l1 l2 : list A) :
  StronglySorted R l1 -> StronglySorted R l2 ->
  (forall x y, In x l1 -> In y l2 -> R x y) ->
  StronglySorted R (l1 ++ l2).
Proof.
  induction 1 as [|x l1 Hl1 IH Hx]; intros Hl2 Hcross; [done|].
  cbn. constructor.
  - apply IH; [done|]. intros a b Ha Hb. apply Hcross; [by right | done].
  - apply Forall_app. split; [done|].
    apply List.Forall_forall. intros y Hy. apply Hcross; [by left | done].
Qed.

Lemma sorted_map {A B} (R : A -> A -> Prop) (R' : B -> B -> Prop)
  (f : A -> B) (l : list A) :
  (forall x y, R x y -> R' (f x) (f y)) ->
  StronglySorted R l -> StronglySorted R' (List.map f l).
Proof.
  intros Hf. induction 1 as [|x l Hl IH Hx]; cbn; constructor; [done|].
  apply List.Forall_forall. intros y [x' [<- Hx']]%List.in_map_iff.
  apply Hf. rewrite List.Forall_forall in Hx. by apply Hx.
Qed.

(** when the arrivals lie within the window of one another, every arrival
    precedes every wake-up *)
Lemma timeline_in_window (arrivals : list (Z * Api.Message)) :
  StronglySorted (key_le fst) arrivals ->
  (forall a b, In a arrivals -> In b arrivals -> fst b - fst a < quiescence) ->
  timeline arrivals = arrive_tasks arrivals ++ wake_tasks arrivals.
Proof.
  intros Hs Hw. unfold timeline. apply sort_by_sorted_id.
  apply sorted_app.
  - eapply sorted_map; [|exact Hs]. by intros x y.
  - eapply sorted_map; [|exact Hs]. intros x y. unfold key_le. cbn. lia.
  - intros x y [a [<- Ha]]%List.in_map_iff [b [<- Hb]]%List.in_map_iff.
    unfold key_le. cbn. specialize (Hw b a Hb Ha). lia.
Qed.

Lemma run_arrivals key (msgs : list Api.Message) d buf groups :
  Forall (fun m => group_key m = key) msgs ->
  fold_left (fun s m => arrive m s) msgs (mkState d (<[key := buf]> groups))
  = mkState d (<[key := buf ++ msgs]> groups).
Proof.
  revert buf. induction msgs as [|m msgs IH]; intros buf Hk; cbn.
  - by rewrite app_nil_r.
  - apply Forall_cons in Hk as [Hm Hk]. unfold arrive at 2.
    cbn [mediaGroups store].
    rewrite Hm, lookup_insert_eq, insert_insert_eq. unfold default.
    cbn [from_option]. unfold Datatypes.id.
    rewrite IH; [|done]. by rewrite <- app_assoc.
Qed.

Lemma run_arrive_tasks (arrivals : list (Z * Api.Message)) st :
  run_tasks (arrive_tasks arrivals) st
  = fold_left (fun s m => arrive m s) (List.map snd arrivals) st.
Proof.
  unfold run_tasks, arrive_tasks. revert st.
  induction arrivals as [|a arrivals IH]; intros st; [done|]. cbn. apply IH.
Qed.

Lemma run_wake_tasks (arrivals : list (Z * Api.Message)) st :
  run_tasks (wake_tasks arrivals) st
  = fold_left (fun s m => wake m s) (List.map snd arrivals) st.
Proof.
  unfold run_tasks, wake_tasks. revert st.
  induction arrivals as [|a arrivals IH]; intros st; [done|]. cbn. apply IH.
Qed.

(** a handler that wakes up while a later message is the last of the
    buffer leaves everything as it is *)
Lemma wake_not_last key m mlast buf d groups :
  group_key m = key -> m <> mlast ->
  wake m (mkState d (<[key := buf ++ [mlast]]> groups))
  = mkState d (<[key := buf ++ [mlast]]> groups).
Proof.
  intros Hk Hne. unfold wake. cbn [mediaGroups store].
  rewrite Hk, lookup_insert_eq. unfold default. cbn [from_option].
  unfold Datatypes.id.
  rewrite List.map_app. cbn [List.map]. rewrite List.last_last.
  rewrite bool_decide_eq_false_2; [|congruence]. by rewrite andb_false_r.
Qed.

Lemma run_early_wakes key (early : list Api.Message) mlast buf d groups :
  Forall (fun m => group_key m = key /\ m <> mlast) early ->
  fold_left (fun s m => wake m s) early
    (mkState d (<[key := buf ++ [mlast]]> groups))
  = mkState d (<[key := buf ++ [mlast]]> groups).
Proof.
  induction 1 as [|m early [Hk Hne] _ IH]; [done|]. cbn.
  by rewrite wake_not_last.
Qed.

(** the handler of the last message finalizes the group *)
Lemma wake_last key mlast buf d groups :
  group_key mlast = key -> buf <> [] ->
  wake mlast (mkState d (<[key := buf ++ [mlast]]> groups))
  = mkState (processMediaGroup (buf ++ [mlast]) d) (delete key groups).
Proof.
  intros Hk Hbuf. unfold wake. cbn [mediaGroups store].
  rewrite Hk, lookup_insert_eq. unfold default. cbn [from_option].
  unfold Datatypes.id.
  rewrite List.map_app. cbn [List.map]. rewrite List.last_last.
  rewrite bool_decide_eq_true_2; [|done].
  assert ((1 <? length (buf ++ [mlast]))%nat = true) as ->.
  { apply Nat.ltb_lt. rewrite length_app. cbn. destruct buf; [done|cbn; lia]. }
  cbn [andb]. by rewrite delete_insert_eq.
Qed.

(** [wake] changes the state only if its message is the last one of the
    buffer: no message of the group arrived after it *)
Lemma wake_changes_only_when_last (m : Api.Message) (st : State) :
  wake m st <> st ->
  exists buf, mediaGroups st !! group_key m = Some (buf ++ [m]) /\ buf <> [].
Proof.
  unfold wake. intros Hw.
  destruct (mediaGroups st !! group_key m) as [g|] eqn:Hg;
    unfold default in Hw; cbn [from_option] in Hw; unfold Datatypes.id in Hw;
    [|by destruct Hw].
  destruct g as [|x g _] using rev_ind; [by destruct Hw|].
  rewrite List.map_app in Hw. cbn [List.map] in Hw.
  rewrite List.last_last in Hw.
  destruct (bool_decide (Some x = Some m)) eqn:Hx.
  - apply bool_decide_eq_true in Hx. injection Hx as ->.
    exists g. split; [done|]. intros ->. by destruct Hw.
  - rewrite andb_false_r in Hw. by destruct Hw.
Qed.

Lemma download_all_entries (msgs : list Api.Message) (d : FS) :
  entries (snd (download_all msgs d)) = entries d.
Proof.
  unfold download_all.
  assert (forall acc : list string * FS,
            entries (snd (fold_left
              (fun '(files, d0) message =>
                 match Api.media message with
                 | Some _ =>
                     let '(mediaFiles, d1) := downloadMedia message d0 in
                     (files ++ mediaFiles, d1)
                 | None => (files, d0)
                 end) msgs acc)) = entries (snd acc)) as H.
  { induction msgs as [|m msgs IH]; intros [files d0]; [done|]. cbn [fold_left].
    rewrite IH. destruct (Api.media m) as [md|]; [|done].
    unfold downloadMedia. destruct (Api.media m) as [md'|]; [|done].
    destruct (media_file_name md'); [|done]. cbn.
    unfold add_media_file. by destruct (existsb _ _). }
  apply (H ([], d)).
Qed.

Lemma processMediaGroup_record (msgs : list Api.Message) (d : FS) (g : Z) :
  msgs <> [] ->
  Forall (fun m => Api.groupedId m = Some g) msgs ->
  exists record,
    entries (processMediaGroup msgs d)
    = write_entry (post_file (StrId ("group_" +:+ pretty g))) (Json record)
        (entries d)
    /\ id record = StrId ("group_" +:+ pretty g)
    /\ childMessages record = Some (List.map Api.id (sort_by Api.id msgs))
    /\ deleted record = None.
Proof.
  intros Hne Hg. unfold processMediaGroup.
  pose proof (sort_by_perm Api.id msgs) as Hperm.
  destruct (sort_by Api.id msgs) as [|mainMessage rest] eqn:Hs.
  { apply Permutation_nil in Hperm. done. }
  assert (Api.groupedId mainMessage = Some g) as Hmain.
  { rewrite List.Forall_forall in Hg. apply Hg.
    eapply Permutation_in; [exact Hperm | by left]. }
  pose proof (download_all_entries (mainMessage :: rest) d) as He.
  destruct (download_all (mainMessage :: rest) d) as [mediaFiles d1].
  cbn [snd] in He. rewrite Hmain. eexists. split.
  { unfold savePostData. cbn [entries set_entries id group_id].
    rewrite He. reflexivity. }
  by repeat split.
Qed.

(** all the messages arrive, then the handlers wake up in the order of
    the arrivals *)
Lemma group_run (msgs : list Api.Message) (g : Z) (st : State) :
  (2 <= length msgs)%nat ->
  Forall (fun m => Api.groupedId m = Some g) msgs ->
  NoDup (List.map Api.id msgs) ->
  mediaGroups st !! pretty g = None ->
  fold_left (fun s m => wake m s) msgs
    (fold_left (fun s m => arrive m s) msgs st)
  = mkState (processMediaGroup msgs (store st)) (mediaGroups st).
Proof.
  intros Hlen Hg Hnd Hfree.
  assert (Forall (fun m => group_key m = pretty g) msgs) as Hkey.
  { eapply List.Forall_impl; [|exact Hg]. intros m Hm. unfold group_key.
    by rewrite Hm. }
  (* the arrivals fill the buffer *)
  assert (fold_left (fun s m => arrive m s) msgs st
          = mkState (store st) (<[pretty g := msgs]> (mediaGroups st))) as ->.
  { destruct msgs as [|m0 msgs]; [cbn in Hlen; lia|]. cbn [fold_left].
    apply Forall_cons in Hkey as [Hk0 Hkey]. unfold arrive at 2.
    rewrite Hk0, Hfree. unfold default. cbn [from_option app].
    by rewrite run_arrivals. }
  (* the handlers of all but the last message leave it alone *)
  destruct msgs as [|mlast early _] using rev_ind; [cbn in Hlen; lia|].
  assert (early <> []) as Hearly.
  { intros ->. cbn in Hlen. lia. }
  apply Forall_app in Hkey as [Hke Hkl]. apply Forall_cons in Hkl as [Hkl _].
  assert (Forall (fun m => group_key m = pretty g /\ m <> mlast) early)
    as Hdiff.
  { apply List.Forall_forall. intros m Hm. split.
    - rewrite List.Forall_forall in Hke. by apply Hke.
    - intros ->. rewrite List.map_app in Hnd. cbn in Hnd.
      apply NoDup_app in Hnd as (_ & Hdis & _).
      apply (Hdis (Api.id mlast)); [|by left].
      apply list_elem_of_In, List.in_map, Hm. }
  rewrite fold_left_app, run_early_wakes; [|done]. cbn [fold_left].
  rewrite wake_last; [|done|done]. cbn [store mediaGroups].
  by rewrite delete_id.
Qed.

(** C5. Two or more messages of one media group that arrive within the
    quiescence window of one another are finalized once, by the handler of
    the last arrival: exactly one record file is written, its id is
    [group_<groupedId>], its [childMessages] are the ids of all the
    messages in ascending order, and the buffer of the group is cleared.
    A handler finalizes only when its own message is the last one of the
    buffer, that is when no message of the group arrived after it. *)
Theorem media_group_finalized_once
  (arrivals : list (Z * Api.Message)) (g : Z) (st : State) :
  (2 <= length arrivals)%nat ->
  Forall (fun a => Api.groupedId (snd a) = Some g) arrivals ->
  NoDup (List.map (fun a => Api.id (snd a)) arrivals) ->
  StronglySorted (key_le fst) arrivals ->
  (forall a b, In a arrivals -> In b arrivals -> fst b - fst a < quiescence) ->
  mediaGroups st !! pretty g = None ->
  let st' := run_timeline arrivals st in
  let ids := List.map (fun a => Api.id (snd a)) arrivals in
  (exists record children,
     entries (store st')
     = write_entry (post_file (StrId ("group_" +:+ pretty g))) (Json record)
         (entries (store st))
     /\ id record = StrId ("group_" +:+ pretty g)
     /\ childMessages record = Some children
     /\ Permutation children ids
     /\ StronglySorted Z.lt children)
  /\ mediaGroups st' = mediaGroups st
  /\ (forall m s, wake m s <> s ->
        exists buf, mediaGroups s !! group_key m = Some (buf ++ [m])
                    /\ buf <> []).
Proof.
  intros Hlen Hg Hnd Hs Hw Hfree. cbn zeta.
  set (msgs := List.map snd arrivals).
  assert (Forall (fun m => Api.groupedId m = Some g) msgs) as Hgm.
  { unfold msgs. apply List.Forall_forall.
    intros m [a [<- Ha]]%List.in_map_iff.
    rewrite List.Forall_forall in Hg. by apply Hg. }
  assert (NoDup (List.map Api.id msgs)) as Hndm
    by (unfold msgs; by rewrite List.map_map).
  assert (2 <= length msgs)%nat as Hlenm
    by (unfold msgs; by rewrite length_map).
  assert (run_timeline arrivals st
          = mkState (processMediaGroup msgs (store st)) (mediaGroups st))
    as ->.
  { unfold run_timeline. rewrite (timeline_in_window arrivals Hs Hw).
    rewrite fold_left_app.
    change (fold_left (fun s task => exec_task (snd task) s) ?t ?s)
      with (run_tasks t s).
    rewrite run_arrive_tasks, run_wake_tasks. by apply (group_run msgs g st). }
  cbn [store mediaGroups].
  split; [|split; [done | intros m s; apply wake_changes_only_when_last]].
  destruct (processMediaGroup_record msgs (store st) g)
    as (record & He & Hid & Hch & _); [|done|].
  { intros Hnil. rewrite Hnil in Hlenm. cbn in Hlenm. lia. }
  exists record, (List.map Api.id (sort_by Api.id msgs)).
  split; [done|]. split; [done|]. split; [done|]. split.
  - rewrite <- (List.map_map snd Api.id). fold msgs.
    apply Permutation_map, sort_by_perm.
  - eapply sorted_map; [|by apply (sort_by_strict Api.id)]. by intros x y.
Qed.

Lemma media_group_finalized_once_witness :
  exists record,
    entries (store (run_timeline burst (mkState empty_store ∅)))
    = [("post_group_77.json", Json record)]
    /\ childMessages record = Some [1; 2; 3; 4].
Proof.
  destruct (media_group_finalized_once burst 77 (mkState empty_store ∅))
    as ((record & children & He & _ & Hch & _) & _).
  - vm_compute. lia.
  - by repeat constructor.
  - apply (bool_decide_unpack _). by vm_compute.
  - repeat constructor; unfold key_le; cbn; lia.
  - intros a b Ha Hb. unfold quiescence.
    cbn in Ha, Hb.
    destruct Ha as [<-|[<-|[<-|[<-|[]]]]];
      destruct Hb as [<-|[<-|[<-|[<-|[]]]]]; cbn; lia.
  - reflexivity.
  - exists record. split; [exact He|].
    vm_compute in He. injection He as <-. reflexivity.
Defined.

(** ** File names and file types *)

Lemma append_assoc (a b c : string) : (a +:+ b) +:+ c = a +:+ (b +:+ c).
Proof.
  induction a as [|x a IH]; [done|].
  change (String x ((a +:+ b) +:+ c) = String x (a +:+ b +:+ c)). by rewrite IH.
Qed.

Lemma codes_append (a b : string) :
  list_ascii_of_string (a +:+ b)
  = list_ascii_of_string a ++ list_ascii_of_string b.
Proof.
  induction a as [|x a IH]; [done|].
  change (x :: list_ascii_of_string (a +:+ b)
          = x :: (list_ascii_of_string a ++ list_ascii_of_string b)).
  by rewrite IH.
Qed.

Lemma substring_suffix (a b : string) :
  String.substring (String.length a) (String.length b) (a +:+ b) = b.
Proof.
  induction a as [|x a IH].
  - change (String.substring 0 (String.length b) b = b).
    induction b as [|y b IHb]; [done|].
    change (String y (String.substring 0 (String.length b) b) = String y b).
    by rewrite IHb.
  - exact IH.
Qed.

Lemma codes_length (a : string) :
  length (list_ascii_of_string a) = String.length a.
Proof. induction a as [|x a IH]; cbn; [done | f_equal; apply IH]. Qed.

(** the scan of [extname] over the characters of an extension, from the
    end of the path *)
Lemma scan_extension (ext : list ascii) (rest : list ascii) (i e : Z) sp :
  Forall plain ext -> ext <> [] -> 0 <= i -> e = i + 1 ->
  Path.scan_loop (rev ext ++ rest) i (Path.mkScan (-1) sp (-1) true 0)
  = Path.scan_loop rest (i - Z.of_nat (length ext))
      (Path.mkScan (-1) sp e false 0).
Proof.
  intros Hp Hne Hi He.
  assert (forall l j, Forall plain l ->
            Path.scan_loop (l ++ rest) j (Path.mkScan (-1) sp e false 0)
            = Path.scan_loop rest (j - Z.of_nat (length l))
                (Path.mkScan (-1) sp e false 0)) as Hgo.
  { induction l as [|c l IH]; intros j Hl.
    - cbn [app length]. by replace (j - Z.of_nat 0) with j by lia.
    - apply Forall_cons in Hl as [[Hc1 Hc2] Hl].
      cbn [app Path.scan_loop]. unfold Path.scan_step.
      rewrite (proj2 (Ascii.eqb_neq _ _) Hc1), (proj2 (Ascii.eqb_neq _ _) Hc2).
      cbn [Path.end_ Path.startDot].
      assert ((e =? -1) = false) as -> by (apply Z.eqb_neq; lia).
      cbn. rewrite IH by done.
      by replace (j - 1 - Z.of_nat (length l))
        with (j - Z.of_nat (length (c :: l))) by (cbn [length]; lia). }
  destruct (rev ext) as [|c l] eqn:Hrev.
  { apply (f_equal (@rev _)) in Hrev. rewrite rev_involutive in Hrev. done. }
  assert (Forall plain (c :: l)) as Hcl.
  { rewrite <- Hrev. apply Forall_rev. done. }
  apply Forall_cons in Hcl as [[Hc1 Hc2] Hl].
  assert (length ext = S (length l)) as Hlen.
  { rewrite <- (length_rev ext), Hrev. done. }
  cbn [app Path.scan_loop]. unfold Path.scan_step.
  rewrite (proj2 (Ascii.eqb_neq _ _) Hc1), (proj2 (Ascii.eqb_neq _ _) Hc2).
  cbn. rewrite <- He. rewrite Hgo by done.
  by replace (i - 1 - Z.of_nat (length l))
    with (i - Z.of_nat (length ext)) by lia.
Qed.

(** the scan over the dot and the character before it *)
Lemma scan_dot (c : ascii) (rest : list ascii) (i e sp : Z) :
  plain c -> 0 <= i -> e <> -1 ->
  Path.scan_loop ("."%char :: c :: rest) i (Path.mkScan (-1) sp e false 0)
  = Path.scan_loop rest (i - 2) (Path.mkScan i sp e false (-1)).
Proof.
  intros [Hc1 Hc2] Hi He.
  assert (Path.scan_step i "." (Path.mkScan (-1) sp e false 0)
          = (Path.mkScan i sp e false 0, false)) as Hdot.
  { unfold Path.scan_step. cbn.
    by assert ((e =? -1) = false) as -> by (by apply Z.eqb_neq). }
  assert (Path.scan_step (i - 1) c (Path.mkScan i sp e false 0)
          = (Path.mkScan i sp e false (-1), false)) as Hc.
  { unfold Path.scan_step.
    rewrite (proj2 (Ascii.eqb_neq _ _) Hc1), (proj2 (Ascii.eqb_neq _ _) Hc2).
    cbn [Path.end_ Path.startDot Path.startPart Path.matchedSlash
           Path.preDotState].
    assert ((e =? -1) = false) as -> by (by apply Z.eqb_neq).
    cbn.
    by assert ((i =? -1) = false) as -> by (apply Z.eqb_neq; lia). }
  cbn [Path.scan_loop]. rewrite Hdot, Hc.
  by replace (i - 1 - 1) with (i - 2) by lia.
Qed.

(** the scan over what precedes: the dot and the end are settled *)
Lemma scan_settled (rest : list ascii) (j i e sp pd : Z) :
  i <> -1 -> e <> -1 -> pd = -1 \/ pd = 1 ->
  let s := Path.scan_loop rest j (Path.mkScan i sp e false pd) in
  Path.startDot s = i /\ Path.end_ s = e
  /\ (Path.preDotState s = -1 \/ Path.preDotState s = 1).
Proof.
  intros Hi He. revert j sp pd.
  induction rest as [|c rest IH]; intros j sp pd Hpd; cbn zeta.
  { done. }
  cbn [Path.scan_loop]. unfold Path.scan_step.
  cbn [Path.end_ Path.startDot Path.startPart Path.matchedSlash
         Path.preDotState].
  destruct (Ascii.eqb c "/"); [done|].
  assert ((e =? -1) = false) as -> by (by apply Z.eqb_neq).
  cbn.
  assert ((i =? -1) = false) as -> by (by apply Z.eqb_neq).
  destruct (Ascii.eqb c "."); cbn.
  - destruct (pd =? 1) eqn:Hp; cbn; apply IH; [done | by right].
  - apply IH. by left.
Qed.

(** the scan of a path that ends in a dot and an extension without dot or
    slash, when the character before the dot is neither *)
Lemma scan_suffix (q : string) (c : ascii) (ext : string) :
  plain c -> ext <> "" -> Forall plain (list_ascii_of_string ext) ->
  let codes := list_ascii_of_string (q +:+ String c ("." +:+ ext)) in
  let s := Path.scan_loop (rev codes) (Z.of_nat (length codes) - 1)
             (Path.mkScan (-1) 0 (-1) true 0) in
  Path.startDot s = Z.of_nat (String.length q) + 1
  /\ Path.end_ s = Z.of_nat (String.length q + S (S (String.length ext)))
  /\ (Path.preDotState s = -1 \/ Path.preDotState s = 1).
Proof.
  intros Hc Hne Hext. cbn zeta.
  assert (list_ascii_of_string (q +:+ String c ("." +:+ ext))
          = list_ascii_of_string q ++ c :: "."%char :: list_ascii_of_string ext)
    as ->.
  { by rewrite codes_append. }
  rewrite rev_app_distr. cbn [rev].
  rewrite <- !app_assoc. cbn [app].
  rewrite length_app. cbn [length]. rewrite !codes_length.
  set (n := String.length q). set (m := String.length ext).
  assert (0 < m)%nat as Hm.
  { unfold m. destruct ext; [done | cbn; lia]. }
  rewrite (scan_extension (list_ascii_of_string ext) _ _
             (Z.of_nat (n + S (S m)))); try done; try lia.
  2:{ intros H. apply Hne. by destruct ext. }
  rewrite codes_length. fold m.
  replace (Z.of_nat (n + S (S m)) - 1 - Z.of_nat m) with (Z.of_nat n + 1) by lia.
  rewrite scan_dot; [|done|lia|lia].
  apply scan_settled; [lia | lia | by left].
Qed.

(** [path.extname] of such a path is the dot and the extension *)
Lemma extname_suffix (q : string) (c : ascii) (ext : string) :
  plain c -> ext <> "" -> Forall plain (list_ascii_of_string ext) ->
  Path.extname (q +:+ String c ("." +:+ ext)) = "." +:+ ext.
Proof.
  intros Hc Hne Hext.
  pose proof (scan_suffix q c ext Hc Hne Hext) as (H1 & H2 & H3).
  cbn zeta in H1, H2, H3. unfold Path.extname. cbv zeta.
  rewrite H1, H2.
  set (n := String.length q) in *. set (m := String.length ext) in *.
  assert (0 < m)%nat as Hm.
  { unfold m. destruct ext; [done | cbn; lia]. }
  assert ((Z.of_nat n + 1 =? -1) = false) as -> by (apply Z.eqb_neq; lia).
  assert ((Z.of_nat (n + S (S m)) =? -1) = false) as ->
    by (apply Z.eqb_neq; lia).
  assert ((Z.of_nat n + 1 =? Z.of_nat (n + S (S m)) - 1) = false) as ->
    by (apply Z.eqb_neq; lia).
  rewrite andb_false_r. cbn [orb andb].
  assert ((Path.preDotState
             (Path.scan_loop
                (rev (list_ascii_of_string (q +:+ String c ("." +:+ ext))))
                (Z.of_nat
                   (length (list_ascii_of_string
                              (q +:+ String c ("." +:+ ext)))) - 1)
                (Path.mkScan (-1) 0 (-1) true 0)) =? 0) = false) as ->
    by (apply Z.eqb_neq; lia).
  rewrite orb_false_r.
  replace (Z.to_nat (Z.of_nat n + 1)) with (String.length (q +:+ String c ""))
    by (rewrite append_length; cbn [String.length]; lia).
  replace (Z.to_nat (Z.of_nat (n + S (S m)) - (Z.of_nat n + 1)))
    with (String.length ("." +:+ ext))
    by (change (String.length ("." +:+ ext)) with (S m); lia).
  replace (q +:+ String c ("." +:+ ext))
    with ((q +:+ String c "") +:+ ("." +:+ ext))
    by (by rewrite append_assoc).
  apply substring_suffix.
Qed.

(** ** Decimal numerals *)

Lemma pretty_N_go_app (x : N) (s : string) :
  exists q, pretty_N_go x s = q +:+ s.
Proof.
  revert s. induction (N.lt_wf_0 x) as [x _ IH]; intros s.
  assert (x = 0 \/ 0 < x)%N as [->|Hx] by lia.
  - exists "". by rewrite pretty_N_go_0.
  - rewrite pretty_N_go_step by done.
    destruct (IH (x `div` 10)%N (N.div_lt x 10 Hx eq_refl)
                (String (pretty_N_char (x `mod` 10)) s)) as [q ->].
    exists (q +:+ String (pretty_N_char (x `mod` 10)) "").
    by rewrite append_assoc.
Qed.

Lemma pretty_N_char_plain (x : N) : plain (pretty_N_char x).
Proof. unfold pretty_N_char, plain. by repeat case_match. Qed.

(** a numeral ends in a digit *)
Lemma pretty_N_last (x : N) :
  exists q c, pretty x = q +:+ String c "" /\ plain c.
Proof.
  unfold pretty, pretty_N. destruct (decide (x = 0)%N) as [->|Hx].
  - by exists "", "0"%char.
  - rewrite pretty_N_go_step by lia.
    destruct (pretty_N_go_app (x `div` 10)%N
                (String (pretty_N_char (x `mod` 10)) "")) as [q ->].
    exists q, (pretty_N_char (x `mod` 10)). split; [done|].
    apply pretty_N_char_plain.
Qed.

Lemma pretty_Z_last (x : Z) :
  exists q c, pretty x = q +:+ String c "" /\ plain c.
Proof.
  destruct x as [|p|p].
  - by exists "", "0"%char.
  - apply (pretty_N_last (N.pos p)).
  - destruct (pretty_N_last (N.pos p)) as (q & c & Hq & Hc).
    exists ("-" +:+ q), c. split; [|done].
    change (pretty (Z.neg p)) with ("-" +:+ pretty (N.pos p)).
    by rewrite Hq.
Qed.

(** ** The file type of a stored media file *)

Lemma generated_extname (dir stem : string) (n : Z) (ext : string) :
  ext <> "" -> Forall plain (list_ascii_of_string ext) ->
  Path.extname (dir +:+ "/" +:+ stem +:+ pretty n +:+ "." +:+ ext)
  = "." +:+ ext.
Proof.
  intros Hne Hext. destruct (pretty_Z_last n) as (q & c & -> & Hc).
  replace (dir +:+ "/" +:+ stem +:+ (q +:+ String c "") +:+ "." +:+ ext)
    with ((dir +:+ "/" +:+ stem +:+ q) +:+ String c ("." +:+ ext)).
  { by apply extname_suffix. }
  by rewrite !append_assoc.
Qed.

Ltac plain_chars := repeat constructor; done.

Lemma generated_type (dir stem : string) (n : Z) (ext : string) kind :
  ext <> "" -> Forall plain (list_ascii_of_string ext) ->
  (let e := toLowerCase ("." +:+ ext) in
   (if BaleSync.includes BaleSync.imageFormats e then BaleSync.photo
    else if BaleSync.includes BaleSync.videoFormats e then BaleSync.video
    else if BaleSync.includes BaleSync.audioFormats e then BaleSync.audio
    else BaleSync.document) = kind) ->
  BaleSync.getFileType (dir +:+ "/" +:+ stem +:+ pretty n +:+ "." +:+ ext)
  = kind.
Proof.
  intros Hne Hext Hk. unfold BaleSync.getFileType.
  by rewrite generated_extname.
Qed.

(** A photo, and the photo of a web page, that the ingester stored is sent
    to Bale with [sendPhoto]; a document for which the ingester made up the
    name is sent with the method of the kind the name was made from. *)
Theorem stored_media_is_routed_by_kind :
  (forall (message : Api.Message) (d : FS) (filePath : string),
     In filePath (fst (downloadMedia message d)) ->
     match Api.media message with
     | Some (Api.MessageMediaPhoto _) | Some (Api.MessageMediaWebPage _) =>
         BaleSync.route (BaleSync.getFileType filePath) = ("/sendPhoto", "photo")
     | _ => True
     end)
  /\ (forall (document : Api.Document) (dir : string),
        List.find (fun a => match a with
                            | Api.DocumentAttributeFilename _ => true
                            | _ => false
                            end) (Api.attributes document) = None ->
        BaleSync.getFileType (dir +:+ "/" +:+ getDocumentFilename document)
        = generated_kind document).
Proof.
  split.
  - intros message d filePath Hin. unfold downloadMedia in Hin.
    destruct (Api.media message) as [[[photo|]|doc|[photo|]|]|]; try done;
      cbn [media_file_name fst In] in Hin; try done;
      destruct Hin as [<-|[]]; unfold mediaDir.
    + rewrite (generated_type ("media/" +:+ pretty (Api.id message))
                 "photo_" photo "jpg" BaleSync.photo); [done| done | plain_chars | done].
    + rewrite (generated_type ("media/" +:+ pretty (Api.id message))
                 "webpage_photo_" photo "jpg" BaleSync.photo);
        [done| done | plain_chars | done].
  - intros document dir Hfind. unfold getDocumentFilename, generated_kind.
    rewrite Hfind.
    induction (Api.attributes document) as [|a attrs IH]; cbn [omap list_omap].
    + apply (generated_type dir "document_" _ "bin"); [done | plain_chars | done].
    + cbn [List.find] in Hfind.
      destruct a as [name|  |voice| | |]; cbn [omap list_omap]; try done.
      * apply (generated_type dir "video_" _ "mp4"); [done | plain_chars | done].
      * destruct voice.
        -- apply (generated_type dir "voice_" _ "ogg"); [done | plain_chars | done].
        -- apply (generated_type dir "audio_" _ "mp3"); [done | plain_chars | done].
      * apply (generated_type dir "animation_" _ "mp4"); [done | plain_chars | done].
      * apply (generated_type dir "sticker_" _ "webp"); [done | plain_chars | done].
      * by apply IH.
Qed.

Lemma stored_media_is_routed_by_kind_witness :
  BaleSync.route (BaleSync.getFileType "media/1/photo_901.jpg")
  = ("/sendPhoto", "photo").
Proof.
  destruct stored_media_is_routed_by_kind as [H _].
  apply (H (album_message 1 None) empty_store "media/1/photo_901.jpg").
  vm_compute. by left.
Defined.

(** ** The main scripts *)

Lemma testConnection_run {L} (w : Proc L) :
  testConnection w
  = (Ret match next_reply w with
         | Body result => ok result
         | NetFail => false
         end, popped w, []).
Proof.
  unfold testConnection. rewrite try_catch_run, bind_run.
  unfold fetch, next_reply, popped. cbn.
  by destruct (hd NetFail (replies w)) as [|result].
Qed.

(** A bridge script starts its syncer only when the environment is
    complete and the platform answers the connection test with [ok]; in
    every other case it leaves with exit code 1 and has read no record and
    made no call for a post.  The connection test never raises. *)
Theorem main_guards_start {L} (start : M L unit) (c : Config) (w : Proc L) :
  main start c w
  = if negb (telegram_configured c && platform_configured c)
    then (Halt 1, w, [EExit 1])
    else match next_reply w with
         | Body result =>
             if ok result then start (popped w)
             else (Halt 1, popped w, [EExit 1])
         | NetFail => (Halt 1, popped w, [EExit 1])
         end.
Proof.
  unfold main.
  destruct (telegram_configured c); [|done].
  destruct (platform_configured c); [|done]. cbn [negb andb].
  unfold bind. rewrite testConnection_run.
  destruct (next_reply w) as [|result]; [done|].
  destruct (ok result); cbn [negb]; [|done].
  by destruct (start (popped w)) as [[r w1] t1].
Qed.


(** ** Delete events with several ids *)

Lemma getExisting_handleDeleted (a n : Z) (d : FS) :
  filed d ->
  getExistingPostData (NumId n) (handleDeletedMessage a d)
  = if decide (n = a)
    then mark_deleted <$> getExistingPostData (NumId n) d
    else getExistingPostData (NumId n) d.
Proof.
  intros Hf. unfold handleDeletedMessage.
  destruct (getExistingPostData (NumId a) d) as [existing|] eqn:He.
  - pose proof (Hf a existing He) as Hfile.
    unfold getExistingPostData, rm_dir, savePostData.
    cbn [entries set_media_files set_entries id mark_deleted].
    rewrite Hfile. destruct (decide (n = a)) as [->|Hne].
    + rewrite lookup_write_same. unfold getExistingPostData in He.
      by destruct (lookup_entry (post_file (NumId a)) (entries d)) as [[|p]|];
        simplify_eq.
    + rewrite lookup_write_ne; [done|].
      intros H. apply Hne. symmetry. by apply post_file_num_inj.
  - unfold getExistingPostData, rm_dir. cbn [entries set_media_files].
    destruct (decide (n = a)) as [->|Hne]; [|done].
    unfold getExistingPostData in He.
    by destruct (lookup_entry (post_file (NumId a)) (entries d)) as [[|p]|].
Qed.

Lemma handleDeleted_filed (a : Z) (d : FS) :
  filed d -> filed (handleDeletedMessage a d).
Proof.
  intros Hf n p. rewrite getExisting_handleDeleted by done.
  destruct (decide (n = a)) as [->|Hne]; [|apply Hf].
  destruct (getExistingPostData (NumId a) d) as [q|] eqn:Hq; [|done].
  intros [= <-]. exact (Hf a q Hq).
Qed.

Lemma handleDeleted_media (a : Z) (d : FS) :
  media_files (handleDeletedMessage a d)
  = List.filter (fun f => negb (String.prefix (mediaDir a +:+ "/") f))
      (media_files d).
Proof.
  unfold handleDeletedMessage, rm_dir. cbn [media_files set_media_files].
  by destruct (getExistingPostData (NumId a) d).
Qed.

Lemma filter_twice {A} (f g : A -> bool) (l : list A) :
  List.filter f (List.filter g l) = List.filter (fun x => g x && f x) l.
Proof.
  induction l as [|x l IH]; [done|]. cbn [List.filter].
  destruct (g x); cbn [List.filter andb]; [|done].
  destruct (f x); by rewrite IH.
Qed.

Lemma mark_deleted_twice (p : PostData) :
  mark_deleted (mark_deleted p) = mark_deleted p.
Proof. done. Qed.

(** A delete event rewrites the stored record of every id it lists with
    [deleted] set, leaves the other records as they are, and removes the
    media files under the directories of the listed ids, and no other. *)
Theorem delete_event_marks_every_id (ids : list Z) (d : FS) :
  filed d ->
  let d' := deleteHandler (Some ids) d in
  (forall n,
     getExistingPostData (NumId n) d'
     = if existsb (Z.eqb n) ids
       then mark_deleted <$> getExistingPostData (NumId n) d
       else getExistingPostData (NumId n) d)
  /\ media_files d'
     = List.filter
         (fun f => forallb (fun a => negb (String.prefix (mediaDir a +:+ "/") f))
                     ids)
         (media_files d)
  /\ filed d'.
Proof.
  unfold deleteHandler. revert d.
  induction ids as [|a ids IH]; intros d Hf; cbn zeta; cbn [fold_left].
  - split; [done|]. split; [|done]. cbn [forallb].
    induction (media_files d) as [|f l IHl]; [done|]. cbn. by rewrite <- IHl.
  - destruct (IH (handleDeletedMessage a d) (handleDeleted_filed a d Hf))
      as (Hrec & Hmedia & Hf').
    split; [|split; [|done]].
    + intros n. rewrite Hrec, getExisting_handleDeleted by done.
      cbn [existsb]. destruct (decide (n = a)) as [->|Hne].
      * rewrite Z.eqb_refl. cbn [orb].
        destruct (existsb (Z.eqb a) ids); [|done].
        by destruct (getExistingPostData (NumId a) d).
      * by rewrite (proj2 (Z.eqb_neq n a) Hne).
    + rewrite Hmedia, handleDeleted_media, filter_twice. done.
Qed.

Lemma delete_event_marks_every_id_witness :
  getExistingPostData (NumId 7) (deleteHandler (Some [7; 8]) stored_7)
  = Some (mark_deleted post_7)
  /\ media_files (deleteHandler (Some [7; 8]) stored_7) = [].
Proof.
  assert (filed stored_7) as Hf.
  { intros n p. unfold getExistingPostData, lookup_entry.
    cbn [stored_7 entries List.find fst].
    destruct (String.eqb_spec "post_7.json" (post_file (NumId n))) as [<-|];
      [|done].
    by intros [= <-]. }
  destruct (delete_event_marks_every_id [7; 8] stored_7 Hf)
    as (Hrec & Hmedia & _).
  split; [by rewrite Hrec | by rewrite Hmedia].
Defined.
